(** * Reposignal bot: command validation, dispatch and delayed cleanup

    A shallow embedding of the TypeScript sources of the bot
    (src/commands, src/events, src/queues, src/services) and the
    properties of its command handlers and of its cleanup queue.

    Conventions of the embedding:
    - a JavaScript string is the list of its UTF-16 code units;
    - a JavaScript number that the code uses as an identifier, a counter
      or a delay is an integer of [Z] (exact below 2^53);
    - an [async] function is a computation of the monad [M] below: it
      appends the external calls it makes to a trace, reads their outcome
      from a [World], and either returns or throws. *)

From Stdlib Require Import ZArith NArith Bool String Ascii Lia DecimalString List.
Import ListNotations.

Set Implicit Arguments.

(* ===================================================================== *)
(** ** JavaScript strings *)
(* ===================================================================== *)

Module JS.

Definition jsstring := list N.

(** A string literal of the source whose characters are all ASCII. *)
Definition lit (s : string) : jsstring :=
  map N_of_ascii (list_ascii_of_string s).
Arguments lit s%_string.

(** [String(n)] / [`${n}`] for an integer [n]. *)
Definition num_to_string (z : Z) : jsstring :=
  lit (NilZero.string_of_int (Z.to_int z)).

Fixpoint str_eqb (a b : jsstring) : bool :=
  match a, b with
  | [], [] => true
  | c :: a', d :: b' => N.eqb c d && str_eqb a' b'
  | _, _ => false
  end.

Fixpoint startsWith (s needle : jsstring) : bool :=
  match needle, s with
  | [], _ => true
  | c :: needle', d :: s' => N.eqb c d && startsWith s' needle'
  | _ :: _, [] => false
  end.

(** [s.includes(needle)] *)
Fixpoint includes (s needle : jsstring) : bool :=
  startsWith s needle ||
  match s with
  | [] => false
  | _ :: s' => includes s' needle
  end.

(** [arr.join(sep)] *)
Fixpoint join (sep : jsstring) (arr : list jsstring) : jsstring :=
  match arr with
  | [] => []
  | [x] => x
  | x :: rest => x ++ sep ++ join sep rest
  end.

(** [arr.includes(x)] on an array of strings. *)
Definition array_includes (arr : list jsstring) (x : jsstring) : bool :=
  existsb (str_eqb x) arr.

Definition is_upper (u : N) : bool := (65 <=? u)%N && (u <=? 90)%N.
Definition is_lower (u : N) : bool := (97 <=? u)%N && (u <=? 122)%N.
Definition is_digit (u : N) : bool := (48 <=? u)%N && (u <=? 57)%N.

(** [s.toLowerCase()]; the code applies it to text matched by a pattern
    of ASCII letters only, other code units are left as they are. *)
Definition toLowerCase (s : jsstring) : jsstring :=
  map (fun u => if is_upper u then (u + 32)%N else u) s.

(** White space of ECMAScript: the class [\s], and what [parseInt] skips. *)
Definition is_space (u : N) : bool :=
  existsb (N.eqb u)
    [9; 10; 11; 12; 13; 32; 160; 5760; 8232; 8233; 8239; 8287; 12288; 65279]%N
  || ((8192 <=? u)%N && (u <=? 8202)%N).

(** ** Regular expressions

    The fragment of ECMAScript patterns the sources use: character
    classes, [class+], sequence, alternation, [r?] (as [r|empty]) and
    numbered capturing groups, matched by backtracking in the order of the
    language: the left alternative first, [+] greedy. *)

Inductive regex : Type :=
| REmpty
| RClass (p : N -> bool)
| RPlus (p : N -> bool)
| RSeq (r1 r2 : regex)
| RAlt (r1 r2 : regex)
| RGroup (i : nat) (r : regex).

Definition captures := list (nat * jsstring).

Fixpoint plus_k {R} (p : N -> bool) (s : jsstring)
    (k : jsstring -> option R) : option R :=
  match s with
  | c :: s' =>
      if p c then
        match plus_k p s' k with
        | Some x => Some x
        | None => k s'
        end
      else None
  | [] => None
  end.

(** The text consumed between [s] and its suffix [s']. *)
Definition consumed (s s' : jsstring) : jsstring :=
  firstn (length s - length s') s.

Fixpoint exec_k {R} (r : regex) (s : jsstring) (caps : captures)
    (k : jsstring -> captures -> option R) : option R :=
  match r with
  | REmpty => k s caps
  | RClass p =>
      match s with
      | c :: s' => if p c then k s' caps else None
      | [] => None
      end
  | RPlus p => plus_k p s (fun s' => k s' caps)
  | RSeq r1 r2 => exec_k r1 s caps (fun s' caps' => exec_k r2 s' caps' k)
  | RAlt r1 r2 =>
      match exec_k r1 s caps k with
      | Some x => Some x
      | None => exec_k r2 s caps k
      end
  | RGroup i r1 =>
      exec_k r1 s caps (fun s' caps' => k s' ((i, consumed s s') :: caps'))
  end.

(** A successful match: the matched text, the groups, the rest of the input. *)
Record MatchResult := {
  m_full : jsstring;
  m_groups : captures;
  m_rest : jsstring
}.

Definition exec_at (r : regex) (s : jsstring) : option MatchResult :=
  exec_k r s []
    (fun s' caps =>
       Some {| m_full := consumed s s'; m_groups := caps; m_rest := s' |}).

(** [s.match(r)] for a pattern without the flag [g]: the leftmost match. *)
Fixpoint str_match (r : regex) (s : jsstring) : option MatchResult :=
  match exec_at r s with
  | Some m => Some m
  | None =>
      match s with
      | [] => None
      | _ :: s' => str_match r s'
      end
  end.

(** [m[i]] of a match array (the source only reads groups that took part
    in the match; a group that did not reads as the empty text here). *)
Fixpoint group (i : nat) (caps : captures) : jsstring :=
  match caps with
  | [] => []
  | (j, t) :: rest => if Nat.eqb i j then t else group i rest
  end.

(** [r.test(s)] *)
Definition test (r : regex) (s : jsstring) : bool :=
  match str_match r s with Some _ => true | None => false end.

(** [s.match(r)] for a pattern with the flag [g]: every match, left to
    right, each search starting where the previous match ended (one code
    unit further after an empty match); [None] is JavaScript's [null]. *)
Fixpoint match_all_from (fuel : nat) (r : regex) (s : jsstring) : list jsstring :=
  match fuel with
  | O => []
  | S fuel' =>
      match str_match r s with
      | None => []
      | Some m =>
          m_full m ::
          match m_full m, m_rest m with
          | [], [] => []
          | [], _ :: rest' => match_all_from fuel' r rest'
          | _ :: _, rest => match_all_from fuel' r rest
          end
      end
  end.

Definition match_all (r : regex) (s : jsstring) : option (list jsstring) :=
  match match_all_from (S (length s)) r s with
  | [] => None
  | l => Some l
  end.

(** What a successful run of the matcher on [r] relates: the input [s]
    and the groups [caps] before, the rest [s'] and the groups [caps']
    after. *)
Fixpoint matches (r : regex) (s : jsstring) (caps : captures)
    (s' : jsstring) (caps' : captures) : Prop :=
  match r with
  | REmpty => s' = s /\ caps' = caps
  | RClass p => exists c, s = c :: s' /\ p c = true /\ caps' = caps
  | RPlus p => caps' = caps
  | RSeq r1 r2 =>
      exists s1 caps1,
        matches r1 s caps s1 caps1 /\ matches r2 s1 caps1 s' caps'
  | RAlt r1 r2 => matches r1 s caps s' caps' \/ matches r2 s caps s' caps'
  | RGroup i r1 =>
      exists caps1,
        matches r1 s caps s' caps1 /\ caps' = (i, consumed s s') :: caps1
  end.

Fixpoint no_groups (r : regex) : bool :=
  match r with
  | REmpty | RClass _ | RPlus _ => true
  | RSeq r1 r2 | RAlt r1 r2 => no_groups r1 && no_groups r2
  | RGroup _ _ => false
  end.

(** Canonicalisation of the flag [i] on the ASCII letters. *)
Definition canon (u : N) : N := if is_lower u then (u - 32)%N else u.

(** One pattern character under the flag [i]. *)
Definition ci (c : N) : N -> bool := fun u => N.eqb (canon u) (canon c).

Definition seq (rs : list regex) : regex := fold_right RSeq REmpty rs.

(** Literal pattern text under the flag [i]. *)
Definition re_lit (s : string) : regex :=
  seq (map (fun a => RClass (ci (N_of_ascii a))) (list_ascii_of_string s)).
Arguments re_lit s%_string.

Fixpoint alt (r : regex) (rs : list regex) : regex :=
  match rs with
  | [] => r
  | r' :: rs' => RAlt r (alt r' rs')
  end.

Definition opt (r : regex) : regex := RAlt r REmpty.

(** A class [[...]] listing code units, under the flag [i]. *)
Definition one_of_ci (s : string) : N -> bool :=
  fun u => existsb (fun a => ci (N_of_ascii a) u) (list_ascii_of_string s).
Arguments one_of_ci s%_string.

Definition in_range (lo hi : N) : N -> bool :=
  fun u => (lo <=? u)%N && (u <=? hi)%N.

(** ** Numbers

    The numbers of the source are doubles. Those the bot computes with are
    integers or come from [parseInt]: [Num z] is the double whose value is
    the integer [z] (the two zeros are one here: they print alike), and
    [Infinity] is what [parseInt] gives beyond the range of doubles. *)

Inductive number := NaN | Num (z : Z) | Infinity (negative : bool).

(** The double nearest to the integer [m >= 0]: 53 significant bits, a tie
    goes to the even significand; [None] from [2^1024 - 2^970] on, where
    the nearest double is the infinity. *)
Definition nearest_double (m : Z) : option Z :=
  let e := (Z.log2 m - 52)%Z in
  if (e <=? 0)%Z then Some m
  else
    let q := Z.shiftr m e in
    let r := (m - Z.shiftl q e)%Z in
    let half := Z.shiftl 1 (e - 1) in
    let q' := if (half <? r)%Z || ((half =? r)%Z && Z.odd q)
              then (q + 1)%Z else q in
    let v := Z.shiftl q' e in
    if (Z.shiftl 1 1024 <=? v)%Z then None else Some v.

(** The Number value for the integer [z]. *)
Definition to_double (z : Z) : number :=
  match nearest_double (Z.abs z) with
  | Some v => Num (Z.sgn z * v)
  | None => Infinity (z <? 0)%Z
  end.

(** [Number::toString] for a double with an integer value [v >= 2^53]:
    the decimal with the fewest significant digits that reads back as [v]
    (the one nearest to [v] when there are two, the even one when they are
    equally near), written in full below [10^21] and with an exponent from
    there on. *)
Definition reads_back (v x : Z) : bool :=
  match nearest_double x with
  | Some v' => (v' =? v)%Z
  | None => false
  end.

(** The decimal of [k] significant digits that reads back as the double
    [v], which has [n] digits. *)
Definition shortest_at (v : Z) (n k : nat) : option Z :=
  let p := (10 ^ Z.of_nat (n - k))%Z in
  let lo := (v / p * p)%Z in
  let hi := (lo + p)%Z in
  match reads_back v lo, reads_back v hi with
  | true, true =>
      Some (if (v - lo <? hi - v)%Z
               || ((v - lo =? hi - v)%Z && Z.even (v / p))
            then lo else hi)
  | true, false => Some lo
  | false, true => Some hi
  | false, false => None
  end.

Fixpoint shortest_from (v : Z) (n k : nat) (fuel : nat) : Z :=
  match fuel with
  | O => v
  | S fuel' =>
      match shortest_at v n k with
      | Some x => x
      | None => shortest_from v n (S k) fuel'
      end
  end.

Definition shortest_decimal (v : Z) : Z :=
  shortest_from v (length (num_to_string v)) 1 17.

Fixpoint drop_zeros (rev_digits : jsstring) : jsstring :=
  match rev_digits with
  | 48%N :: ds => drop_zeros ds
  | _ => rev_digits
  end.

Definition exponential (digits : jsstring) : jsstring :=
  match rev (drop_zeros (rev digits)) with
  | [] => digits
  | [d] => d :: lit "e+" ++ num_to_string (Z.of_nat (length digits) - 1)
  | d :: ds =>
      d :: lit "." ++ ds ++ lit "e+"
        ++ num_to_string (Z.of_nat (length digits) - 1)
  end.

Definition large_to_string (v : Z) : jsstring :=
  let x := shortest_decimal v in
  if (x <? 10 ^ 21)%Z then num_to_string x else exponential (num_to_string x).

(** [String(n)] / [`${n}`]; an integer below [2^53] is written with all its
    digits. *)
Definition number_to_string (n : number) : jsstring :=
  match n with
  | NaN => lit "NaN"
  | Infinity false => lit "Infinity"
  | Infinity true => lit "-Infinity"
  | Num z =>
      if (Z.abs z <? 2 ^ 53)%Z then num_to_string z
      else if (z <? 0)%Z then lit "-" ++ large_to_string (- z)
      else large_to_string z
  end.

Fixpoint skip_spaces (s : jsstring) : jsstring :=
  match s with
  | c :: s' => if is_space c then skip_spaces s' else s
  | [] => []
  end.

Fixpoint digits_value (acc : Z) (s : jsstring) : Z :=
  match s with
  | c :: s' =>
      if is_digit c then digits_value (10 * acc + Z.of_N (c - 48)) s' else acc
  | [] => acc
  end.

Definition starts_with_digit (s : jsstring) : bool :=
  match s with
  | c :: _ => is_digit c
  | [] => false
  end.

(** [parseInt(s, 10)], and [parseInt(s)] on text that does not start with
    [0x]: white space is skipped, then an optional sign, then the longest
    run of decimal digits is read, and the result is the double nearest to
    their value; [NaN] when there is no digit. (ECMAScript lets an engine
    read the digits after the 20th as zeros; V8, the engine of Node.js,
    rounds the value itself, as here.) *)
Definition parseInt (s : jsstring) : number :=
  match skip_spaces s with
  | 45%N :: s' =>
      if starts_with_digit s' then to_double (- digits_value 0 s')%Z else NaN
  | 43%N :: s' =>
      if starts_with_digit s' then to_double (digits_value 0 s') else NaN
  | s' =>
      if starts_with_digit s' then to_double (digits_value 0 s') else NaN
  end.

End JS.
Import JS.


(* ===================================================================== *)
(** ** Data model (src/types/index.ts and the payloads the handlers read) *)
(* ===================================================================== *)

Inductive ActorType := System | Bot | Maintainer | Contributor.
Inductive EntityType := Repo | Issue | Installation | Feedback | Comment.

(** ['docs' | 'bug' | 'feature' | 'refactor' | 'test' | 'infra']: the code
    obtains it by a cast of matched text, so it is a string here. *)
Definition IssueType := jsstring.

(** A JavaScript value, as far as the request bodies and log contexts
    of the bot need them. *)
#[warnings="-register-all"] Inductive jsval :=
| VUndefined
| VNull
| VBool (b : bool)
| VNum (n : number)
| VStr (s : jsstring)
| VObj (props : list (jsstring * jsval)).

(** [obj[key]] *)
Fixpoint get_prop (key : jsstring) (props : list (jsstring * jsval)) : option jsval :=
  match props with
  | [] => None
  | (k, v) :: rest => if str_eqb key k then Some v else get_prop key rest
  end.

Definition prop (key : jsstring) (v : jsval) : option jsval :=
  match v with
  | VObj props => get_prop key props
  | _ => None
  end.

(** A field of type [T | null | undefined]. *)
Inductive optional (A : Type) :=
| Undefined
| Null
| Val (a : A).
Arguments Undefined {A}.
Arguments Null {A}.

Definition to_jsval {A} (f : A -> jsval) (o : optional A) : jsval :=
  match o with
  | Undefined => VUndefined
  | Null => VNull
  | Val a => f a
  end.

(** [x ?? undefined] for [x : T | null] *)
Definition or_undefined {A} (o : option A) : optional A :=
  match o with Some a => Val a | None => Undefined end.

(** [x] for [x : T | null] *)
Definition or_null {A} (o : option A) : optional A :=
  match o with Some a => Val a | None => Null end.

Definition actorType_name (a : ActorType) : jsstring :=
  match a with
  | System => lit "system"
  | Bot => lit "bot"
  | Maintainer => lit "maintainer"
  | Contributor => lit "contributor"
  end.

Definition entityType_name (e : EntityType) : jsstring :=
  match e with
  | Repo => lit "repo"
  | Issue => lit "issue"
  | Installation => lit "installation"
  | Feedback => lit "feedback"
  | Comment => lit "comment"
  end.

Record LogEntry := {
  actorType : ActorType;
  actorGithubId : optional Z;
  actorUsername : optional jsstring;
  action : jsstring;
  entityType : EntityType;
  entityId : jsstring;
  context : optional jsval
}.

Record CleanupJob := {
  owner : jsstring;
  repo : jsstring;
  commentId : Z;
  issueNumber : optional Z;
  installationId : Z
}.

(** The [actor] object of the classification and deletion calls. *)
Record Actor := {
  actor_type : jsstring;
  actor_githubId : optional Z;
  actor_username : optional jsstring
}.

Record ClassifyData := {
  cl_githubRepoId : Z;
  cl_githubIssueId : Z;
  cl_difficulty : optional number;
  cl_issueType : optional IssueType;
  cl_hidden : optional bool;
  cl_actor : Actor
}.

Record FeedbackData := {
  fb_githubPrId : Z;
  fb_githubRepoId : Z;
  fb_difficultyRating : optional number;
  fb_responsivenessRating : optional number
}.

Record DeleteIssueData := {
  di_githubRepoId : Z;
  di_githubIssueId : number;
  di_actor : Actor
}.

(** Webhook payloads, reduced to the fields the handlers read. *)
Record Repository := {
  repository_id : Z;
  repository_name : jsstring;
  repository_owner_login : jsstring
}.

Record User := { user_id : Z; user_login : jsstring }.

Record IssueComment := { comment_id : Z; comment_body : jsstring }.

Record IssueRef := { issue_id : Z; issue_number : Z }.

(** [issue_comment.created]; [ic_installation] is [payload.installation?.id]. *)
Record IssueCommentCreated := {
  ic_comment : IssueComment;
  ic_issue : IssueRef;
  ic_repository : Repository;
  ic_sender : User;
  ic_installation : option Z
}.

(** [issues.opened] *)
Record IssuesOpened := {
  io_issue : IssueRef;
  io_repository : Repository;
  io_installation : option Z
}.

(** [pull_request.closed]; [pr_body] is [null] as [None], [pr_head_repo]
    tells whether [pull_request.head.repo] is an object. *)
Record PullRequestPayload := {
  pr_merged : bool;
  pr_number : Z;
  pr_body : option jsstring;
  pr_head_repo : bool
}.

Record PullRequestClosed := {
  pc_pull_request : PullRequestPayload;
  pc_repository : Repository;
  pc_installation : option Z
}.

(** The answer of [octokit.pulls.get]: [pull_user] is [pr.user?.id]. *)
Record PullData := {
  pull_id : Z;
  pull_merged : bool;
  pull_user : option Z
}.

(** Options of [Queue.add]. *)
Record Backoff := { backoff_type : jsstring; backoff_delay : Z }.

Record JobsOptions := {
  delay : Z;
  attempts : Z;
  backoff : Backoff
}.

(** The argument of [fetch]; [body] is the value given to
    [JSON.stringify]. *)
Record FetchRequest := {
  url : jsstring;
  method : jsstring;
  headers : list (jsstring * jsstring);
  body : jsval
}.

(* ===================================================================== *)
(** ** External calls, traces and the monad of handlers *)
(* ===================================================================== *)

Inductive BackendCall :=
| ClassifyIssue (data : ClassifyData)
| SubmitFeedback (data : FeedbackData)
| DeleteIssue (data : DeleteIssueData)
| WriteLog (log : LogEntry).

Inductive Level := Info | Error.

(** One observable step of a handler. An external call is recorded with
    its arguments and its outcome ([None] or [false]: the call threw).
    [EFetch] is a request of the backend client, with the method of the
    client that issued it and the argument of that method. [ELog] is a line
    of the process log ([context.log.info], [console.log] at [Info];
    [context.log.error], [console.error] at [Error]): the text only, not
    the error object printed with it. *)
Inductive Event :=
| EGetCollaboratorPermissionLevel (owner repo username : jsstring)
    (permission : option jsstring)
| EPullsGet (owner repo : jsstring) (pull_number : Z) (pr : option PullData)
| ECreateComment (owner repo : jsstring) (issue_number : Z) (body : jsstring)
    (id : option Z)
| EAuth (installationId : Z) (ok : bool)
| EDeleteComment (owner repo : jsstring) (comment_id : Z) (ok : bool)
| EFetch (call : BackendCall) (req : FetchRequest) (ok : bool)
| EQueueAdd (queue name : jsstring) (job : CleanupJob) (opts : JobsOptions)
    (ok : bool)
| EConsolePayload (p : IssueCommentCreated)
| ELog (lvl : Level) (msg : jsstring).

Definition Trace := list Event.

(** What lies outside the bot: the configuration of the process and the
    outcome of every external call, which may depend on all that happened
    before. *)
Record World := {
  BACKEND_URL : jsstring;
  BOT_API_KEY : jsstring;
  w_permission : Trace -> jsstring -> jsstring -> jsstring -> option jsstring;
  w_pull : Trace -> jsstring -> jsstring -> Z -> option PullData;
  w_createComment : Trace -> jsstring -> jsstring -> Z -> jsstring -> option Z;
  w_auth : Trace -> Z -> bool;
  w_deleteComment : Trace -> jsstring -> jsstring -> Z -> bool;
  w_fetch : Trace -> FetchRequest -> bool;
  w_queueAdd : Trace -> jsstring -> jsstring -> CleanupJob -> JobsOptions -> bool
}.

(** An [async] computation: the trace so far in, the extended trace out,
    with the returned value, or [None] when it threw. *)
Definition M (A : Type) := World -> Trace -> Trace * option A.

Definition ret {A} (a : A) : M A := fun _ t => (t, Some a).

Definition throw {A} : M A := fun _ t => (t, None).

Definition bind {A B} (m : M A) (k : A -> M B) : M B :=
  fun w t =>
    match m w t with
    | (t', Some a) => k a w t'
    | (t', None) => (t', None)
    end.

(** [try { m } catch { h }] *)
Definition try_catch {A} (m : M A) (h : M A) : M A :=
  fun w t =>
    match m w t with
    | (t', Some a) => (t', Some a)
    | (t', None) => h w t'
    end.

Declare Scope m_scope.
Delimit Scope m_scope with M.
Notation "x <- m ;; k" := (bind m (fun x => k))
  (at level 61, m at next level, right associativity) : m_scope.
Notation "m ;; k" := (bind m (fun _ => k))
  (at level 61, right associativity) : m_scope.
Local Open Scope m_scope.

Definition unit_of (ok : bool) : option unit := if ok then Some tt else None.

(** A handler run on one delivery, from the empty history. *)
Definition run {A} (w : World) (m : M A) : Trace * option A := m w [].
Definition trace_of {A} (w : World) (m : M A) : Trace := fst (run w m).

Definition log_info (msg : jsstring) : M unit :=
  fun _ t => (t ++ [ELog Info msg], Some tt).

Definition log_error (msg : jsstring) : M unit :=
  fun _ t => (t ++ [ELog Error msg], Some tt).

(** The calls of the platform client. *)
Module octokit.

Definition getCollaboratorPermissionLevel (owner repo username : jsstring)
    : M jsstring :=
  fun w t =>
    let r := w_permission w t owner repo username in
    (t ++ [EGetCollaboratorPermissionLevel owner repo username r], r).

Definition pulls_get (owner repo : jsstring) (pull_number : Z) : M PullData :=
  fun w t =>
    let r := w_pull w t owner repo pull_number in
    (t ++ [EPullsGet owner repo pull_number r], r).

Definition createComment (owner repo : jsstring) (issue_number : Z)
    (body : jsstring) : M Z :=
  fun w t =>
    let r := w_createComment w t owner repo issue_number body in
    (t ++ [ECreateComment owner repo issue_number body r], r).

Definition deleteComment (owner repo : jsstring) (comment_id : Z) : M unit :=
  fun w t =>
    let r := w_deleteComment w t owner repo comment_id in
    (t ++ [EDeleteComment owner repo comment_id r], unit_of r).

End octokit.

(** [app.auth(installationId)] *)
Definition app_auth (installationId : Z) : M unit :=
  fun w t =>
    let r := w_auth w t installationId in
    (t ++ [EAuth installationId r], unit_of r).

(** [console.log(context.payload)] *)
Definition console_log_payload (p : IssueCommentCreated) : M unit :=
  fun _ t => (t ++ [EConsolePayload p], Some tt).

(** [payload.installation!.id]: a [TypeError] when there is no installation. *)
Definition installation_id (i : option Z) : M Z :=
  match i with
  | Some id => ret id
  | None => throw
  end.

(* ===================================================================== *)
(** ** Backend API client (src/services/backend-api.ts) *)
(* ===================================================================== *)

Definition VInt (z : Z) : jsval := VNum (Num z).

Module backendAPI.

Definition headers_of (w : World) : list (jsstring * jsstring) :=
  [ (lit "Content-Type", lit "application/json");
    (lit "Authorization", lit "Bearer " ++ BOT_API_KEY w) ].

(** [fetch(url, init)] followed by [if (!response.ok) throw ...]. *)
Definition fetch_ok (call : BackendCall) (req : World -> FetchRequest) : M unit :=
  fun w t =>
    let r := w_fetch w t (req w) in
    (t ++ [EFetch call (req w) r], unit_of r).

Definition json_of_actor (a : Actor) : jsval :=
  VObj [ (lit "type", VStr (actor_type a));
         (lit "githubId", to_jsval VInt (actor_githubId a));
         (lit "username", to_jsval VStr (actor_username a)) ].

Definition json_of_classify (d : ClassifyData) : jsval :=
  VObj [ (lit "githubRepoId", VInt (cl_githubRepoId d));
         (lit "githubIssueId", VInt (cl_githubIssueId d));
         (lit "difficulty", to_jsval VNum (cl_difficulty d));
         (lit "issueType", to_jsval VStr (cl_issueType d));
         (lit "hidden", to_jsval VBool (cl_hidden d));
         (lit "actor", json_of_actor (cl_actor d)) ].

Definition json_of_feedback (d : FeedbackData) : jsval :=
  VObj [ (lit "githubPrId", VInt (fb_githubPrId d));
         (lit "githubRepoId", VInt (fb_githubRepoId d));
         (lit "difficultyRating", to_jsval VNum (fb_difficultyRating d));
         (lit "responsivenessRating", to_jsval VNum (fb_responsivenessRating d)) ].

Definition json_of_deleteIssue (d : DeleteIssueData) : jsval :=
  VObj [ (lit "githubRepoId", VInt (di_githubRepoId d));
         (lit "githubIssueId", VNum (di_githubIssueId d));
         (lit "actor", json_of_actor (di_actor d)) ].

(** POST /bot/issues/classify *)
Definition classifyIssue_request (data : ClassifyData) (w : World) : FetchRequest :=
  {| url := BACKEND_URL w ++ lit "/bot/issues/classify";
     method := lit "POST";
     headers := headers_of w;
     body := json_of_classify data |}.

Definition classifyIssue (data : ClassifyData) : M unit :=
  fetch_ok (ClassifyIssue data) (classifyIssue_request data).

(** DELETE /bot/issues *)
Definition deleteIssue_request (data : DeleteIssueData) (w : World) : FetchRequest :=
  {| url := BACKEND_URL w ++ lit "/bot/issues";
     method := lit "DELETE";
     headers := headers_of w;
     body := json_of_deleteIssue data |}.

Definition deleteIssue (data : DeleteIssueData) : M unit :=
  fetch_ok (DeleteIssue data) (deleteIssue_request data).

(** POST /bot/feedback *)
Definition submitFeedback_request (data : FeedbackData) (w : World) : FetchRequest :=
  {| url := BACKEND_URL w ++ lit "/bot/feedback";
     method := lit "POST";
     headers := headers_of w;
     body := json_of_feedback data |}.

Definition submitFeedback (data : FeedbackData) : M unit :=
  fetch_ok (SubmitFeedback data) (submitFeedback_request data).

(** POST /bot/logs: the body is built from four fields of the entry. *)
Definition writeLog_body (log : LogEntry) : jsval :=
  VObj [ (lit "action", VStr (action log));
         (lit "entityType", VStr (entityType_name (entityType log)));
         (lit "entityId", VStr (entityId log));
         (lit "context", to_jsval (fun v => v) (context log)) ].

Definition writeLog_request (log : LogEntry) (w : World) : FetchRequest :=
  {| url := BACKEND_URL w ++ lit "/bot/logs";
     method := lit "POST";
     headers := headers_of w;
     body := writeLog_body log |}.

Definition writeLog (log : LogEntry) : M unit :=
  fetch_ok (WriteLog log) (writeLog_request log).

End backendAPI.

(* ===================================================================== *)
(** ** Logger (src/services/logger.ts) *)
(* ===================================================================== *)

Module logger.

Definition logSystem (action : jsstring) (entityType : EntityType)
    (entityId : jsstring) (context : optional jsval) : M unit :=
  backendAPI.writeLog
    {| actorType := System;
       actorGithubId := Null;
       actorUsername := Null;
       action := action;
       entityType := entityType;
       entityId := entityId;
       context := context |}.

Definition logBot (action : jsstring) (entityType : EntityType)
    (entityId : jsstring) (context : optional jsval) : M unit :=
  backendAPI.writeLog
    {| actorType := Bot;
       actorGithubId := Null;
       actorUsername := Null;
       action := action;
       entityType := entityType;
       entityId := entityId;
       context := context |}.

Definition logMaintainer (githubId : Z) (username : jsstring)
    (action : jsstring) (entityType : EntityType)
    (entityId : jsstring) (context : optional jsval) : M unit :=
  backendAPI.writeLog
    {| actorType := Maintainer;
       actorGithubId := Val githubId;
       actorUsername := Val username;
       action := action;
       entityType := entityType;
       entityId := entityId;
       context := context |}.

Definition logContributor (action : jsstring) (entityType : EntityType)
    (entityId : jsstring) (context : optional jsval) : M unit :=
  backendAPI.writeLog
    {| actorType := Contributor;
       actorGithubId := Null;
       actorUsername := Null;
       action := action;
       entityType := entityType;
       entityId := entityId;
       context := context |}.

End logger.

(* ===================================================================== *)
(** ** Cleanup queue (src/queues/cleanup.ts) *)
(* ===================================================================== *)

Definition cleanupQueue_name : jsstring := lit "reposignal-cleanup".

(** [cleanupQueue.add(name, job, opts)] *)
Definition cleanupQueue_add (name : jsstring) (job : CleanupJob)
    (opts : JobsOptions) : M unit :=
  fun w t =>
    let r := w_queueAdd w t cleanupQueue_name name job opts in
    (t ++ [EQueueAdd cleanupQueue_name name job opts r], unit_of r).

Definition cleanup_options (delayMs : Z) : JobsOptions :=
  {| delay := delayMs;
     attempts := 3;
     backoff := {| backoff_type := lit "exponential"; backoff_delay := 5000 |} |}.

Definition scheduleCleanup (job : CleanupJob) (delayMs : Z) : M unit :=
  cleanupQueue_add (lit "delete-comment") job (cleanup_options delayMs).

Definition optional_number_to_string (o : optional Z) : jsstring :=
  match o with
  | Undefined => lit "undefined"
  | Null => lit "null"
  | Val z => num_to_string z
  end.

Module initCleanupWorker.

(** The processor that [initCleanupWorker] gives to its worker: one
    attempt at one job. It throws when the attempt failed. *)
Definition processor (job : CleanupJob) : M unit :=
  try_catch
    (app_auth (installationId job) ;;
     octokit.deleteComment (owner job) (repo job) (commentId job) ;;
     logger.logSystem (lit "comment_cleaned_up") Comment
       (lit "comment#" ++ num_to_string (commentId job))
       (Val (VObj [ (lit "owner", VStr (owner job));
                    (lit "repo", VStr (repo job));
                    (lit "issueNumber", to_jsval VInt (issueNumber job)) ])) ;;
     log_info (lit "Deleted comment " ++ num_to_string (commentId job)
               ++ lit " from " ++ owner job ++ lit "/" ++ repo job ++ lit "#"
               ++ optional_number_to_string (issueNumber job)))
    (log_error (lit "Failed to delete comment:") ;; throw).

End initCleanupWorker.

(* ===================================================================== *)
(** ** Maintainer commands (src/commands/maintainer.ts) *)
(* ===================================================================== *)

Definition isSome {A} (o : option A) : bool :=
  match o with Some _ => true | None => false end.

Definition hasMaintainerPermission (owner repo username : jsstring) : M bool :=
  try_catch
    (permission <- octokit.getCollaboratorPermissionLevel owner repo username ;;
     ret (array_includes [lit "write"; lit "maintain"; lit "admin"] permission))
    (ret false).

(** [/\/reposignal\s+difficulty\s+([1-5])/i] *)
Definition re_difficulty : regex :=
  seq [ re_lit "/reposignal"; RPlus is_space; re_lit "difficulty";
        RPlus is_space; RGroup 1 (RClass (in_range 49 53)) ].

Definition parseDifficultyCommand (body : jsstring) : option number :=
  match str_match re_difficulty body with
  | Some m => Some (parseInt (group 1 (m_groups m)))
  | None => None
  end.

(** [/\/reposignal\s+type\s+(docs|bug|feature|refactor|test|infra)/i] *)
Definition re_type : regex :=
  seq [ re_lit "/reposignal"; RPlus is_space; re_lit "type"; RPlus is_space;
        RGroup 1 (alt (re_lit "docs")
                    [ re_lit "bug"; re_lit "feature"; re_lit "refactor";
                      re_lit "test"; re_lit "infra" ]) ].

Definition parseTypeCommand (body : jsstring) : option IssueType :=
  match str_match re_type body with
  | Some m => Some (toLowerCase (group 1 (m_groups m)))
  | None => None
  end.

(** [/\/reposignal\s+hide/i] *)
Definition re_hide : regex :=
  seq [ re_lit "/reposignal"; RPlus is_space; re_lit "hide" ].

Definition isHideCommand (body : jsstring) : bool := test re_hide body.

Definition confirmation_mark : jsstring := [9989%N].

Definition maintainer_changes (difficulty : option number)
    (issueType : option IssueType) (shouldHide : bool) : list jsstring :=
  (match difficulty with
   | Some d => [lit "difficulty " ++ number_to_string d]
   | None => []
   end) ++
  (match issueType with
   | Some t => [lit "type " ++ t]
   | None => []
   end) ++
  (if shouldHide then [lit "hidden from discovery"] else []).

Definition handleMaintainerCommand (p : IssueCommentCreated) : M unit :=
  let comment := ic_comment p in
  let issue := ic_issue p in
  let repository := ic_repository p in
  let sender := ic_sender p in
  console_log_payload p ;;
  if negb (includes (comment_body comment) (lit "/reposignal")) then ret tt
  else
    hasPermission <- hasMaintainerPermission (repository_owner_login repository)
                       (repository_name repository) (user_login sender) ;;
    if negb hasPermission then
      log_info (lit "User " ++ user_login sender
                ++ lit " lacks maintainer permission - ignoring command")
    else
      try_catch
        (let difficulty := parseDifficultyCommand (comment_body comment) in
         let issueType := parseTypeCommand (comment_body comment) in
         let shouldHide := isHideCommand (comment_body comment) in
         let actor := {| actor_type := lit "user";
                         actor_githubId := Val (user_id sender);
                         actor_username := Val (user_login sender) |} in
         if isSome difficulty || isSome issueType || shouldHide then
           backendAPI.classifyIssue
             {| cl_githubRepoId := repository_id repository;
                cl_githubIssueId := issue_id issue;
                cl_difficulty := or_undefined difficulty;
                cl_issueType := or_undefined issueType;
                cl_hidden := if shouldHide then Val true else Undefined;
                cl_actor := actor |} ;;
           let changes := maintainer_changes difficulty issueType shouldHide in
           confirmation <- octokit.createComment
                             (repository_owner_login repository)
                             (repository_name repository)
                             (issue_number issue)
                             (confirmation_mark ++ lit " Issue updated: "
                              ++ join (lit ", ") changes) ;;
           inst <- installation_id (ic_installation p) ;;
           scheduleCleanup
             {| owner := repository_owner_login repository;
                repo := repository_name repository;
                commentId := comment_id comment;
                issueNumber := Val (issue_number issue);
                installationId := inst |} 60000 ;;
           inst' <- installation_id (ic_installation p) ;;
           scheduleCleanup
             {| owner := repository_owner_login repository;
                repo := repository_name repository;
                commentId := confirmation;
                issueNumber := Val (issue_number issue);
                installationId := inst' |} 60000 ;;
           log_info (lit "Issue #" ++ num_to_string (issue_number issue)
                     ++ lit " updated by " ++ user_login sender ++ lit ": "
                     ++ join (lit ", ") changes)
         else ret tt)
        (log_error (lit "Failed to handle maintainer command")).

(* ===================================================================== *)
(** ** Contributor feedback (src/commands/contributor.ts) *)
(* ===================================================================== *)

(** [/\/reposignal\s+rate\s+difficulty\s+([1-5])/i] *)
Definition re_rate_difficulty : regex :=
  seq [ re_lit "/reposignal"; RPlus is_space; re_lit "rate"; RPlus is_space;
        re_lit "difficulty"; RPlus is_space; RGroup 1 (RClass (in_range 49 53)) ].

Definition parseDifficultyRating (body : jsstring) : option number :=
  match str_match re_rate_difficulty body with
  | Some m => Some (parseInt (group 1 (m_groups m)))
  | None => None
  end.

(** [/\/reposignal\s+rate\s+responsiveness\s+([1-5])/i] *)
Definition re_rate_responsiveness : regex :=
  seq [ re_lit "/reposignal"; RPlus is_space; re_lit "rate"; RPlus is_space;
        re_lit "responsiveness"; RPlus is_space;
        RGroup 1 (RClass (in_range 49 53)) ].

Definition parseResponsivenessRating (body : jsstring) : option number :=
  match str_match re_rate_responsiveness body with
  | Some m => Some (parseInt (group 1 (m_groups m)))
  | None => None
  end.

(** [{ valid: boolean; prId?: number }] *)
Record FeedbackContext := { valid : bool; prId : option Z }.

Definition isValidFeedbackContext (owner repo : jsstring) (issueNumber : Z)
    (commenterId : Z) : M FeedbackContext :=
  try_catch
    (pr <- octokit.pulls_get owner repo issueNumber ;;
     if pull_merged pr &&
        match pull_user pr with
        | Some id => Z.eqb id commenterId
        | None => false
        end
     then ret {| valid := true; prId := Some (pull_id pr) |}
     else ret {| valid := false; prId := None |})
    (ret {| valid := false; prId := None |}).

(** The value of [prId] when [!valid || !prId] is false: [prId] is then a
    number other than 0. *)
Definition allowed_prId (c : FeedbackContext) : option Z :=
  match valid c, prId c with
  | true, Some id => if Z.eqb id 0 then None else Some id
  | _, _ => None
  end.

Definition handleContributorFeedback (p : IssueCommentCreated) : M unit :=
  let comment := ic_comment p in
  let issue := ic_issue p in
  let repository := ic_repository p in
  let sender := ic_sender p in
  if negb (includes (comment_body comment) (lit "/reposignal rate")) then ret tt
  else
    c <- isValidFeedbackContext (repository_owner_login repository)
           (repository_name repository) (issue_number issue) (user_id sender) ;;
    match allowed_prId c with
    | None => log_info (lit "Feedback command in invalid context - ignoring")
    | Some prId =>
      try_catch
        (let difficultyRating := parseDifficultyRating (comment_body comment) in
         let responsivenessRating :=
           parseResponsivenessRating (comment_body comment) in
         if negb (isSome difficultyRating) && negb (isSome responsivenessRating)
         then ret tt
         else
           backendAPI.submitFeedback
             {| fb_githubPrId := prId;
                fb_githubRepoId := repository_id repository;
                fb_difficultyRating := or_null difficultyRating;
                fb_responsivenessRating := or_null responsivenessRating |} ;;
           logger.logContributor (lit "feedback_received") Repo
             (lit "repo#" ++ num_to_string (repository_id repository))
             (Val (VObj
                [ (lit "difficulty_rating",
                   to_jsval VNum (or_null difficultyRating));
                  (lit "responsiveness_rating",
                   to_jsval VNum (or_null responsivenessRating)) ])) ;;
           confirmation <- octokit.createComment
                             (repository_owner_login repository)
                             (repository_name repository)
                             (issue_number issue)
                             (confirmation_mark
                              ++ lit " Thank you for your anonymous feedback!") ;;
           inst <- installation_id (ic_installation p) ;;
           scheduleCleanup
             {| owner := repository_owner_login repository;
                repo := repository_name repository;
                commentId := comment_id comment;
                issueNumber := Val (issue_number issue);
                installationId := inst |} 60000 ;;
           inst' <- installation_id (ic_installation p) ;;
           scheduleCleanup
             {| owner := repository_owner_login repository;
                repo := repository_name repository;
                commentId := confirmation;
                issueNumber := Val (issue_number issue);
                installationId := inst' |} 60000 ;;
           log_info (lit "Anonymous feedback received on PR #"
                     ++ num_to_string (issue_number issue)))
        (log_error (lit "Failed to handle contributor feedback"))
    end.

(* ===================================================================== *)
(** ** Comment events (src/events/comment.ts) *)
(* ===================================================================== *)

Module registerCommentHandlers.

(** The handler bound to [issue_comment.created]. *)
Definition issue_comment_created (p : IssueCommentCreated) : M unit :=
  let comment := ic_comment p in
  if negb (includes (comment_body comment) (lit "/reposignal")) then ret tt
  else if includes (comment_body comment) (lit "/reposignal rate") then
    handleContributorFeedback p
  else
    handleMaintainerCommand p.

End registerCommentHandlers.

(* ===================================================================== *)
(** ** Issue events (the handler of [issues.opened]) *)
(* ===================================================================== *)

Definition nl : jsstring := [10%N].

Definition issue_nudge_body : jsstring :=
  [55357; 56395]%N
  ++ lit " Thanks for opening this issue! Maintainers can classify it using:"
  ++ nl ++ nl ++ lit "`/reposignal difficulty <1-5>`"
  ++ nl ++ lit "`/reposignal type <docs|bug|feature|refactor|test|infra>`"
  ++ nl ++ nl ++ lit "Or hide it from discovery: `/reposignal hide`".

Module registerIssueHandlers.

(** The handler bound to [issues.opened]. *)
Definition issues_opened (p : IssuesOpened) : M unit :=
  let issue := io_issue p in
  let repository := io_repository p in
  try_catch
    (comment <- octokit.createComment (repository_owner_login repository)
                  (repository_name repository) (issue_number issue)
                  issue_nudge_body ;;
     logger.logBot (lit "issue_nudge_posted") Issue
       (lit "issue#" ++ num_to_string (issue_id issue))
       (Val (VObj [ (lit "issueNumber", VInt (issue_number issue)) ])) ;;
     inst <- installation_id (io_installation p) ;;
     scheduleCleanup
       {| owner := repository_owner_login repository;
          repo := repository_name repository;
          commentId := comment;
          issueNumber := Val (issue_number issue);
          installationId := inst |} 300000 ;;
     log_info (lit "Posted nudge on issue #" ++ num_to_string (issue_number issue)))
    (log_error (lit "Failed to handle issues.opened")).

End registerIssueHandlers.

(* ===================================================================== *)
(** ** Pull request events (src/events/pull-request.ts) *)
(* ===================================================================== *)

Definition feedback_nudge_body : jsstring :=
  [55356; 57225]%N
  ++ lit " Thanks for your contribution!"
  ++ nl ++ nl ++ lit "Help us improve by sharing your experience:"
  ++ nl ++ nl ++ lit "`/reposignal rate difficulty <1-5>`"
  ++ nl ++ lit "`/reposignal rate responsiveness <1-5>`"
  ++ nl ++ nl ++ lit "Your feedback is anonymous and helps future contributors.".

(** [/(close[sd]?|fix(e[sd])?|resolve[sd]?)\s+#(\d+)/gi] *)
Definition re_linked_issue : regex :=
  seq [ RGroup 1
          (alt (seq [re_lit "close"; opt (RClass (one_of_ci "sd"))])
             [ seq [re_lit "fix";
                    opt (RGroup 2 (seq [re_lit "e"; RClass (one_of_ci "sd")]))];
               seq [re_lit "resolve"; opt (RClass (one_of_ci "sd"))] ]);
        RPlus is_space; re_lit "#"; RGroup 3 (RPlus is_digit) ].

(** [/#(\d+)/] *)
Definition re_issue_ref : regex :=
  seq [ re_lit "#"; RGroup 1 (RPlus is_digit) ].

(** The body of the loop over the linked issues. *)
Definition delete_linked_issue (repository : Repository) (prNumber : Z)
    (matched : jsstring) : M unit :=
  match str_match re_issue_ref matched with
  | None => throw
  | Some m =>
      let issueNumber := parseInt (group 1 (m_groups m)) in
      backendAPI.deleteIssue
        {| di_githubRepoId := repository_id repository;
           di_githubIssueId := issueNumber;
           di_actor := {| actor_type := lit "bot";
                          actor_githubId := Undefined;
                          actor_username := Undefined |} |} ;;
      logger.logBot (lit "issue_deleted") Issue
        (lit "issue#" ++ number_to_string issueNumber)
        (Val (VObj [ (lit "reason", VStr (lit "pr_merged"));
                     (lit "prNumber", VInt prNumber);
                     (lit "repoId", VInt (repository_id repository)) ])) ;;
      log_info (lit "Deleted issue #" ++ number_to_string issueNumber
                ++ lit " after PR #" ++ num_to_string prNumber
                ++ lit " was merged")
  end.

Fixpoint for_each {A} (l : list A) (f : A -> M unit) : M unit :=
  match l with
  | [] => ret tt
  | x :: rest => f x ;; for_each rest f
  end.

(** The last block of the handler: the issues that the merged pull
    request closes are deleted from the backend. *)
Definition delete_linked_issues (p : PullRequestClosed) : M unit :=
  let pull_request := pc_pull_request p in
  let repository := pc_repository p in
  if pr_head_repo pull_request then
    try_catch
      (let linkedIssues :=
         match pr_body pull_request with
         | Some body => match_all re_linked_issue body
         | None => None
         end in
       match linkedIssues with
       | Some matches =>
           for_each matches
             (delete_linked_issue repository (pr_number pull_request))
       | None => ret tt
       end)
      (log_error (lit "Failed to delete issue after PR merge"))
  else ret tt.

Module registerPullRequestHandlers.

(** The handler bound to [pull_request.closed]. *)
Definition pull_request_closed (p : PullRequestClosed) : M unit :=
  let pull_request := pc_pull_request p in
  let repository := pc_repository p in
  if negb (pr_merged pull_request) then ret tt
  else
    try_catch
      (comment <- octokit.createComment (repository_owner_login repository)
                    (repository_name repository) (pr_number pull_request)
                    feedback_nudge_body ;;
       logger.logBot (lit "feedback_prompted") Repo
         (lit "repo#" ++ num_to_string (repository_id repository))
         (Val (VObj [ (lit "prNumber", VInt (pr_number pull_request)) ])) ;;
       inst <- installation_id (pc_installation p) ;;
       scheduleCleanup
         {| owner := repository_owner_login repository;
            repo := repository_name repository;
            commentId := comment;
            issueNumber := Val (pr_number pull_request);
            installationId := inst |} 3600000 ;;
       log_info (lit "Posted feedback nudge on PR #"
                 ++ num_to_string (pr_number pull_request)) ;;
       delete_linked_issues p)
      (log_error (lit "Failed to handle pull_request.closed")).

End registerPullRequestHandlers.

(* ===================================================================== *)
(** ** Sample runs *)
(* ===================================================================== *)

Module Samples.

(** A world in which every external call succeeds: the sender has
    [write] permission, the thread is a merged pull request of user 7
    with identifier 9001, and new comments get the identifier 555. *)
Definition happy : World :=
  {| BACKEND_URL := lit "http://localhost:5000";
     BOT_API_KEY := lit "key";
     w_permission := fun _ _ _ _ => Some (lit "write");
     w_pull := fun _ _ _ _ =>
       Some {| pull_id := 9001; pull_merged := true; pull_user := Some 7%Z |};
     w_createComment := fun _ _ _ _ _ => Some 555%Z;
     w_auth := fun _ _ => true;
     w_deleteComment := fun _ _ _ _ => true;
     w_fetch := fun _ _ => true;
     w_queueAdd := fun _ _ _ _ _ => true |}.

Definition payload (body : string) : IssueCommentCreated :=
  {| ic_comment := {| comment_id := 100; comment_body := lit body |};
     ic_issue := {| issue_id := 4000; issue_number := 12 |};
     ic_repository := {| repository_id := 31; repository_name := lit "app";
                         repository_owner_login := lit "acme" |};
     ic_sender := {| user_id := 7; user_login := lit "octocat" |};
     ic_installation := Some 77%Z |}.

Definition job_of (commentId : Z) : CleanupJob :=
  {| owner := lit "acme"; repo := lit "app"; commentId := commentId;
     issueNumber := Val 12%Z; installationId := 77 |}.

Definition opened : IssuesOpened :=
  {| io_issue := {| issue_id := 4000; issue_number := 12 |};
     io_repository := ic_repository (payload "");
     io_installation := Some 77%Z |}.

Definition closed : PullRequestClosed :=
  {| pc_pull_request := {| pr_merged := true; pr_number := 12;
                           pr_body := Some (lit "Fixes #3");
                           pr_head_repo := true |};
     pc_repository := ic_repository (payload "");
     pc_installation := Some 77%Z |}.

(** The world [happy], except that the backend answers no request. *)
Definition backend_down : World :=
  {| BACKEND_URL := BACKEND_URL happy;
     BOT_API_KEY := BOT_API_KEY happy;
     w_permission := w_permission happy;
     w_pull := w_pull happy;
     w_createComment := w_createComment happy;
     w_auth := w_auth happy;
     w_deleteComment := w_deleteComment happy;
     w_fetch := fun _ _ => false;
     w_queueAdd := w_queueAdd happy |}.

(** The world [happy], except that the sender only has [read] permission. *)
Definition read_only : World :=
  {| BACKEND_URL := BACKEND_URL happy;
     BOT_API_KEY := BOT_API_KEY happy;
     w_permission := fun _ _ _ _ => Some (lit "read");
     w_pull := w_pull happy;
     w_createComment := w_createComment happy;
     w_auth := w_auth happy;
     w_deleteComment := w_deleteComment happy;
     w_fetch := w_fetch happy;
     w_queueAdd := w_queueAdd happy |}.

(** The world [happy], except that the pull request is of user 8. *)
Definition other_author : World :=
  {| BACKEND_URL := BACKEND_URL happy;
     BOT_API_KEY := BOT_API_KEY happy;
     w_permission := w_permission happy;
     w_pull := fun _ _ _ _ =>
       Some {| pull_id := 9001; pull_merged := true; pull_user := Some 8%Z |};
     w_createComment := w_createComment happy;
     w_auth := w_auth happy;
     w_deleteComment := w_deleteComment happy;
     w_fetch := w_fetch happy;
     w_queueAdd := w_queueAdd happy |}.

(** An entry that [logMaintainer] would build. *)
Definition maintainer_entry : LogEntry :=
  {| actorType := Maintainer;
     actorGithubId := Val 123%Z;
     actorUsername := Val (lit "Akshay");
     action := lit "issue_difficulty_set";
     entityType := Issue;
     entityId := lit "issue#123";
     context := Val (VObj [ (lit "difficulty", VNum (Num 5)) ]) |}.

(** The world [happy], except that the platform refuses every deletion. *)
Definition deletion_refused : World :=
  {| BACKEND_URL := BACKEND_URL happy;
     BOT_API_KEY := BOT_API_KEY happy;
     w_permission := w_permission happy;
     w_pull := w_pull happy;
     w_createComment := w_createComment happy;
     w_auth := w_auth happy;
     w_deleteComment := fun _ _ _ _ => false;
     w_fetch := w_fetch happy;
     w_queueAdd := w_queueAdd happy |}.

(** The world [happy], except that GitHub refuses every new comment. *)
Definition comment_refused : World :=
  {| BACKEND_URL := BACKEND_URL happy;
     BOT_API_KEY := BOT_API_KEY happy;
     w_permission := w_permission happy;
     w_pull := w_pull happy;
     w_createComment := fun _ _ _ _ _ => None;
     w_auth := w_auth happy;
     w_deleteComment := w_deleteComment happy;
     w_fetch := w_fetch happy;
     w_queueAdd := w_queueAdd happy |}.

End Samples.

(* ===================================================================== *)
(** ** Cleanup worker: attempts, backoff and give-up *)
(* ===================================================================== *)

(** The states of a job: [Pending -> Running -> {Completed | Retrying ->
    Running | Failed}]. [Running n] is the n-th attempt; [Retrying n d]
    waits [d] milliseconds after the n-th attempt failed. *)
Inductive JobState :=
| Pending
| Running (attempt : Z)
| Retrying (attemptsMade : Z) (wait : Z)
| Completed
| Failed.

(** Modelled from the spec: the retry policy of the worker pool. The
    sources only hand the options [attempts] and [backoff] to the queue
    library, whose code is not part of them; the policy below is the one of
    section 4.5: after a failed attempt the job is retried while its
    attempt count is below [attempts], after a backoff of the base delay
    doubled per attempt made, and fails for good once the count has reached
    [attempts]. *)
Definition backoff_wait (opts : JobsOptions) (attemptsMade : Z) : Z :=
  (backoff_delay (backoff opts) * 2 ^ (attemptsMade - 1))%Z.

(** Modelled from the spec: what the worker pool does with a job whose
    attempt number [attemptsMade] failed (section 4.5; the queue library is
    not part of the sources). *)
Definition after_failure (opts : JobsOptions) (attemptsMade : Z) : JobState :=
  if (attemptsMade <? attempts opts)%Z
  then Retrying attemptsMade (backoff_wait opts attemptsMade)
  else Failed.

(** Modelled from the spec: one transition of the state machine of a job
    (section 4.5; the queue library is not part of the sources); [None] in
    a terminal state. An attempt runs the processor of the sources and
    fails when the processor throws. The listeners that [initCleanupWorker]
    puts on [completed] and [failed] only print and are left out. *)
Definition worker_step (job : CleanupJob) (opts : JobsOptions)
    (st : JobState) : M (option JobState) :=
  match st with
  | Pending => ret (Some (Running 1))
  | Running n =>
      try_catch
        (initCleanupWorker.processor job ;; ret (Some Completed))
        (ret (Some (after_failure opts n)))
  | Retrying n _ => ret (Some (Running (n + 1)))
  | Completed => ret None
  | Failed => ret None
  end.

(** The states a job enters from [st], for at most [fuel] transitions. *)
Fixpoint worker_run (fuel : nat) (job : CleanupJob) (opts : JobsOptions)
    (st : JobState) : M (list JobState) :=
  match fuel with
  | O => ret []
  | S fuel' =>
      next <- worker_step job opts st ;;
      match next with
      | None => ret []
      | Some st' =>
          rest <- worker_run fuel' job opts st' ;;
          ret (st' :: rest)
      end
  end.

(** The life of a job added by [scheduleCleanup job delayMs]. *)
Definition job_history (fuel : nat) (w : World) (job : CleanupJob)
    (delayMs : Z) : list JobState :=
  match snd (run w (worker_run fuel job (cleanup_options delayMs) Pending)) with
  | Some h => h
  | None => []
  end.

Definition attempts_of (h : list JobState) : list Z :=
  flat_map (fun st => match st with Running n => [n] | _ => [] end) h.

Definition backoffs_of (h : list JobState) : list Z :=
  flat_map (fun st => match st with Retrying _ d => [d] | _ => [] end) h.

Definition deletion_always_fails (w : World) : Prop :=
  forall t o r c, w_deleteComment w t o r c = false.


(* ===================================================================== *)
(** ** Observations on traces *)
(* ===================================================================== *)

(** The external state-mutating call of a command: the classification of
    an issue or the submission of feedback. *)
Definition is_mutating (e : Event) : bool :=
  match e with
  | EFetch (ClassifyIssue _) _ _ => true
  | EFetch (SubmitFeedback _) _ _ => true
  | _ => false
  end.

Definition is_post (e : Event) : bool :=
  match e with
  | ECreateComment _ _ _ _ _ => true
  | _ => false
  end.

Definition is_schedule (e : Event) : bool :=
  match e with
  | EQueueAdd _ _ _ _ _ => true
  | _ => false
  end.

(** What the [catch] blocks of the handlers log. *)
Definition is_failure (e : Event) : bool :=
  match e with
  | ELog Error _ => true
  | _ => false
  end.

(** The external call of the event threw. *)
Definition threw (e : Event) : bool :=
  match e with
  | EGetCollaboratorPermissionLevel _ _ _ r => negb (isSome r)
  | EPullsGet _ _ _ r => negb (isSome r)
  | ECreateComment _ _ _ _ r => negb (isSome r)
  | EAuth _ ok => negb ok
  | EDeleteComment _ _ _ ok => negb ok
  | EFetch _ _ ok => negb ok
  | EQueueAdd _ _ _ _ ok => negb ok
  | EConsolePayload _ => false
  | ELog _ _ => false
  end.

(** The log entries handed to [backendAPI.writeLog]. *)
Definition logged (t : Trace) : list LogEntry :=
  flat_map (fun e => match e with
                     | EFetch (WriteLog log) _ _ => [log]
                     | _ => []
                     end) t.

(** The backend accepted the command of the run: the mutating call was
    made and it returned. *)
Definition mutation_accepted (t : Trace) : bool :=
  existsb (fun e => is_mutating e && negb (threw e)) t.

(** A write to the log of the backend. *)
Definition is_log_write (e : Event) : bool :=
  match e with
  | EFetch (WriteLog _) _ _ => true
  | _ => false
  end.


Definition is_permission_lookup (e : Event) : bool :=
  match e with
  | EGetCollaboratorPermissionLevel _ _ _ _ => true
  | _ => false
  end.

Definition is_pull_fetch (e : Event) : bool :=
  match e with
  | EPullsGet _ _ _ _ => true
  | _ => false
  end.



(** Neither a comment post nor a queue add. *)
Definition quiet (e : Event) : bool := negb (is_post e) && negb (is_schedule e).

(* ===================================================================== *)
(** ** Deliveries and what their runs show *)
(* ===================================================================== *)

(** The texts a pattern matches, with the groups before and after:
    [derives r txt caps caps'] when [r] can consume exactly [txt]. *)
Fixpoint derives (r : regex) (txt : jsstring) (caps caps' : captures) : Prop :=
  match r with
  | REmpty => txt = [] /\ caps' = caps
  | RClass p => exists c, txt = [c] /\ p c = true /\ caps' = caps
  | RPlus p => txt <> [] /\ forallb p txt = true /\ caps' = caps
  | RSeq r1 r2 =>
      exists t1 t2 caps1,
        txt = t1 ++ t2 /\ derives r1 t1 caps caps1 /\ derives r2 t2 caps1 caps'
  | RAlt r1 r2 => derives r1 txt caps caps' \/ derives r2 txt caps caps'
  | RGroup i r1 => exists caps1, derives r1 txt caps caps1 /\ caps' = (i, txt) :: caps1
  end.

(** The issue types, [IssueType] of src/types/index.ts. *)
Definition issue_types : list jsstring :=
  [lit "docs"; lit "bug"; lit "feature"; lit "refactor"; lit "test"; lit "infra"].

(** A non-empty run of decimal digits. *)
Definition is_number_text (ds : jsstring) : Prop :=
  ds <> [] /\ forallb is_digit ds = true.

(** A line of the process log. *)
Definition is_log (e : Event) : bool :=
  match e with
  | ELog _ _ | EConsolePayload _ => true
  | _ => false
  end.

(** After an external call that threw, only lines of the process log
    follow. *)
Fixpoint fail_stop (t : Trace) : bool :=
  match t with
  | [] => true
  | e :: t' => (if threw e then forallb is_log t' else true) && fail_stop t'
  end.

(** The request that the backend client builds for a call. *)
Definition request_of (call : BackendCall) (w : World) : FetchRequest :=
  match call with
  | ClassifyIssue data => backendAPI.classifyIssue_request data w
  | SubmitFeedback data => backendAPI.submitFeedback_request data w
  | DeleteIssue data => backendAPI.deleteIssue_request data w
  | WriteLog log => backendAPI.writeLog_request log w
  end.

(** The events of the block that deletes the linked issues of the pull
    request [p]: a deletion request for the double of an issue number, the
    bot log entry of a deletion, and lines of the process log. *)
Definition linked_issue_event (p : PullRequestClosed) (w : World) (e : Event)
    : Prop :=
  (exists z ok,
     (0 <= z)%Z
     /\ e = EFetch
              (DeleteIssue
                 {| di_githubRepoId := repository_id (pc_repository p);
                    di_githubIssueId := to_double z;
                    di_actor := {| actor_type := lit "bot";
                                   actor_githubId := Undefined;
                                   actor_username := Undefined |} |})
              (backendAPI.deleteIssue_request
                 {| di_githubRepoId := repository_id (pc_repository p);
                    di_githubIssueId := to_double z;
                    di_actor := {| actor_type := lit "bot";
                                   actor_githubId := Undefined;
                                   actor_username := Undefined |} |} w)
              ok)
  \/ (exists log ok,
        e = EFetch (WriteLog log) (backendAPI.writeLog_request log w) ok
        /\ actorType log = Bot
        /\ actorGithubId log = Null
        /\ actorUsername log = Null
        /\ action log = lit "issue_deleted")
  \/ (exists msg, e = ELog Info msg)
  \/ e = ELog Error (lit "Failed to delete issue after PR merge").

(** A delivery of one of the three events whose handlers are embedded
    (the installation events are not). *)
Inductive Delivery :=
| IssueCommentCreatedEvent (p : IssueCommentCreated)
| IssuesOpenedEvent (p : IssuesOpened)
| PullRequestClosedEvent (p : PullRequestClosed).

(** The handler that the app bound to the event of the delivery. *)
Definition deliver (d : Delivery) : M unit :=
  match d with
  | IssueCommentCreatedEvent p => registerCommentHandlers.issue_comment_created p
  | IssuesOpenedEvent p => registerIssueHandlers.issues_opened p
  | PullRequestClosedEvent p => registerPullRequestHandlers.pull_request_closed p
  end.

Definition delivery_repository (d : Delivery) : Repository :=
  match d with
  | IssueCommentCreatedEvent p => ic_repository p
  | IssuesOpenedEvent p => io_repository p
  | PullRequestClosedEvent p => pc_repository p
  end.

Definition delivery_installation (d : Delivery) : option Z :=
  match d with
  | IssueCommentCreatedEvent p => ic_installation p
  | IssuesOpenedEvent p => io_installation p
  | PullRequestClosedEvent p => pc_installation p
  end.

(** The number of the issue or pull request of the delivery. *)
Definition delivery_thread (d : Delivery) : Z :=
  match d with
  | IssueCommentCreatedEvent p => issue_number (ic_issue p)
  | IssuesOpenedEvent p => issue_number (io_issue p)
  | PullRequestClosedEvent p => pr_number (pc_pull_request p)
  end.

Definition is_classification (e : Event) : bool :=
  match e with
  | EFetch (ClassifyIssue _) _ _ => true
  | _ => false
  end.

Definition is_feedback (e : Event) : bool :=
  match e with
  | EFetch (SubmitFeedback _) _ _ => true
  | _ => false
  end.

(** The items of a confirmation, read off a classification request. *)
Definition changes_sent (data : ClassifyData) : list jsstring :=
  (match cl_difficulty data with
   | Val d => [lit "difficulty " ++ number_to_string d]
   | _ => []
   end) ++
  (match cl_issueType data with
   | Val t => [lit "type " ++ t]
   | _ => []
   end) ++
  (match cl_hidden data with
   | Val true => [lit "hidden from discovery"]
   | _ => []
   end).

Definition is_deletion (e : Event) : bool :=
  match e with
  | EDeleteComment _ _ _ _ => true
  | _ => false
  end.

(** The entry that the processor logs for the job it completed. *)
Definition cleaned_up_entry (job : CleanupJob) : LogEntry :=
  {| actorType := System;
     actorGithubId := Null;
     actorUsername := Null;
     action := lit "comment_cleaned_up";
     entityType := Comment;
     entityId := lit "comment#" ++ num_to_string (commentId job);
     context := Val (VObj [ (lit "owner", VStr (owner job));
                            (lit "repo", VStr (repo job));
                            (lit "issueNumber",
                             to_jsval VInt (issueNumber job)) ]) |}.

(** [parseInt(match.match(/#(\d+)/)![1])] of the loop over the linked
    issues; a text without a reference, on which the source throws, is
    given [NaN] here (a match of the pattern of linked issues has one). *)
Definition issue_number_of (matched : jsstring) : number :=
  match str_match re_issue_ref matched with
  | Some m => parseInt (group 1 (m_groups m))
  | None => NaN
  end.

(** What the loop over the linked issues reads from the body of a pull
    request: the numbers of the matches of the pattern, in order. *)
Definition linked_issue_numbers (body : option jsstring) : list number :=
  match body with
  | Some b =>
      match match_all re_linked_issue b with
      | Some matches => map issue_number_of matches
      | None => []
      end
  | None => []
  end.

(** The issue ids of the deletion requests of a run, in order. *)
Definition deleted_ids (t : Trace) : list number :=
  flat_map (fun e => match e with
                     | EFetch (DeleteIssue d) _ _ => [di_githubIssueId d]
                     | _ => []
                     end) t.

(** The words of the pattern of linked issues:
    [close[sd]?|fix(e[sd])?|resolve[sd]?]. *)
Definition closing_keywords : list jsstring :=
  [lit "close"; lit "closes"; lit "closed";
   lit "fix"; lit "fixes"; lit "fixed";
   lit "resolve"; lit "resolves"; lit "resolved"].

(** The text [body] refers to the issue whose number has the digits [ds]:
    somewhere it holds one of the closing keywords in any letter case
    (also as the end of a longer word), then white space, then [#] and
    the digits [ds], and no further digit. *)
Definition closing_reference (body ds : jsstring) : Prop :=
  exists pre kw ws post,
    body = pre ++ kw ++ ws ++ 35%N :: ds ++ post
    /\ In (toLowerCase kw) closing_keywords
    /\ ws <> [] /\ forallb is_space ws = true
    /\ ds <> [] /\ forallb is_digit ds = true
    /\ starts_with_digit post = false.

(* ===================================================================== *)
(** ** Repository metadata (src/events/installation.ts) *)
(* ===================================================================== *)

(** The canonical values of the backend (src/services/backend-api.ts). *)
Record CanonicalLanguage := {
  lang_id : Z;
  lang_matchingName : jsstring;
  lang_displayName : jsstring
}.

Record CanonicalFramework := {
  fw_id : Z;
  fw_matchingName : jsstring;
  fw_displayName : jsstring;
  fw_category : jsstring
}.

Record CanonicalDomain := {
  dom_id : Z;
  dom_matchingName : jsstring;
  dom_displayName : jsstring
}.

(** What [addRepositoryWithMetadata] reads of the answer of [repos.get];
    the description may be [null] and [topics] may be absent. *)
Record RepoData := {
  rd_description : option jsstring;
  rd_stargazers_count : Z;
  rd_forks_count : Z;
  rd_open_issues_count : Z;
  rd_topics : option (list jsstring)
}.

Record LanguageEntry := { le_matchingName : jsstring; le_bytes : Z }.

Record FrameworkEntry := { fe_matchingName : jsstring; fe_source : jsstring }.

(** The argument of [backendAPI.updateRepositoryMetadata]. *)
Record MetadataData := {
  md_githubRepoId : Z;
  md_languages : optional (list LanguageEntry);
  md_frameworks : optional (list FrameworkEntry);
  md_domains : optional (list jsstring);
  md_tags : optional (list jsstring);
  md_starsCount : Z;
  md_forksCount : Z;
  md_openIssuesCount : Z;
  md_actor : Actor
}.

(** [arr.filter(x => x !== null)] on the result of a [map] to [T | null] *)
Fixpoint non_null {A} (l : list (option A)) : list A :=
  match l with
  | [] => []
  | Some a :: rest => a :: non_null rest
  | None :: rest => non_null rest
  end.

(** [arr.length > 0 ? arr : undefined] *)
Definition if_non_empty {A} (arr : list A) : optional (list A) :=
  if (0 <? length arr)%nat then Val arr else Undefined.

(** The topics read from a repository, [repoData.topics || []]. *)
Definition topics_of (repoData : RepoData) : list jsstring :=
  match rd_topics repoData with Some t => t | None => [] end.

Module installation.

Section Matching.

(** [String.prototype.toLowerCase], applied here to arbitrary text: the
    mapping is left open. *)
Variable toLowerCase : jsstring -> jsstring.

(** [str.toLowerCase().replace(/\s+/g, '')]: every run of white space is
    deleted, so exactly the white-space code units go. *)
Definition normalizeForMatching (str : jsstring) : jsstring :=
  filter (fun u => negb (is_space u)) (toLowerCase str).

(** [languagesData] is [Object.entries] of the answer of
    [repos.listLanguages]. *)
Definition languagesFromAPI (languagesData : list (jsstring * Z))
    (allLanguages : list CanonicalLanguage) : list LanguageEntry :=
  non_null
    (map (fun entry : jsstring * Z =>
            let (lang, bytes) := entry in
            let normalized := normalizeForMatching lang in
            match find (fun l => str_eqb (lang_matchingName l) normalized)
                    allLanguages with
            | Some canonical =>
                Some {| le_matchingName := lang_matchingName canonical;
                        le_bytes := bytes |}
            | None => None
            end)
       languagesData).

Definition languagesFromTopics (topics : list jsstring)
    (allLanguages : list CanonicalLanguage)
    (fromAPI : list LanguageEntry) : list LanguageEntry :=
  non_null
    (map (fun topic =>
            let normalized := normalizeForMatching topic in
            match find (fun l => str_eqb (lang_matchingName l) normalized)
                    allLanguages with
            | Some canonical =>
                match find (fun l => str_eqb (le_matchingName l)
                                       (lang_matchingName canonical))
                        fromAPI with
                | None =>
                    Some {| le_matchingName := lang_matchingName canonical;
                            le_bytes := 0 |}
                | Some _ => None
                end
            | None => None
            end)
       topics).

Definition frameworks_of (topics : list jsstring)
    (allFrameworks : list CanonicalFramework) : list FrameworkEntry :=
  non_null
    (map (fun topic =>
            let normalized := normalizeForMatching topic in
            match find (fun f => str_eqb (fw_matchingName f) normalized)
                    allFrameworks with
            | Some canonical =>
                Some {| fe_matchingName := fw_matchingName canonical;
                        fe_source := lit "inferred" |}
            | None => None
            end)
       topics).

Definition domains_of (topics : list jsstring)
    (allDomains : list CanonicalDomain) : list jsstring :=
  non_null
    (map (fun topic =>
            let normalized := normalizeForMatching topic in
            match find (fun d => str_eqb (dom_matchingName d) normalized)
                    allDomains with
            | Some canonical => Some (dom_matchingName canonical)
            | None => None
            end)
       topics).

(** The metadata part of [addRepositoryWithMetadata]: from the answers of
    GitHub and of the [/meta] endpoints to the argument of
    [backendAPI.updateRepositoryMetadata]; [None] when the update is
    skipped ("No metadata to update"). *)
Definition metadata_update (repo_id : Z) (repoData : RepoData)
    (languagesData : list (jsstring * Z))
    (allLanguages : list CanonicalLanguage)
    (allFrameworks : list CanonicalFramework)
    (allDomains : list CanonicalDomain) : option MetadataData :=
  let fromAPI := languagesFromAPI languagesData allLanguages in
  let topics := topics_of repoData in
  let fromTopics := languagesFromTopics topics allLanguages fromAPI in
  let languages := fromAPI ++ fromTopics in
  let frameworks := frameworks_of topics allFrameworks in
  let domains := domains_of topics allDomains in
  if (0 <? length languages)%nat || (0 <? length frameworks)%nat
     || (0 <? length domains)%nat || (0 <? length topics)%nat
  then
    Some {| md_githubRepoId := repo_id;
            md_languages := if_non_empty languages;
            md_frameworks := if_non_empty frameworks;
            md_domains := if_non_empty domains;
            md_tags := if_non_empty topics;
            md_starsCount := rd_stargazers_count repoData;
            md_forksCount := rd_forks_count repoData;
            md_openIssuesCount := rd_open_issues_count repoData;
            md_actor := {| actor_type := lit "system";
                           actor_githubId := Undefined;
                           actor_username := Undefined |} |}
  else None.

End Matching.

End installation.

(** [name] is the text [str] without its white space, in lower case. *)
Definition normal_form_of (toLowerCase : jsstring -> jsstring)
    (name str : jsstring) : Prop :=
  name = installation.normalizeForMatching toLowerCase str.

(* ===================================================================== *)
(** ** The calls of [addRepositoryWithMetadata] (src/events/installation.ts) *)
(* ===================================================================== *)

(** A repository of the payload of an installation event. *)
Record InstallationRepo := {
  ir_id : Z;
  ir_full_name : jsstring;
  ir_name : jsstring
}.

(** The argument of [backendAPI.addRepository]. *)
Record AddRepositoryData := {
  ar_installationId : Z;
  ar_githubRepoId : Z;
  ar_owner : optional jsstring;
  ar_name : optional jsstring;
  ar_reposignalDescription : optional jsstring;
  ar_state : jsstring;
  ar_starsCount : Z;
  ar_forksCount : Z;
  ar_openIssuesCount : Z
}.

(** [s.split(sep)] for a separator of one code unit. *)
Fixpoint split (sep : N) (s : jsstring) : list jsstring :=
  match s with
  | [] => [[]]
  | c :: s' =>
      if N.eqb c sep then [] :: split sep s'
      else match split sep s' with
           | piece :: rest => (c :: piece) :: rest
           | [] => [[c]]
           end
  end.

(** [`${x}`] for [x : string | undefined] *)
Definition template_text (o : optional jsstring) : jsstring :=
  match o with
  | Val s => s
  | Undefined => lit "undefined"
  | Null => lit "null"
  end.

(** [x || undefined] for [x : string | null]: the empty string is falsy. *)
Definition truthy_or_undefined (o : option jsstring) : optional jsstring :=
  match o with
  | Some (c :: s) => Val (c :: s)
  | _ => Undefined
  end.

(** The answer of [GET /meta/frameworks]: the categories in the order of
    [for ... in], each with its array ([None] for a value that is no
    array). *)
Definition FrameworkCategories :=
  list (jsstring * option (list CanonicalFramework)).

(** The loop of [backendAPI.getFrameworks]: the arrays, one after the
    other. *)
Definition flatten_categories (data : FrameworkCategories)
    : list CanonicalFramework :=
  flat_map (fun entry => match snd entry with
                         | Some frameworks => frameworks
                         | None => []
                         end) data.

Module installation_run.

(** The awaited calls of [addRepositoryWithMetadata] with what they
    answered ([None] and [false]: the call rejected), and the lines of
    [context.log]. The [console] lines of the function, which only print
    its progress, are not traced. *)
Inductive Call :=
| ReposGet (owner repo : optional jsstring) (answer : option RepoData)
| AddRepository (data : AddRepositoryData) (ok : bool)
| ListLanguages (owner repo : optional jsstring)
    (answer : option (list (jsstring * Z)))
| GetLanguages (answer : option (list CanonicalLanguage))
| GetFrameworks (answer : option FrameworkCategories)
| GetDomains (answer : option (list CanonicalDomain))
| UpdateRepositoryMetadata (data : MetadataData) (ok : bool)
| ContextLog (lvl : Level) (msg : jsstring).

(** What GitHub and the backend answer during one run; every call of the
    function is made at most once. The languages of [listLanguages] are the
    [Object.entries] of its answer. *)
Record Answers := {
  repos_get : optional jsstring -> optional jsstring -> option RepoData;
  addRepository : AddRepositoryData -> bool;
  listLanguages :
    optional jsstring -> optional jsstring -> option (list (jsstring * Z));
  getLanguages : option (list CanonicalLanguage);
  getFrameworks : option FrameworkCategories;
  getDomains : option (list CanonicalDomain);
  updateRepositoryMetadata : MetadataData -> bool
}.

(** A computation that makes calls and returns or throws ([None]). *)
Definition Run (A : Type) := list Call -> list Call * option A.

Definition ret {A} (a : A) : Run A := fun t => (t, Some a).

Definition bind {A B} (m : Run A) (k : A -> Run B) : Run B :=
  fun t =>
    match m t with
    | (t', Some a) => k a t'
    | (t', None) => (t', None)
    end.

(** [try { m } catch { h }] *)
Definition try_catch {A} (m : Run A) (h : Run A) : Run A :=
  fun t =>
    match m t with
    | (t', Some a) => (t', Some a)
    | (t', None) => h t'
    end.

(** [await] of a call that answers [answer]. *)
Definition await {A} (call : option A -> Call) (answer : option A) : Run A :=
  fun t => (t ++ [call answer], answer).

(** [await] of a backend call that only succeeds or rejects. *)
Definition await_ok (call : bool -> Call) (ok : bool) : Run unit :=
  fun t => (t ++ [call ok], if ok then Some tt else None).

Definition context_log (lvl : Level) (msg : jsstring) : Run unit :=
  fun t => (t ++ [ContextLog lvl msg], Some tt).

(** [await Promise.all([getLanguages(), getFrameworks(), getDomains()])]:
    the three requests are sent in this order, and the whole rejects when
    one of them does. *)
Definition canonical_metadata (a : Answers)
    : Run (list CanonicalLanguage * list CanonicalFramework
           * list CanonicalDomain) :=
  fun t =>
    (t ++ [GetLanguages (getLanguages a); GetFrameworks (getFrameworks a);
           GetDomains (getDomains a)],
     match getLanguages a, getFrameworks a, getDomains a with
     | Some allLanguages, Some data, Some allDomains =>
         Some (allLanguages, flatten_categories data, allDomains)
     | _, _, _ => None
     end).

Section Run.

Variable toLowerCase : jsstring -> jsstring.

(** The argument of the call of [addRepository]. *)
Definition addRepository_data (installationId : Z) (repo : InstallationRepo)
    (owner name : optional jsstring) (repoData : RepoData)
    : AddRepositoryData :=
  {| ar_installationId := installationId;
     ar_githubRepoId := ir_id repo;
     ar_owner := owner;
     ar_name := name;
     ar_reposignalDescription := truthy_or_undefined (rd_description repoData);
     ar_state := lit "off";
     ar_starsCount := rd_stargazers_count repoData;
     ar_forksCount := rd_forks_count repoData;
     ar_openIssuesCount := rd_open_issues_count repoData |}.

Definition addRepositoryWithMetadata (a : Answers) (installationId : Z)
    (repo : InstallationRepo) : Run unit :=
  let pieces := split 47 (ir_full_name repo) in
  let owner := or_undefined (nth_error pieces 0) in
  let name := or_undefined (nth_error pieces 1) in
  try_catch
    (bind (await (ReposGet owner name) (repos_get a owner name))
       (fun repoData =>
     let data := addRepository_data installationId repo owner name repoData in
     bind (await_ok (AddRepository data) (addRepository a data)) (fun _ =>
     bind (await (ListLanguages owner name) (listLanguages a owner name))
       (fun languagesData =>
     bind (canonical_metadata a) (fun all =>
     let '(allLanguages, allFrameworks, allDomains) := all in
     bind (match installation.metadata_update toLowerCase (ir_id repo)
                   repoData languagesData allLanguages allFrameworks
                   allDomains with
           | Some update =>
               await_ok (UpdateRepositoryMetadata update)
                 (updateRepositoryMetadata a update)
           | None => ret tt
           end) (fun _ =>
     context_log Info
       (lit "Repository " ++ template_text owner ++ lit "/"
        ++ template_text name ++ lit " added with metadata")))))))
    (context_log Error
       (lit "Failed to add repository " ++ template_text owner ++ lit "/"
        ++ template_text name ++ lit " with metadata")).

(** The calls of one run. *)
Definition calls (a : Answers) (installationId : Z) (repo : InstallationRepo)
    : list Call :=
  fst (addRepositoryWithMetadata a installationId repo []).

(** Every call that the function awaits before the update of the metadata
    returns: these are the answers. *)
Definition answers_arrive (a : Answers) (installationId : Z)
    (repo : InstallationRepo) (repoData : RepoData)
    (languagesData : list (jsstring * Z))
    (allLanguages : list CanonicalLanguage) (data : FrameworkCategories)
    (allDomains : list CanonicalDomain) : Prop :=
  let pieces := split 47 (ir_full_name repo) in
  let owner := or_undefined (nth_error pieces 0) in
  let name := or_undefined (nth_error pieces 1) in
  repos_get a owner name = Some repoData
  /\ addRepository a
       (addRepository_data installationId repo owner name repoData) = true
  /\ listLanguages a owner name = Some languagesData
  /\ getLanguages a = Some allLanguages
  /\ getFrameworks a = Some data
  /\ getDomains a = Some allDomains.

End Run.

End installation_run.

(** Sample deliveries and the calls they lead to in the world
    [Samples.happy]. *)
Module Deliveries.

Definition opened : Delivery := IssuesOpenedEvent Samples.opened.

Definition closed : Delivery := PullRequestClosedEvent Samples.closed.

Definition sender : Actor :=
  {| actor_type := lit "user";
     actor_githubId := Val 7%Z;
     actor_username := Val (lit "octocat") |}.

Definition bot : Actor :=
  {| actor_type := lit "bot";
     actor_githubId := Undefined;
     actor_username := Undefined |}.

Definition hidden : ClassifyData :=
  {| cl_githubRepoId := 31;
     cl_githubIssueId := 4000;
     cl_difficulty := Undefined;
     cl_issueType := Undefined;
     cl_hidden := Val true;
     cl_actor := sender |}.

Definition rated : FeedbackData :=
  {| fb_githubPrId := 9001;
     fb_githubRepoId := 31;
     fb_difficultyRating := Val (Num 4);
     fb_responsivenessRating := Null |}.

Definition issue_3 : DeleteIssueData :=
  {| di_githubRepoId := 31;
     di_githubIssueId := Num 3;
     di_actor := bot |}.

(** The answers of GitHub and of the [/meta] endpoints for a repository
    in TypeScript and shell with three topics. *)
Definition repoData : RepoData :=
  {| rd_description := Some (lit "An app");
     rd_stargazers_count := 10;
     rd_forks_count := 2;
     rd_open_issues_count := 1;
     rd_topics := Some [lit "react"; lit "fintech"; lit "typescript"] |}.

Definition languagesData : list (jsstring * Z) :=
  [(lit "TypeScript", 1200%Z); (lit "Shell", 30%Z)].

Definition allLanguages : list CanonicalLanguage :=
  [ {| lang_id := 1; lang_matchingName := lit "typescript";
       lang_displayName := lit "TypeScript" |};
    {| lang_id := 2; lang_matchingName := lit "python";
       lang_displayName := lit "Python" |} ].

Definition allFrameworks : list CanonicalFramework :=
  [ {| fw_id := 1; fw_matchingName := lit "react";
       fw_displayName := lit "React"; fw_category := lit "frontend" |} ].

Definition allDomains : list CanonicalDomain :=
  [ {| dom_id := 1; dom_matchingName := lit "fintech";
       dom_displayName := lit "Fintech" |} ].

Definition update : option MetadataData :=
  installation.metadata_update toLowerCase 31 repoData languagesData
    allLanguages allFrameworks allDomains.

(** The repository of the payload, and a run in which GitHub and the
    backend answer every call. *)
Definition repo : InstallationRepo :=
  {| ir_id := 31; ir_full_name := lit "acme/app"; ir_name := lit "app" |}.

Definition categories : FrameworkCategories :=
  [(lit "frontend", Some allFrameworks)].

Definition answers : installation_run.Answers :=
  {| installation_run.repos_get := fun _ _ => Some repoData;
     installation_run.addRepository := fun _ => true;
     installation_run.listLanguages := fun _ _ => Some languagesData;
     installation_run.getLanguages := Some allLanguages;
     installation_run.getFrameworks := Some categories;
     installation_run.getDomains := Some allDomains;
     installation_run.updateRepositoryMetadata := fun _ => true |}.

(** The same, except that [GET /meta/domains] fails. *)
Definition answers_without_domains : installation_run.Answers :=
  {| installation_run.repos_get := fun _ _ => Some repoData;
     installation_run.addRepository := fun _ => true;
     installation_run.listLanguages := fun _ _ => Some languagesData;
     installation_run.getLanguages := Some allLanguages;
     installation_run.getFrameworks := Some categories;
     installation_run.getDomains := None;
     installation_run.updateRepositoryMetadata := fun _ => true |}.

End Deliveries.

(* ===================================================================== *)
(** * Properties *)
(* ===================================================================== *)

Import registerCommentHandlers registerIssueHandlers registerPullRequestHandlers.

(** ** Sample evaluations *)

Example includes_ex :
  includes (lit "please /reposignal hide") (lit "/reposignal") = true.
Proof. reflexivity. Qed.

Example num_to_string_ex : num_to_string 1203 = lit "1203".
Proof. reflexivity. Qed.

Example parseInt_ex : parseInt (lit " 42abc") = Num 42 /\ parseInt (lit "x") = NaN.
Proof. split; reflexivity. Qed.

(** Integers above [2^53] are rounded to the nearest double, and beyond the
    range of doubles to the infinity. *)
Example rounding :
  to_double 9007199254740993 = Num 9007199254740992
  /\ to_double 9007199254740995 = Num 9007199254740996
  /\ to_double (10 ^ 309) = Infinity false
  /\ to_double (2 ^ 1024 - 2 ^ 970) = Infinity false
  /\ to_double (2 ^ 1024 - 2 ^ 970 - 1) = Num (2 ^ 1024 - 2 ^ 971)
  /\ to_double 0 = Num 0
  /\ to_double (-7) = Num (-7)
  /\ parseInt (lit "9007199254740993") = Num 9007199254740992.
Proof. repeat split; vm_compute; reflexivity. Qed.

(** [String(n)] of such numbers. *)
Example printing :
  number_to_string (Num 12) = lit "12"
  /\ number_to_string (Num (2 ^ 53)) = lit "9007199254740992"
  /\ number_to_string (Num (2 ^ 63)) = lit "9223372036854776000"
  /\ number_to_string (Num (2 ^ 64)) = lit "18446744073709552000"
  /\ number_to_string (Num (2 ^ 70)) = lit "1.1805916207174113e+21"
  /\ number_to_string (to_double (10 ^ 21)) = lit "1e+21"
  /\ number_to_string (to_double (10 ^ 23)) = lit "1e+23"
  /\ number_to_string (Num (2 ^ 100)) = lit "1.2676506002282294e+30"
  /\ number_to_string (Num (2 ^ 1024 - 2 ^ 971)) = lit "1.7976931348623157e+308"
  /\ number_to_string (to_double 123456789012345678901) = lit "123456789012345680000".
Proof. repeat split; vm_compute; reflexivity. Qed.

Example parse_samples :
  parseDifficultyCommand (lit "/reposignal difficulty 3") = Some (Num 3)
  /\ parseDifficultyCommand (lit "/RepoSignal   Difficulty 5 please") = Some (Num 5)
  /\ parseDifficultyCommand (lit "/reposignal difficulty 6") = None
  /\ parseDifficultyCommand (lit "/reposignal difficulty") = None
  /\ parseTypeCommand (lit "x /reposignal type BUG") = Some (lit "bug")
  /\ parseTypeCommand (lit "/reposignal type chore") = None
  /\ isHideCommand (lit "/reposignal hide") = true
  /\ parseDifficultyRating (lit "/reposignal rate difficulty 4") = Some (Num 4)
  /\ parseResponsivenessRating (lit "/reposignal rate difficulty 4") = None
  /\ match_all re_linked_issue (lit "Fixes #12, closes   #7 and resolved #x")
     = Some [lit "Fixes #12"; lit "closes   #7"].
Proof. repeat split; reflexivity. Qed.

(** A maintainer with [write] permission sets difficulty and type in one
    comment: one classification call, one confirmation that lists both
    changes, two cleanup jobs at 60000 ms. *)
Example maintainer_scenario :
  let p := Samples.payload "/reposignal difficulty 3 /reposignal type bug" in
  let t := trace_of Samples.happy (issue_comment_created p) in
  map (fun e => match e with
                | EFetch (ClassifyIssue d) _ _ => Some (cl_difficulty d, cl_issueType d)
                | _ => None
                end) (filter is_mutating t)
  = [Some (Val (Num 3), Val (lit "bug"))]
  /\ filter is_post t
     = [ECreateComment (lit "acme") (lit "app") 12
          (confirmation_mark ++ lit " Issue updated: difficulty 3, type bug")
          (Some 555%Z)]
  /\ filter is_schedule t
     = [EQueueAdd (lit "reposignal-cleanup") (lit "delete-comment")
          (Samples.job_of 100) (cleanup_options 60000) true;
        EQueueAdd (lit "reposignal-cleanup") (lit "delete-comment")
          (Samples.job_of 555) (cleanup_options 60000) true].
Proof. repeat split; reflexivity. Qed.

(** ** Strings and patterns *)

Lemma str_eqb_eq (a b : jsstring) : str_eqb a b = true -> a = b.
Proof.
  revert b. induction a as [|c a IH]; intros [|d b] H; simpl in H;
    try discriminate; [reflexivity |].
  apply andb_true_iff in H. destruct H as [Hc Ha].
  apply N.eqb_eq in Hc. f_equal; auto.
Qed.

Lemma array_includes_In (arr : list jsstring) (x : jsstring) :
  array_includes arr x = true -> In x arr.
Proof.
  unfold array_includes. intros H. apply existsb_exists in H.
  destruct H as [y [Hy Heq]]. apply str_eqb_eq in Heq. now subst.
Qed.

Lemma startsWith_app (s a b : jsstring) :
  startsWith s (a ++ b) = true -> startsWith s a = true.
Proof.
  revert s. induction a as [|c a IH]; intros s H.
  - destruct s; reflexivity.
  - destruct s as [|d s]; cbn in H |- *; [discriminate |].
    apply andb_true_iff in H. destruct H as [Hc Hs].
    rewrite Hc. cbn. now apply IH.
Qed.

Lemma includes_app (s a b : jsstring) :
  includes s (a ++ b) = true -> includes s a = true.
Proof.
  induction s as [|d s IH]; intros H; cbn [includes] in H |- *;
    apply orb_true_iff in H; apply orb_true_iff.
  - destruct H as [H | H]; [left; now apply startsWith_app with b | discriminate].
  - destruct H as [H | H]; [left; now apply startsWith_app with b | right; auto].
Qed.

Lemma rate_is_a_command (s : jsstring) :
  includes s (lit "/reposignal rate") = true ->
  includes s (lit "/reposignal") = true.
Proof.
  change (lit "/reposignal rate") with (lit "/reposignal" ++ lit " rate").
  apply includes_app.
Qed.

Lemma plus_k_sound {R} (p : N -> bool) (s : jsstring)
    (k : jsstring -> option R) (x : R) :
  plus_k p s k = Some x -> exists s', k s' = Some x.
Proof.
  induction s as [|c s IH]; cbn [plus_k]; [discriminate |].
  destruct (p c); [| discriminate].
  destruct (plus_k p s k) as [y|] eqn:Hp.
  - intros [= ->]. now apply IH.
  - intros H. now exists s.
Qed.

Lemma exec_k_sound {R} (r : regex) :
  forall (s : jsstring) (caps : captures)
         (k : jsstring -> captures -> option R) (x : R),
    exec_k r s caps k = Some x ->
    exists s' caps', k s' caps' = Some x /\ matches r s caps s' caps'.
Proof.
  induction r as [|p|p|r1 IH1 r2 IH2|r1 IH1 r2 IH2|i r1 IH1];
    intros s caps k x H; cbn [exec_k] in H; cbn [matches].
  - exists s, caps. auto.
  - destruct s as [|c s]; [discriminate |].
    destruct (p c) eqn:Hp; [| discriminate]. exists s, caps. eauto.
  - apply plus_k_sound in H. destruct H as [s' H]. exists s', caps. auto.
  - apply IH1 in H. destruct H as (s1 & caps1 & H & M1).
    apply IH2 in H. destruct H as (s' & caps' & H & M2). eauto 8.
  - destruct (exec_k r1 s caps k) as [y|] eqn:H1.
    + injection H as ->. apply IH1 in H1.
      destruct H1 as (s' & caps' & H & M). eauto.
    + apply IH2 in H. destruct H as (s' & caps' & H & M). eauto.
  - apply IH1 in H. destruct H as (s' & caps1 & H & M). eauto 6.
Qed.

Lemma no_groups_keeps (r : regex) :
  no_groups r = true ->
  forall s caps s' caps', matches r s caps s' caps' -> caps' = caps.
Proof.
  induction r as [|p|p|r1 IH1 r2 IH2|r1 IH1 r2 IH2|i r1 IH1];
    cbn [no_groups matches]; intros Hn s caps s' caps' M.
  - tauto.
  - destruct M as (c & _ & _ & M). exact M.
  - exact M.
  - apply andb_true_iff in Hn. destruct Hn as [H1 H2].
    destruct M as (s1 & caps1 & M1 & M2).
    apply (IH1 H1) in M1. apply (IH2 H2) in M2. congruence.
  - apply andb_true_iff in Hn. destruct Hn as [H1 H2].
    destruct M as [M | M]; [apply (IH1 H1) in M | apply (IH2 H2) in M]; exact M.
  - discriminate.
Qed.

Lemma str_match_sound (r : regex) (s : jsstring) (m : MatchResult) :
  str_match r s = Some m ->
  exists s0, matches r s0 [] (m_rest m) (m_groups m).
Proof.
  induction s as [|c s IH]; cbn [str_match]; intros H.
  - destruct (exec_at r []) as [m'|] eqn:He; [| discriminate].
    injection H as ->. unfold exec_at in He. apply exec_k_sound in He.
    destruct He as (s' & caps' & [= <-] & M). now exists [].
  - destruct (exec_at r (c :: s)) as [m'|] eqn:He.
    + injection H as ->. unfold exec_at in He. apply exec_k_sound in He.
      destruct He as (s' & caps' & [= <-] & M). now exists (c :: s).
    + now apply IH.
Qed.

Lemma consumed_one (c : N) (s : jsstring) : consumed (c :: s) s = [c].
Proof.
  unfold consumed. cbn [length].
  replace (S (length s) - length s)%nat with 1%nat by lia. reflexivity.
Qed.

Lemma parseInt_digit_1_5 (c : N) :
  in_range 49 53 c = true ->
  exists d, parseInt [c] = Num d /\ (1 <= d <= 5)%Z.
Proof.
  unfold in_range. intros H. apply andb_true_iff in H. destruct H as [Hlo Hhi].
  apply N.leb_le in Hlo, Hhi.
  assert (Hc : c = 49%N \/ c = 50%N \/ c = 51%N \/ c = 52%N \/ c = 53%N) by lia.
  destruct Hc as [-> | [-> | [-> | [-> | ->]]]];
    [exists 1%Z | exists 2%Z | exists 3%Z | exists 4%Z | exists 5%Z];
    (split; [reflexivity | lia]).
Qed.

(** A pattern that ends in the group [([1-5])] after items without
    groups captures one digit from 1 to 5. *)
Lemma digit_group_last (pre : list regex) :
  forallb no_groups pre = true ->
  forall s caps s' caps',
    matches (seq (pre ++ [RGroup 1 (RClass (in_range 49 53))])) s caps s' caps' ->
    exists c, in_range 49 53 c = true /\ caps' = (1%nat, [c]) :: caps.
Proof.
  induction pre as [|a pre IH]; intros Hpre s caps s' caps' M.
  - cbn [app seq fold_right matches] in M.
    destruct M as (s2 & caps2 & (caps3 & (c & Hs & Hc & Hk) & Hcaps) & Hrest & Hend).
    subst. rewrite consumed_one. eauto.
  - cbn [forallb] in Hpre. apply andb_true_iff in Hpre. destruct Hpre as [Ha Hpre].
    change (seq ((a :: pre) ++ [RGroup 1 (RClass (in_range 49 53))]))
      with (RSeq a (seq (pre ++ [RGroup 1 (RClass (in_range 49 53))]))) in M.
    cbn [matches] in M. destruct M as (s1 & caps1 & Ma & M).
    apply (no_groups_keeps a Ha) in Ma. subst caps1.
    now apply (IH Hpre s1 caps s' caps').
Qed.

Lemma digit_pattern_parses_in_range (pre : list regex) (body : jsstring)
    (m : MatchResult) :
  forallb no_groups pre = true ->
  str_match (seq (pre ++ [RGroup 1 (RClass (in_range 49 53))])) body = Some m ->
  exists d, parseInt (group 1 (m_groups m)) = Num d /\ (1 <= d <= 5)%Z.
Proof.
  intros Hpre H. apply str_match_sound in H. destruct H as [s0 M].
  apply (digit_group_last pre Hpre) in M. destruct M as (c & Hc & ->).
  cbn [group Nat.eqb]. now apply parseInt_digit_1_5.
Qed.

(** Whatever the three numeric parsers return is an integer from 1 to 5:
    the digit that the pattern matched. *)
Lemma parsed_number_in_range (body : jsstring) (n : number) :
  parseDifficultyCommand body = Some n
  \/ parseDifficultyRating body = Some n
  \/ parseResponsivenessRating body = Some n ->
  exists d, n = Num d /\ (1 <= d <= 5)%Z.
Proof.
  unfold parseDifficultyCommand, parseDifficultyRating, parseResponsivenessRating.
  intros [H | [H | H]].
  - destruct (str_match re_difficulty body) as [m|] eqn:Hm; [| discriminate].
    injection H as <-.
    apply (@digit_pattern_parses_in_range
             [re_lit "/reposignal"; RPlus is_space; re_lit "difficulty";
              RPlus is_space] body m); [reflexivity | exact Hm].
  - destruct (str_match re_rate_difficulty body) as [m|] eqn:Hm; [| discriminate].
    injection H as <-.
    apply (@digit_pattern_parses_in_range
             [re_lit "/reposignal"; RPlus is_space; re_lit "rate";
              RPlus is_space; re_lit "difficulty"; RPlus is_space] body m);
      [reflexivity | exact Hm].
  - destruct (str_match re_rate_responsiveness body) as [m|] eqn:Hm;
      [| discriminate].
    injection H as <-.
    apply (@digit_pattern_parses_in_range
             [re_lit "/reposignal"; RPlus is_space; re_lit "rate";
              RPlus is_space; re_lit "responsiveness"; RPlus is_space] body m);
      [reflexivity | exact Hm].
Qed.

(** C6. The pattern of the difficulty command has no boundary after its
    digit: on a comment whose argument is 12 it matches the leading 1 and
    the parser yields the difficulty 1 (the same for the difficulty
    rating), where the claim expects no command at all. An argument that
    starts with a digit outside 1..5 is no match. *)
Theorem difficulty_12_is_read_as_1 :
  parseDifficultyCommand (lit "/reposignal difficulty 12") = Some (Num 1)
  /\ parseDifficultyRating (lit "/reposignal rate difficulty 12") = Some (Num 1)
  /\ parseResponsivenessRating (lit "/reposignal rate responsiveness 60") = None.
Proof. repeat split; reflexivity. Qed.

(** ** Audit log *)

(** C7. The request that [writeLog] sends for an entry carries the
    action, the entity reference and the context of the entry, and nothing
    else: neither the actor role nor the actor identity of the entry is in
    the body. *)
Theorem writeLog_request_omits_the_actor (w : World) (log : LogEntry) :
  let sent := body (backendAPI.writeLog_request log w) in
  prop (lit "actorType") sent = None
  /\ prop (lit "actorGithubId") sent = None
  /\ prop (lit "actorUsername") sent = None
  /\ sent = VObj [ (lit "action", VStr (action log));
                   (lit "entityType", VStr (entityType_name (entityType log)));
                   (lit "entityId", VStr (entityId log));
                   (lit "context", to_jsval (fun v => v) (context log)) ]
  /\ trace_of w (backendAPI.writeLog log)
     = [EFetch (WriteLog log) (backendAPI.writeLog_request log w)
          (w_fetch w [] (backendAPI.writeLog_request log w))].
Proof. repeat split; reflexivity. Qed.

(** ** Cleanup worker *)

Lemma processor_throws (w : World) (job : CleanupJob) (t : Trace) :
  deletion_always_fails w ->
  snd (initCleanupWorker.processor job w t) = None.
Proof.
  intros Hfail. unfold initCleanupWorker.processor, try_catch, bind, app_auth.
  destruct (w_auth w t (installationId job)); simpl.
  - unfold octokit.deleteComment. rewrite Hfail. reflexivity.
  - reflexivity.
Qed.

Lemma failed_attempt (w : World) (job : CleanupJob) (opts : JobsOptions)
    (n : Z) (t : Trace) :
  deletion_always_fails w ->
  exists t', worker_step job opts (Running n) w t
             = (t', Some (Some (after_failure opts n))).
Proof.
  intros Hfail. unfold worker_step, try_catch, bind.
  pose proof (processor_throws job t Hfail) as Hp.
  destruct (initCleanupWorker.processor job w t) as [t' [u|]]; simpl in *.
  - discriminate.
  - eexists. reflexivity.
Qed.

Lemma worker_run_S (fuel : nat) (job : CleanupJob) (opts : JobsOptions)
    (st : JobState) (w : World) (t : Trace) :
  worker_run (S fuel) job opts st w t =
  match worker_step job opts st w t with
  | (t', Some (Some st')) =>
      match worker_run fuel job opts st' w t' with
      | (t'', Some rest) => (t'', Some (st' :: rest))
      | (t'', None) => (t'', None)
      end
  | (t', Some None) => (t', Some [])
  | (t', None) => (t', None)
  end.
Proof.
  cbn [worker_run]. unfold bind.
  destruct (worker_step job opts st w t) as [t' [[st'|]|]]; reflexivity.
Qed.

Lemma worker_run_failing (w : World) (job : CleanupJob) (delayMs : Z)
    (fuel : nat) (t : Trace) :
  deletion_always_fails w ->
  snd (worker_run (6 + fuel) job (cleanup_options delayMs) Pending w t)
  = Some [Running 1; Retrying 1 5000; Running 2; Retrying 2 10000;
          Running 3; Failed].
Proof.
  intros Hfail.
  pose proof (fun n t0 =>
    @failed_attempt w job (cleanup_options delayMs) n t0 Hfail) as Hstep.
  change (6 + fuel)%nat with (S (S (S (S (S (S fuel)))))).
  rewrite worker_run_S. cbn [worker_step ret].
  rewrite worker_run_S. destruct (Hstep 1%Z t) as [t1 ->].
  change (after_failure (cleanup_options delayMs) 1) with (Retrying 1 5000).
  rewrite worker_run_S. cbn [worker_step ret].
  rewrite worker_run_S. destruct (Hstep (1 + 1)%Z t1) as [t2 ->].
  change (after_failure (cleanup_options delayMs) (1 + 1))
    with (Retrying 2 10000).
  rewrite worker_run_S. cbn [worker_step ret].
  rewrite worker_run_S. destruct (Hstep (2 + 1)%Z t2) as [t3 ->].
  change (after_failure (cleanup_options delayMs) (2 + 1)) with Failed.
  destruct fuel; reflexivity.
Qed.

Lemma deletion_refused_always_fails :
  deletion_always_fails Samples.deletion_refused.
Proof. intros t o r c. reflexivity. Qed.

(** A job whose deletion succeeds at the first attempt is completed. *)
Example job_completes_at_first_attempt :
  job_history 10 Samples.happy (Samples.job_of 100) 60000 = [Running 1; Completed].
Proof. reflexivity. Qed.

(** C2, as amended. A job added by [scheduleCleanup] whose deletion always
    fails is attempted exactly three times, waits 5000 ms after the first
    failure and 10000 ms after the second, and is [Failed] after the third:
    whatever the number of further transitions allowed, there is no fourth
    attempt and no third backoff. *)
Theorem failing_job_gives_up_after_three_attempts
    (w : World) (job : CleanupJob) (delayMs : Z) (fuel : nat) :
  deletion_always_fails w ->
  let h := job_history (6 + fuel) w job delayMs in
  h = [Running 1; Retrying 1 5000; Running 2; Retrying 2 10000;
       Running 3; Failed]
  /\ attempts_of h = [1; 2; 3]%Z
  /\ backoffs_of h = [5000; 10000]%Z
  /\ last h Pending = Failed.
Proof.
  intros Hfail h.
  assert (Hh : h = [Running 1; Retrying 1 5000; Running 2; Retrying 2 10000;
                    Running 3; Failed]).
  { unfold h, job_history, run.
    now rewrite (worker_run_failing job delayMs fuel [] Hfail). }
  rewrite Hh. repeat split.
Qed.

Lemma failing_job_gives_up_after_three_attempts_witness :
  deletion_always_fails Samples.deletion_refused
  /\ backoffs_of (job_history 6 Samples.deletion_refused (Samples.job_of 100) 60000)
     = [5000; 10000]%Z.
Proof.
  assert (H : deletion_always_fails Samples.deletion_refused)
    by (intros t o r c; reflexivity).
  split; [exact H |].
  exact (proj1 (proj2 (proj2
    (@failing_job_gives_up_after_three_attempts
       Samples.deletion_refused (Samples.job_of 100) 60000 0 H)))).
Defined.

(** C2, as stated, fails: between the three attempts of a job whose
    deletion always fails there are two waits, and no wait of 20000 ms. *)
Lemma failing_job_has_no_third_backoff :
  ~ (exists fuel,
       backoffs_of (job_history fuel Samples.deletion_refused
                      (Samples.job_of 100) 60000)
       = [5000; 10000; 20000]%Z).
Proof.
  intros [fuel H].
  do 6 (destruct fuel as [|fuel]; [vm_compute in H; discriminate |]).
  change (S (S (S (S (S (S fuel)))))) with (6 + fuel)%nat in H.
  unfold job_history, run in H.
  rewrite (worker_run_failing (Samples.job_of 100) 60000 fuel []
             deletion_refused_always_fails) in H.
  discriminate.
Qed.

(** ** Runs of the handlers, case by case *)

(** Unfolds a handler down to the answers of the world. *)
Ltac unfold_run :=
  cbv beta iota zeta delta
    [trace_of run bind try_catch ret throw log_info log_error unit_of
     console_log_payload installation_id app_auth isSome
     handleMaintainerCommand hasMaintainerPermission
     handleContributorFeedback isValidFeedbackContext allowed_prId
     issue_comment_created issues_opened pull_request_closed
     octokit.getCollaboratorPermissionLevel octokit.pulls_get
     octokit.createComment octokit.deleteComment
     backendAPI.classifyIssue backendAPI.submitFeedback backendAPI.deleteIssue
     backendAPI.writeLog backendAPI.fetch_ok
     logger.logSystem logger.logBot logger.logMaintainer logger.logContributor
     scheduleCleanup cleanupQueue_add valid prId negb];
  cbn [app fst snd].

(** Splits on every answer and every test the run depends on. *)
Ltac split_run :=
  repeat (match goal with
          | |- context [match ?x with _ => _ end] =>
              lazymatch x with
              | context [match _ with _ => _ end] => fail
              | _ => destruct x eqn:?
              end
          end; cbn [app fst snd negb orb andb]).

(** Proves a property of the trace [h] of a handler on each of its runs. *)
Ltac on_each_run h :=
  pattern h;
  match goal with
  | |- ?P _ =>
      let Q := fresh "Q" in
      set (Q := P); unfold_run; split_run; subst Q; cbv beta
  end.

Ltac split_In H :=
  cbn [In] in H;
  repeat match type of H with
         | _ \/ _ => destruct H as [H | H]
         | False => destruct H
         end.


(** *** The block that deletes the linked issues *)

Lemma delete_linked_issue_quiet (repository : Repository) (n : Z)
    (matched : jsstring) (w : World) (t : Trace) :
  exists ext,
    fst (delete_linked_issue repository n matched w t) = t ++ ext
    /\ forallb quiet ext = true.
Proof.
  unfold delete_linked_issue.
  destruct (str_match re_issue_ref matched) as [m|].
  - unfold_run.
    destruct (w_fetch w t _) eqn:Hd; cbn [fst].
    + destruct (w_fetch w (t ++ _) _) eqn:Hl; cbn [fst];
        rewrite <- ?app_assoc; eexists; split; reflexivity.
    + eexists; split; reflexivity.
  - exists []. cbn. now rewrite app_nil_r.
Qed.

Lemma for_each_delete_quiet (repository : Repository) (n : Z)
    (matches : list jsstring) (w : World) (t : Trace) :
  exists ext,
    fst (for_each matches (delete_linked_issue repository n) w t) = t ++ ext
    /\ forallb quiet ext = true.
Proof.
  revert t. induction matches as [|m matches IH]; intros t.
  - exists []. cbn. now rewrite app_nil_r.
  - cbn [for_each]. unfold bind.
    destruct (delete_linked_issue_quiet repository n m w t) as [e1 [H1 Q1]].
    destruct (delete_linked_issue repository n m w t) as [t1 [u|]];
      cbn [fst] in H1; subst t1.
    + destruct (IH (t ++ e1)) as [e2 [H2 Q2]].
      exists (e1 ++ e2). rewrite H2, app_assoc. split; [reflexivity |].
      rewrite forallb_app, Q1, Q2. reflexivity.
    + exists e1. split; [reflexivity | exact Q1].
Qed.

(** The block never throws, posts no comment and schedules nothing. *)
Lemma delete_linked_issues_quiet (p : PullRequestClosed) (w : World) (t : Trace) :
  exists ext,
    delete_linked_issues p w t = (t ++ ext, Some tt)
    /\ forallb quiet ext = true.
Proof.
  unfold delete_linked_issues.
  destruct (pr_head_repo (pc_pull_request p)).
  - unfold try_catch.
    destruct (match pr_body (pc_pull_request p) with
              | Some body => match_all re_linked_issue body
              | None => None
              end) as [matches|].
    + destruct (for_each_delete_quiet (pc_repository p)
                  (pr_number (pc_pull_request p)) matches w t) as [ext [H Q]].
      destruct (for_each matches _ w t) as [t1 [[]|]]; cbn [fst] in H; subst t1.
      * exists ext. split; [reflexivity | exact Q].
      * exists (ext ++ [ELog Error (lit "Failed to delete issue after PR merge")]).
        unfold log_error. rewrite app_assoc. split; [reflexivity |].
        rewrite forallb_app, Q. reflexivity.
    + exists []. unfold ret. now rewrite app_nil_r.
  - exists []. unfold ret. now rewrite app_nil_r.
Qed.

Lemma quiet_filters (ext : Trace) :
  forallb quiet ext = true ->
  filter is_post ext = [] /\ filter is_schedule ext = [].
Proof.
  induction ext as [|e ext IH]; intros H; [split; reflexivity |].
  cbn [forallb] in H. apply andb_true_iff in H. destruct H as [He Hext].
  unfold quiet in He. apply andb_true_iff in He. destruct He as [Hp Hs].
  apply negb_true_iff in Hp, Hs. cbn [filter]. rewrite Hp, Hs. auto.
Qed.

Lemma quiet_not_schedule (ext : Trace) (e : Event) :
  forallb quiet ext = true -> In e ext -> is_schedule e = false.
Proof.
  intros Q Hin. rewrite forallb_forall in Q. specialize (Q e Hin).
  unfold quiet in Q. apply andb_true_iff in Q. destruct Q as [_ Q].
  now apply negb_true_iff in Q.
Qed.

(** Replaces the run of the last block of the pull request handler by
    what is known of it. *)
Ltac use_tail :=
  match goal with
  | Heq : delete_linked_issues ?p ?w ?t = (_, _) |- _ =>
      let ext := fresh "ext" in
      let H := fresh "H" in
      let Q := fresh "Q" in
      destruct (delete_linked_issues_quiet p w t) as [ext [H Q]];
      rewrite H in Heq; inversion Heq; subst; clear Heq;
      destruct (quiet_filters ext Q) as [Qp Qs]
  end.

(** ** Maintainer policy *)

(** C4. In a run of the maintainer handler, a classification call or a
    comment post occurs only when the single permission lookup of the run
    returned, and returned one of write, maintain, admin. When the lookup
    throws, or returns another level, the run makes no classification call
    and posts nothing. *)
Theorem classification_requires_maintainer_permission
    (w : World) (p : IssueCommentCreated) (e : Event) :
  let t := trace_of w (handleMaintainerCommand p) in
  In e t ->
  is_mutating e = true \/ is_post e = true ->
  exists permission,
    filter is_permission_lookup t
    = [EGetCollaboratorPermissionLevel
         (repository_owner_login (ic_repository p))
         (repository_name (ic_repository p))
         (user_login (ic_sender p)) (Some permission)]
    /\ In permission [lit "write"; lit "maintain"; lit "admin"].
Proof.
  intros t. subst t.
  on_each_run (trace_of w (handleMaintainerCommand p)).
  all: intros Hin Hkind; split_In Hin; subst e; cbn in Hkind;
    try (destruct Hkind; discriminate).
  all: eexists; split; [reflexivity | apply array_includes_In; eassumption].
Qed.

Lemma classification_requires_maintainer_permission_witness :
  let t := trace_of Samples.happy
             (handleMaintainerCommand (Samples.payload "/reposignal hide")) in
  is_mutating (nth 2 t (ELog Info [])) = true
  /\ exists permission,
       filter is_permission_lookup t
       = [EGetCollaboratorPermissionLevel (lit "acme") (lit "app")
            (lit "octocat") (Some permission)]
       /\ In permission [lit "write"; lit "maintain"; lit "admin"].
Proof.
  intros t. split; [reflexivity |].
  apply (@classification_requires_maintainer_permission Samples.happy
           (Samples.payload "/reposignal hide") (nth 2 t (ELog Info []))).
  - vm_compute. right; right; left; reflexivity.
  - left; reflexivity.
Defined.

(** A user without permission asks to hide an issue: the lookup is the
    only external call, and nothing is posted. *)
Example non_collaborator_scenario :
  let p := Samples.payload "/reposignal hide" in
  trace_of Samples.read_only (issue_comment_created p)
  = [EConsolePayload p;
     EGetCollaboratorPermissionLevel (lit "acme") (lit "app") (lit "octocat")
       (Some (lit "read"));
     ELog Info (lit "User octocat lacks maintainer permission - ignoring command")].
Proof. reflexivity. Qed.

(** ** Contributor policy *)

(** C3. In a run of the feedback handler, a feedback submission or a
    comment post occurs only when the single fetch of the pull request of
    the thread returned, the pull request is merged and its author is
    the sender of the comment; every feedback submission of the run then
    carries the identifier [pr.id] of the fetched pull request (and so not
    the issue number of the thread, unless the two numbers coincide). *)
Theorem feedback_requires_merged_pull_request_of_the_author
    (w : World) (p : IssueCommentCreated) (e : Event) :
  let t := trace_of w (handleContributorFeedback p) in
  In e t ->
  is_mutating e = true \/ is_post e = true ->
  exists pr,
    filter is_pull_fetch t
    = [EPullsGet (repository_owner_login (ic_repository p))
         (repository_name (ic_repository p)) (issue_number (ic_issue p))
         (Some pr)]
    /\ pull_merged pr = true
    /\ pull_user pr = Some (user_id (ic_sender p))
    /\ forall data req ok,
         In (EFetch (SubmitFeedback data) req ok) t ->
         fb_githubPrId data = pull_id pr.
Proof.
  intros t. subst t.
  on_each_run (trace_of w (handleContributorFeedback p)).
  all: intros Hin Hkind; split_In Hin; subst e; cbn in Hkind;
    try (destruct Hkind; discriminate).
  all: eexists; split; [reflexivity |].
  all: repeat match goal with
         | H : _ && _ = true |- _ => apply andb_true_iff in H; destruct H
         | H : Z.eqb _ _ = true |- _ => apply Z.eqb_eq in H
         | H : Some _ = Some _ |- _ => injection H as H
         end; subst.
  all: repeat split; try assumption; try congruence.
  all: intros data req ok Hd; split_In Hd; try discriminate;
    injection Hd as <- _ _; reflexivity.
Qed.

Lemma feedback_requires_merged_pull_request_of_the_author_witness :
  let p := Samples.payload "/reposignal rate difficulty 4" in
  let t := trace_of Samples.happy (handleContributorFeedback p) in
  is_mutating (nth 1 t (ELog Info [])) = true
  /\ exists pr,
       filter is_pull_fetch t
       = [EPullsGet (lit "acme") (lit "app") 12 (Some pr)]
       /\ pull_merged pr = true
       /\ pull_user pr = Some 7%Z
       /\ forall data req ok,
            In (EFetch (SubmitFeedback data) req ok) t ->
            fb_githubPrId data = pull_id pr.
Proof.
  intros p t. split; [reflexivity |].
  apply (@feedback_requires_merged_pull_request_of_the_author Samples.happy
           p (nth 1 t (ELog Info []))).
  - vm_compute. right; left; reflexivity.
  - left; reflexivity.
Defined.

(** The author of a merged pull request rates its difficulty: one
    feedback call with the identifier of the pull request, the rating 4 and
    no responsiveness rating, and one log entry of the contributor role. *)
Example feedback_scenario :
  let p := Samples.payload "/reposignal rate difficulty 4" in
  let t := trace_of Samples.happy (issue_comment_created p) in
  map (fun e => match e with
                | EFetch (SubmitFeedback d) _ _ => Some d
                | _ => None
                end) (filter is_mutating t)
  = [Some {| fb_githubPrId := 9001; fb_githubRepoId := 31;
             fb_difficultyRating := Val (Num 4);
             fb_responsivenessRating := Null |}]
  /\ map (fun l => (actorType l, actorGithubId l, actorUsername l)) (logged t)
     = [(Contributor, Null, Null)].
Proof. split; reflexivity. Qed.

(** ** Dispatch *)

(** After the mutating call returned, the handler catches no failure
    exactly when no external call of the run threw and the payload names
    the installation. *)
Lemma no_failure_iff_all_returned
    (w : World) (p : IssueCommentCreated)
    (handler : IssueCommentCreated -> M unit) :
  In handler [handleMaintainerCommand; handleContributorFeedback] ->
  let t := trace_of w (handler p) in
  mutation_accepted t = true ->
  (existsb is_failure t = false <->
   existsb threw t = false /\ ic_installation p <> None).
Proof.
  intros Hh t. subst t. unfold mutation_accepted.
  split_In Hh; subst handler.
  - on_each_run (trace_of w (handleMaintainerCommand p)).
    all: cbn; intros Hm; try discriminate.
    all: split; [intros Hf | intros [Ht Hi]];
      try discriminate; try congruence; repeat split; congruence.
  - on_each_run (trace_of w (handleContributorFeedback p)).
    all: cbn; intros Hm; try discriminate.
    all: split; [intros Hf | intros [Ht Hi]];
      try discriminate; try congruence; repeat split; congruence.
Qed.

(** C1, as stated, fails: GitHub refuses the new comment. The backend
    accepts the classification (the feedback) of the command, the post of
    the confirmation throws, and the run leaves no confirmation and adds no
    job to the cleanup queue. *)
Lemma accepted_dispatch_without_confirmation :
  let tm := trace_of Samples.comment_refused
              (handleMaintainerCommand (Samples.payload "/reposignal hide")) in
  let tc := trace_of Samples.comment_refused
              (handleContributorFeedback
                 (Samples.payload "/reposignal rate difficulty 4")) in
  (mutation_accepted tm = true
   /\ filter is_post tm
      = [ECreateComment (lit "acme") (lit "app") 12
           (confirmation_mark ++ lit " Issue updated: hidden from discovery")
           None]
   /\ filter is_schedule tm = [])
  /\ (mutation_accepted tc = true
      /\ filter is_post tc
         = [ECreateComment (lit "acme") (lit "app") 12
              (confirmation_mark ++ lit " Thank you for your anonymous feedback!")
              None]
      /\ filter is_schedule tc = []).
Proof. repeat split; reflexivity. Qed.

(** C1, as amended. In a run of either handler in which the backend
    accepted the mutating call and the handler caught no failure (every
    later call returned), the handler posted exactly one comment, the
    confirmation, and added exactly two jobs to the cleanup queue: the
    first for the comment that carried the command, the second for the
    confirmation, each with a delay of 60000 ms. *)
Theorem accepted_dispatch_confirms_and_schedules
    (w : World) (p : IssueCommentCreated)
    (handler : IssueCommentCreated -> M unit) :
  In handler [handleMaintainerCommand; handleContributorFeedback] ->
  let t := trace_of w (handler p) in
  mutation_accepted t = true ->
  existsb is_failure t = false ->
  exists text confirmation job1 job2 opts1 opts2,
    filter is_post t
    = [ECreateComment (repository_owner_login (ic_repository p))
         (repository_name (ic_repository p)) (issue_number (ic_issue p))
         text (Some confirmation)]
    /\ filter is_schedule t
       = [EQueueAdd cleanupQueue_name (lit "delete-comment") job1 opts1 true;
          EQueueAdd cleanupQueue_name (lit "delete-comment") job2 opts2 true]
    /\ commentId job1 = comment_id (ic_comment p)
    /\ commentId job2 = confirmation
    /\ delay opts1 = 60000%Z
    /\ delay opts2 = 60000%Z.
Proof.
  intros Hh t. subst t. unfold mutation_accepted.
  split_In Hh; subst handler.
  - on_each_run (trace_of w (handleMaintainerCommand p)).
    all: intros Hm Hf; cbn in Hm, Hf; try discriminate.
    all: do 6 eexists; repeat split.
  - on_each_run (trace_of w (handleContributorFeedback p)).
    all: intros Hm Hf; cbn in Hm, Hf; try discriminate.
    all: do 6 eexists; repeat split.
Qed.

Lemma accepted_dispatch_confirms_and_schedules_witness :
  let pm := Samples.payload "/reposignal difficulty 3" in
  let pc := Samples.payload "/reposignal rate difficulty 4" in
  let tm := trace_of Samples.happy (handleMaintainerCommand pm) in
  let tc := trace_of Samples.happy (handleContributorFeedback pc) in
  (mutation_accepted tm = true
   /\ existsb is_failure tm = false
   /\ length (filter is_post tm) = 1%nat
   /\ length (filter is_schedule tm) = 2%nat)
  /\ (mutation_accepted tc = true
      /\ existsb is_failure tc = false
      /\ length (filter is_post tc) = 1%nat
      /\ length (filter is_schedule tc) = 2%nat).
Proof.
  intros pm pc tm tc.
  assert (Am : mutation_accepted tm = true) by reflexivity.
  assert (Fm : existsb is_failure tm = false) by reflexivity.
  assert (Ac : mutation_accepted tc = true) by reflexivity.
  assert (Fc : existsb is_failure tc = false) by reflexivity.
  split.
  - split; [exact Am |]. split; [exact Fm |].
    destruct (@accepted_dispatch_confirms_and_schedules Samples.happy pm
                handleMaintainerCommand (or_introl eq_refl) Am Fm)
      as (text & confirmation & job1 & job2 & opts1 & opts2 & Hp & Hq & _).
    fold tm in Hp, Hq. rewrite Hp, Hq. split; reflexivity.
  - split; [exact Ac |]. split; [exact Fc |].
    destruct (@accepted_dispatch_confirms_and_schedules Samples.happy pc
                handleContributorFeedback (or_intror (or_introl eq_refl))
                Ac Fc)
      as (text & confirmation & job1 & job2 & opts1 & opts2 & Hp & Hq & _).
    fold tc in Hp, Hq. rewrite Hp, Hq. split; reflexivity.
Defined.



(** ** Routing of comments *)

(** C10. A comment whose body contains [/reposignal rate] is handled by
    the feedback handler and by nothing else: the maintainer handler is
    not entered (its payload dump never appears), no permission is looked
    up, no classification call is made, and the only comment the run can
    post is the thanks for the feedback. *)
Theorem rate_comment_goes_to_contributor_handler_only
    (w : World) (p : IssueCommentCreated) :
  includes (comment_body (ic_comment p)) (lit "/reposignal rate") = true ->
  let t := trace_of w (issue_comment_created p) in
  issue_comment_created p = handleContributorFeedback p
  /\ forall e,
       In e t ->
       match e with
       | EConsolePayload _ => False
       | EGetCollaboratorPermissionLevel _ _ _ _ => False
       | EFetch (ClassifyIssue _) _ _ => False
       | ECreateComment _ _ _ text _ =>
           text = confirmation_mark ++ lit " Thank you for your anonymous feedback!"
       | _ => True
       end.
Proof.
  intros Hrate t.
  assert (Heq : issue_comment_created p = handleContributorFeedback p).
  { unfold issue_comment_created.
    rewrite (rate_is_a_command _ Hrate), Hrate. reflexivity. }
  split; [exact Heq |].
  subst t. rewrite Heq. clear Heq Hrate.
  on_each_run (trace_of w (handleContributorFeedback p)).
  all: intros e Hin; split_In Hin; subst e; exact I || reflexivity.
Qed.

Lemma rate_comment_goes_to_contributor_handler_only_witness :
  let p := Samples.payload "/reposignal rate difficulty 4 /reposignal hide" in
  includes (comment_body (ic_comment p)) (lit "/reposignal rate") = true
  /\ issue_comment_created p = handleContributorFeedback p.
Proof.
  intros p.
  assert (H : includes (comment_body (ic_comment p)) (lit "/reposignal rate") = true)
    by reflexivity.
  split; [exact H |].
  exact (proj1 (@rate_comment_goes_to_contributor_handler_only Samples.happy p H)).
Defined.

(** A rate command and a hide command in one comment: the hide command
    has no effect. *)
Example rate_and_hide_scenario :
  let p := Samples.payload "/reposignal rate difficulty 4 /reposignal hide" in
  let t := trace_of Samples.happy (issue_comment_created p) in
  map (fun e => match e with
                | EFetch (SubmitFeedback _) _ _ => true
                | _ => false
                end) (filter is_mutating t) = [true].
Proof. reflexivity. Qed.

(** ** Anonymity of contributor log entries *)

(** C8. The entry that [logContributor] hands to [writeLog], whatever its
    action, entity and context, and every entry that a run of the feedback
    handler hands to [writeLog], has the contributor role and has [null] in
    both identity fields. *)
Theorem contributor_log_entries_carry_no_identity
    (w : World) (p : IssueCommentCreated)
    (action : jsstring) (entityType : EntityType) (entityId : jsstring)
    (context : optional jsval) (log : LogEntry) :
  In log (logged (trace_of w
            (logger.logContributor action entityType entityId context)))
  \/ In log (logged (trace_of w (handleContributorFeedback p))) ->
  actorType log = Contributor
  /\ actorGithubId log = Null
  /\ actorUsername log = Null.
Proof.
  intros [H | H].
  - cbn in H. split_In H. subst log. repeat split.
  - revert H.
    on_each_run (trace_of w (handleContributorFeedback p)).
    all: intros H; cbn in H; split_In H; subst log; repeat split.
Qed.

Lemma contributor_log_entries_carry_no_identity_witness :
  let p := Samples.payload "/reposignal rate responsiveness 2" in
  let t := trace_of Samples.happy (handleContributorFeedback p) in
  let log := nth 0 (logged t) Samples.maintainer_entry in
  In log (logged t)
  /\ actorType log = Contributor
  /\ actorGithubId log = Null
  /\ actorUsername log = Null.
Proof.
  intros p t log.
  assert (H : In log (logged t)) by (vm_compute; left; reflexivity).
  split; [exact H |].
  exact (@contributor_log_entries_carry_no_identity Samples.happy p
           (lit "feedback_received") Repo (lit "repo#31") Undefined log
           (or_intror H)).
Defined.

(** Another user than the author rates a merged pull request: the fetch
    of the pull request is the only external call. *)
Example other_user_scenario :
  let p := Samples.payload "/reposignal rate difficulty 4" in
  trace_of Samples.other_author (issue_comment_created p)
  = [EPullsGet (lit "acme") (lit "app") 12
       (Some {| pull_id := 9001; pull_merged := true; pull_user := Some 8%Z |});
     ELog Info (lit "Feedback command in invalid context - ignoring")].
Proof. reflexivity. Qed.

(** ** Nudges *)

(** C9. The nudge stays when the write of its log entry fails. Both
    handlers post the nudge, then write the log entry, then schedule the
    cleanup, in one [try] block: in a run whose first write to the log of
    the backend was refused, the nudge is posted and no job is added to
    the cleanup queue. *)
Theorem nudge_is_not_scheduled_when_log_write_fails
    (w : World) (pi : IssuesOpened) (pp : PullRequestClosed) :
  let ti := trace_of w (issues_opened pi) in
  let tp := trace_of w (pull_request_closed pp) in
  (forall log req,
     hd_error (filter is_log_write ti) = Some (EFetch (WriteLog log) req false) ->
     (exists cid,
        filter is_post ti
        = [ECreateComment (repository_owner_login (io_repository pi))
             (repository_name (io_repository pi)) (issue_number (io_issue pi))
             issue_nudge_body (Some cid)])
     /\ filter is_schedule ti = [])
  /\ (forall log req,
        hd_error (filter is_log_write tp)
        = Some (EFetch (WriteLog log) req false) ->
        (exists cid,
           filter is_post tp
           = [ECreateComment (repository_owner_login (pc_repository pp))
                (repository_name (pc_repository pp))
                (pr_number (pc_pull_request pp))
                feedback_nudge_body (Some cid)])
        /\ filter is_schedule tp = []).
Proof.
  intros ti tp. subst ti tp. split.
  - on_each_run (trace_of w (issues_opened pi)).
    all: intros log req H; cbn in H; try discriminate.
    all: split; [eexists; reflexivity | reflexivity].
  - on_each_run (trace_of w (pull_request_closed pp)).
    all: try use_tail.
    all: intros log req Hw; cbn [filter is_log_write hd_error] in Hw;
      try discriminate.
    all: try (injection Hw as _ _ Hw; discriminate).
    all: split; [eexists; reflexivity | reflexivity].
Qed.

Lemma nudge_is_not_scheduled_when_log_write_fails_witness :
  let ti := trace_of Samples.backend_down (issues_opened Samples.opened) in
  let tp := trace_of Samples.backend_down
              (pull_request_closed Samples.closed) in
  (filter is_post ti
   = [ECreateComment (lit "acme") (lit "app") 12 issue_nudge_body (Some 555%Z)]
   /\ filter is_schedule ti = [])
  /\ (filter is_post tp
      = [ECreateComment (lit "acme") (lit "app") 12 feedback_nudge_body
           (Some 555%Z)]
      /\ filter is_schedule tp = []).
Proof.
  intros ti tp.
  destruct (@nudge_is_not_scheduled_when_log_write_fails Samples.backend_down
              Samples.opened Samples.closed) as [Hi Hp].
  split.
  - destruct (Hi _ _ eq_refl) as [_ Hs]. split; [reflexivity | exact Hs].
  - destruct (Hp _ _ eq_refl) as [_ Hs]. split; [reflexivity | exact Hs].
Defined.

(** The nudges of the two events, in a world where every call returns. *)
Example nudge_scenarios :
  filter is_schedule (trace_of Samples.happy (issues_opened Samples.opened))
  = [EQueueAdd cleanupQueue_name (lit "delete-comment") (Samples.job_of 555)
       (cleanup_options 300000) true]
  /\ filter is_schedule
       (trace_of Samples.happy (pull_request_closed Samples.closed))
     = [EQueueAdd cleanupQueue_name (lit "delete-comment") (Samples.job_of 555)
          (cleanup_options 3600000) true]
  /\ delay (cleanup_options 300000) = 300000%Z
  /\ delay (cleanup_options 3600000) = 3600000%Z.
Proof. repeat split; reflexivity. Qed.

(* ===================================================================== *)
(** * Further properties of the handlers *)
(* ===================================================================== *)

Ltac find_in := vm_compute; repeat (first [left; reflexivity | right]).

(** ** The texts that the patterns match *)

Lemma consumed_app (txt s : jsstring) : consumed (txt ++ s) s = txt.
Proof.
  unfold consumed. rewrite length_app.
  replace (length txt + length s - length s)%nat with (length txt) by lia.
  rewrite firstn_app, firstn_all, Nat.sub_diag. cbn. apply app_nil_r.
Qed.

Lemma plus_k_derives {R} (p : N -> bool) (s : jsstring)
    (k : jsstring -> option R) (x : R) :
  plus_k p s k = Some x ->
  exists txt s', s = txt ++ s' /\ txt <> [] /\ forallb p txt = true
                 /\ k s' = Some x.
Proof.
  induction s as [|c s IH]; cbn [plus_k]; [discriminate |].
  destruct (p c) eqn:Hc; [| discriminate].
  destruct (plus_k p s k) as [y|] eqn:Hp.
  - intros [= ->]. destruct (IH eq_refl) as (txt & s' & -> & _ & Hall & Hk).
    exists (c :: txt), s'. cbn. rewrite Hc, Hall. repeat split; auto. discriminate.
  - intros H. exists [c], s. cbn. rewrite Hc. repeat split; auto. discriminate.
Qed.

Lemma exec_k_derives {R} (r : regex) :
  forall (s : jsstring) (caps : captures)
         (k : jsstring -> captures -> option R) (x : R),
    exec_k r s caps k = Some x ->
    exists txt s' caps',
      s = txt ++ s' /\ derives r txt caps caps' /\ k s' caps' = Some x.
Proof.
  induction r as [|p|p|r1 IH1 r2 IH2|r1 IH1 r2 IH2|i r1 IH1];
    intros s caps k x H; cbn [exec_k] in H; cbn [derives].
  - exists [], s, caps. auto.
  - destruct s as [|c s]; [discriminate |].
    destruct (p c) eqn:Hp; [| discriminate].
    exists [c], s, caps. repeat split; eauto.
  - apply plus_k_derives in H. destruct H as (txt & s' & -> & Hne & Hall & Hk).
    exists txt, s', caps. auto.
  - apply IH1 in H. destruct H as (t1 & s1 & caps1 & -> & D1 & H).
    apply IH2 in H. destruct H as (t2 & s2 & caps2 & -> & D2 & H).
    exists (t1 ++ t2), s2, caps2. rewrite app_assoc. repeat split; eauto 7.
  - destruct (exec_k r1 s caps k) as [y|] eqn:H1.
    + injection H as ->. apply IH1 in H1.
      destruct H1 as (txt & s' & caps' & -> & D & H). eauto 8.
    + apply IH2 in H. destruct H as (txt & s' & caps' & -> & D & H). eauto 8.
  - apply IH1 in H. destruct H as (txt & s' & caps1 & Hs & D & H).
    subst s. cbv beta in H. rewrite consumed_app in H. eauto 8.
Qed.

Lemma exec_at_derives (r : regex) (s : jsstring) (m : MatchResult) :
  exec_at r s = Some m ->
  derives r (m_full m) [] (m_groups m) /\ s = m_full m ++ m_rest m.
Proof.
  unfold exec_at. intros H. apply exec_k_derives in H.
  destruct H as (txt & s' & caps' & Hs & D & [= <-]). subst s.
  cbn [m_full m_groups m_rest]. rewrite consumed_app. auto.
Qed.

(** A match of [s.match(r)]: the matched text derives from the pattern. *)
Lemma str_match_derives (r : regex) (s : jsstring) (m : MatchResult) :
  str_match r s = Some m ->
  derives r (m_full m) [] (m_groups m)
  /\ exists pre, s = pre ++ m_full m ++ m_rest m.
Proof.
  induction s as [|c s IH]; cbn [str_match]; intros H.
  - destruct (exec_at r []) as [m'|] eqn:He; [| discriminate].
    injection H as ->. apply exec_at_derives in He. destruct He as [D Hs].
    split; [exact D | now exists []].
  - destruct (exec_at r (c :: s)) as [m'|] eqn:He.
    + injection H as ->. apply exec_at_derives in He. destruct He as [D Hs].
      split; [exact D | now exists []].
    + destruct (IH H) as [D [pre Hpre]]. split; [exact D |].
      exists (c :: pre). cbn. now rewrite Hpre.
Qed.

Lemma no_groups_derives (r : regex) :
  no_groups r = true ->
  forall txt caps caps', derives r txt caps caps' -> caps' = caps.
Proof.
  induction r as [|p|p|r1 IH1 r2 IH2|r1 IH1 r2 IH2|i r1 IH1];
    cbn [no_groups derives]; intros Hn txt caps caps' D.
  - tauto.
  - destruct D as (c & _ & _ & D). exact D.
  - tauto.
  - apply andb_true_iff in Hn. destruct Hn as [H1 H2].
    destruct D as (t1 & t2 & caps1 & _ & D1 & D2).
    apply (IH1 H1) in D1. apply (IH2 H2) in D2. congruence.
  - apply andb_true_iff in Hn. destruct Hn as [H1 H2].
    destruct D as [D | D]; [apply (IH1 H1) in D | apply (IH2 H2) in D]; exact D.
  - discriminate.
Qed.

(** The last item of a sequence, after items without groups. *)
Lemma derives_seq_last (pre : list regex) (r : regex) :
  forallb no_groups pre = true ->
  forall txt caps caps',
    derives (seq (pre ++ [r])) txt caps caps' ->
    exists t1 t2, txt = t1 ++ t2 /\ derives r t2 caps caps'.
Proof.
  induction pre as [|a pre IH]; intros Hpre txt caps caps' D.
  - cbn [app seq fold_right derives] in D.
    destruct D as (t1 & t2 & caps1 & -> & D & -> & ->).
    exists [], t1. rewrite app_nil_r. auto.
  - cbn [forallb] in Hpre. apply andb_true_iff in Hpre. destruct Hpre as [Ha Hpre].
    change (seq ((a :: pre) ++ [r])) with (RSeq a (seq (pre ++ [r]))) in D.
    cbn [derives] in D. destruct D as (t1 & t2 & caps1 & -> & Da & D).
    apply (no_groups_derives a Ha) in Da. subst caps1.
    destruct (IH Hpre t2 caps caps' D) as (u1 & u2 & -> & Dr).
    exists (t1 ++ u1), u2. rewrite app_assoc. auto.
Qed.

Lemma lower_of_ci (c u : N) :
  is_lower c = true -> ci c u = true ->
  (if is_upper u then (u + 32)%N else u) = c.
Proof.
  unfold ci, canon, is_lower, is_upper. intros Hc H.
  rewrite Hc in H. apply N.eqb_eq in H.
  apply andb_true_iff in Hc. destruct Hc as [Hc1 Hc2].
  apply N.leb_le in Hc1, Hc2.
  destruct ((97 <=? u)%N && (u <=? 122)%N) eqn:Hu.
  - apply andb_true_iff in Hu. destruct Hu as [Hu1 Hu2].
    apply N.leb_le in Hu1, Hu2.
    destruct ((65 <=? u)%N && (u <=? 90)%N) eqn:Hv.
    + apply andb_true_iff in Hv. destruct Hv as [_ Hv]. apply N.leb_le in Hv. lia.
    + lia.
  - assert (Hr : (65 <=? u)%N && (u <=? 90)%N = true).
    { apply andb_true_iff. split; apply N.leb_le; lia. }
    rewrite Hr. lia.
Qed.

(** Text matched by a literal of lower-case letters under the flag [i]
    is that literal once lowered. *)
Lemma re_lit_lowered (l : list ascii) :
  forallb is_lower (map N_of_ascii l) = true ->
  forall txt caps caps',
    derives (seq (map (fun a => RClass (ci (N_of_ascii a))) l)) txt caps caps' ->
    toLowerCase txt = map N_of_ascii l.
Proof.
  induction l as [|a l IH]; intros Hl txt caps caps' D.
  - cbn in D. destruct D as [-> _]. reflexivity.
  - cbn [map forallb] in Hl. apply andb_true_iff in Hl. destruct Hl as [Ha Hl].
    cbn [map seq fold_right derives] in D.
    destruct D as (t1 & t2 & caps1 & -> & (c & -> & Hc & ->) & D).
    cbn [app toLowerCase map]. f_equal.
    + now apply lower_of_ci.
    + exact (IH Hl t2 caps caps' D).
Qed.

(** The text that [parseTypeCommand] returns is the lower case of one of
    the six alternatives of its pattern. *)
Lemma parsed_type_is_known (body : jsstring) (t : IssueType) :
  parseTypeCommand body = Some t -> In t issue_types.
Proof.
  unfold parseTypeCommand.
  destruct (str_match re_type body) as [m|] eqn:Hm; [| discriminate].
  intros [= <-]. apply str_match_derives in Hm. destruct Hm as [D _].
  change re_type with
    (seq ([re_lit "/reposignal"; RPlus is_space; re_lit "type"; RPlus is_space]
          ++ [RGroup 1 (alt (re_lit "docs")
                          [re_lit "bug"; re_lit "feature"; re_lit "refactor";
                           re_lit "test"; re_lit "infra"])])) in D.
  apply derives_seq_last in D; [| reflexivity].
  destruct D as (t1 & t2 & _ & D). cbn [derives alt] in D.
  destruct D as (caps1 & D & ->). cbn [group Nat.eqb].
  unfold issue_types.
  destruct D as [D | [D | [D | [D | [D | D]]]]];
    apply re_lit_lowered in D; try reflexivity; rewrite D; cbn [In]; auto 7.
Qed.

(** X1. Whatever the text of a comment, a type that [parseTypeCommand]
    reads from it is one of the six issue types, written in lower case. *)
Theorem parseTypeCommand_yields_a_known_type (body : jsstring) (t : IssueType) :
  parseTypeCommand body = Some t -> In t issue_types.
Proof.
  exact (@parsed_type_is_known body t).
Qed.

Lemma parseTypeCommand_yields_a_known_type_witness :
  parseTypeCommand (lit "/reposignal type Bug") = Some (lit "bug")
  /\ In (lit "bug") issue_types.
Proof.
  assert (H : parseTypeCommand (lit "/reposignal type Bug") = Some (lit "bug"))
    by (vm_compute; reflexivity).
  split; [exact H | exact (@parseTypeCommand_yields_a_known_type _ _ H)].
Defined.

(** ** References to linked issues *)

Lemma digits_value_nonneg (ds : jsstring) (acc : Z) :
  (0 <= acc)%Z -> (0 <= digits_value acc ds)%Z.
Proof.
  revert acc. induction ds as [|c ds IH]; intros acc H; cbn [digits_value]; [exact H |].
  destruct (is_digit c); [apply IH; lia | exact H].
Qed.

Lemma digit_not_space (c : N) : is_digit c = true -> is_space c = false.
Proof.
  unfold is_digit. intros H. apply andb_true_iff in H. destruct H as [H1 H2].
  apply N.leb_le in H1, H2. unfold is_space. cbn [existsb].
  repeat match goal with
         | |- context [N.eqb c ?n] =>
             replace (N.eqb c n) with false by (symmetry; apply N.eqb_neq; lia)
         end.
  cbn. apply andb_false_iff. left. apply N.leb_gt. lia.
Qed.

Lemma parseInt_number_text (ds : jsstring) :
  is_number_text ds ->
  parseInt ds = to_double (digits_value 0 ds) /\ (0 <= digits_value 0 ds)%Z.
Proof.
  intros [Hne Hall]. split; [| apply digits_value_nonneg; lia].
  destruct ds as [|c ds]; [contradiction |].
  cbn [forallb] in Hall. apply andb_true_iff in Hall. destruct Hall as [Hc Hall].
  unfold parseInt. cbn [skip_spaces]. rewrite (digit_not_space c Hc).
  assert (Hr : (48 <= c <= 57)%N).
  { unfold is_digit in Hc. apply andb_true_iff in Hc. destruct Hc as [H1 H2].
    apply N.leb_le in H1, H2. lia. }
  destruct c as [|q]; [lia |].
  do 6 (destruct q as [q|q|]; try lia; cbn [starts_with_digit] in *;
        try (rewrite Hc; reflexivity)).
Qed.

Lemma hash_of_ci (c : N) : ci 35 c = true -> c = 35%N.
Proof.
  unfold ci, canon. change (is_lower 35) with false. cbv iota.
  unfold is_lower. intros H. apply N.eqb_eq in H.
  destruct ((97 <=? c)%N && (c <=? 122)%N) eqn:Hc; [| exact H].
  apply andb_true_iff in Hc. destruct Hc as [H1 H2]. apply N.leb_le in H1, H2. lia.
Qed.

(** What [/#(\d+)/] captures. *)
Lemma issue_ref_group (txt : jsstring) (caps : captures) :
  derives re_issue_ref txt [] caps ->
  exists ds, caps = [(1%nat, ds)] /\ is_number_text ds.
Proof.
  intros D.
  change re_issue_ref
    with (seq ([re_lit "#"] ++ [RGroup 1 (RPlus is_digit)])) in D.
  apply derives_seq_last in D; [| reflexivity].
  destruct D as (t1 & t2 & _ & caps1 & (Hne & Hall & ->) & ->).
  exists t2. split; [reflexivity | split; assumption].
Qed.

Lemma plus_k_total {R} (p : N -> bool) (c : N) (s : jsstring)
    (k : jsstring -> option R) :
  p c = true -> (forall s', k s' <> None) -> plus_k p (c :: s) k <> None.
Proof.
  intros Hc Hk. cbn [plus_k]. rewrite Hc.
  destruct (plus_k p s k); [discriminate | apply Hk].
Qed.

Lemma issue_ref_matches_here (ds rest : jsstring) :
  is_number_text ds -> exec_at re_issue_ref (35%N :: ds ++ rest) <> None.
Proof.
  intros [Hne Hall]. destruct ds as [|d ds]; [contradiction |].
  cbn [forallb] in Hall. apply andb_true_iff in Hall. destruct Hall as [Hd _].
  unfold exec_at. cbn -[plus_k consumed].
  apply plus_k_total; [exact Hd | discriminate].
Qed.

Lemma str_match_finds (r : regex) (pre s : jsstring) :
  exec_at r s <> None -> str_match r (pre ++ s) <> None.
Proof.
  intros H. induction pre as [|c pre IH]; cbn [app].
  - destruct s; cbn [str_match]; destruct (exec_at r _); congruence.
  - cbn [str_match]. destruct (exec_at r (c :: pre ++ s)); [discriminate | exact IH].
Qed.

(** A text matched by the pattern of linked issues ends in [#] and a
    number. *)
Lemma linked_issue_text (txt : jsstring) (caps caps' : captures) :
  derives re_linked_issue txt caps caps' ->
  exists pre ds, txt = pre ++ 35%N :: ds /\ is_number_text ds.
Proof.
  unfold re_linked_issue. cbn [seq fold_right derives].
  intros (t1 & r1 & c1 & -> & _ & t2 & r2 & c2 & -> & _
          & t3 & r3 & c3 & -> & D3 & t4 & r4 & c4 & -> & D4 & -> & _).
  unfold re_lit in D3.
  cbn [list_ascii_of_string map seq fold_right derives] in D3.
  destruct D3 as (u1 & u2 & c5 & -> & (h & -> & Hh & _) & -> & _).
  change (N_of_ascii "#") with 35%N in Hh. apply hash_of_ci in Hh. subst h.
  destruct D4 as (c6 & (Hne & Hall & _) & _).
  exists (t1 ++ t2), t4. rewrite !app_nil_r, <- app_assoc. cbn.
  split; [reflexivity | split; assumption].
Qed.

Lemma match_all_from_In (fuel : nat) (r : regex) (s m : jsstring) :
  In m (match_all_from fuel r s) ->
  exists s0 mr, str_match r s0 = Some mr /\ m = m_full mr.
Proof.
  revert s. induction fuel as [|fuel IH]; intros s H; [destruct H |].
  cbn [match_all_from] in H.
  destruct (str_match r s) as [mr|] eqn:Hm; [| destruct H].
  destruct H as [<- | H]; [eauto |].
  destruct (m_full mr), (m_rest mr); try destruct H; eauto.
Qed.

(** The body of the loop over the matches finds the number of every
    match: the text of the match has a reference [#n], and [n] is read as
    the double of a non-negative integer. *)
Lemma linked_issue_number (body : jsstring) (matches : list jsstring)
    (m : jsstring) :
  match_all re_linked_issue body = Some matches -> In m matches ->
  exists mr z,
    str_match re_issue_ref m = Some mr
    /\ parseInt (group 1 (m_groups mr)) = to_double z /\ (0 <= z)%Z.
Proof.
  unfold match_all. intros Hall Hin.
  assert (Hm : In m (match_all_from (S (length body)) re_linked_issue body)).
  { destruct (match_all_from (S (length body)) re_linked_issue body);
      [discriminate | injection Hall as <-; exact Hin]. }
  apply match_all_from_In in Hm. destruct Hm as (s0 & mr0 & Hs & ->).
  apply str_match_derives in Hs. destruct Hs as [D _].
  apply linked_issue_text in D. destruct D as (pre & ds & -> & Hds).
  destruct (str_match re_issue_ref (pre ++ 35%N :: ds)) as [mr|] eqn:Hr.
  - exists mr. apply str_match_derives in Hr. destruct Hr as [D _].
    apply issue_ref_group in D. destruct D as (ds' & -> & Hds').
    cbn [group Nat.eqb]. destruct (parseInt_number_text Hds') as [-> Hz]. eauto.
  - exfalso. revert Hr. apply str_match_finds.
    rewrite <- (app_nil_r ds). now apply issue_ref_matches_here.
Qed.

(** ** The runs of deliveries *)

Lemma fail_stop_clean_app (a b : Trace) :
  existsb threw a = false -> fail_stop b = true -> fail_stop (a ++ b) = true.
Proof.
  induction a as [|e a IH]; intros Ha Hb; [exact Hb |].
  cbn [existsb] in Ha. apply orb_false_iff in Ha. destruct Ha as [He Ha].
  cbn [app fail_stop]. rewrite He. cbn. now apply IH.
Qed.

Lemma fail_stop_clean (a : Trace) :
  existsb threw a = false -> fail_stop a = true.
Proof.
  intros H. rewrite <- (app_nil_r a). now apply fail_stop_clean_app.
Qed.

Lemma fail_stop_app_log (a : Trace) (lvl : Level) (msg : jsstring) :
  fail_stop a = true -> fail_stop (a ++ [ELog lvl msg]) = true.
Proof.
  induction a as [|e a IH]; intros H; [reflexivity |].
  cbn [app fail_stop] in *. apply andb_true_iff in H. destruct H as [He Ha].
  rewrite (IH Ha), andb_true_r.
  destruct (threw e); [| reflexivity].
  rewrite forallb_app, He. reflexivity.
Qed.

(** One turn of the loop, on a match that has its number. *)
Lemma delete_linked_issue_events (p : PullRequestClosed) (matched : jsstring)
    (w : World) (t : Trace) :
  (exists mr z, str_match re_issue_ref matched = Some mr
                /\ parseInt (group 1 (m_groups mr)) = to_double z /\ (0 <= z)%Z) ->
  exists ext r,
    delete_linked_issue (pc_repository p) (pr_number (pc_pull_request p))
      matched w t = (t ++ ext, r)
    /\ Forall (linked_issue_event p w) ext
    /\ (r = Some tt -> existsb threw ext = false)
    /\ (r = None -> fail_stop ext = true).
Proof.
  intros (mr & z & Hm & Hz & Hpos).
  unfold delete_linked_issue. rewrite Hm, Hz.
  unfold bind, backendAPI.deleteIssue, logger.logBot, backendAPI.writeLog,
    backendAPI.fetch_ok, log_info.
  set (d := {| di_githubRepoId := repository_id (pc_repository p);
               di_githubIssueId := to_double z; di_actor := _ |}).
  destruct (w_fetch w t (backendAPI.deleteIssue_request d w)) eqn:Hd;
    cbn [unit_of].
  - set (l := {| actorType := Bot; actorGithubId := Null; action := _ |}).
    destruct (w_fetch w _ (backendAPI.writeLog_request l w)) eqn:Hl;
      cbn [unit_of]; rewrite <- ?app_assoc; cbn [app];
      eexists; eexists; (split; [reflexivity |]).
    + split; [| split; [reflexivity | discriminate]].
      apply Forall_cons; [left; exists z, true; auto |].
      apply Forall_cons; [right; left; exists l, true; repeat split |].
      apply Forall_cons; [right; right; left; eexists; reflexivity |].
      apply Forall_nil.
    + split; [| split; [discriminate | reflexivity]].
      apply Forall_cons; [left; exists z, true; auto |].
      apply Forall_cons; [right; left; exists l, false; repeat split |].
      apply Forall_nil.
  - eexists; eexists; (split; [reflexivity |]).
    split; [| split; [discriminate | reflexivity]].
    apply Forall_cons; [left; exists z, false; auto | apply Forall_nil].
Qed.

Lemma for_each_delete_events (p : PullRequestClosed) (matches : list jsstring)
    (w : World) (t : Trace) :
  (forall m, In m matches ->
     exists mr z, str_match re_issue_ref m = Some mr
                  /\ parseInt (group 1 (m_groups mr)) = to_double z /\ (0 <= z)%Z) ->
  exists ext r,
    for_each matches
      (delete_linked_issue (pc_repository p) (pr_number (pc_pull_request p)))
      w t = (t ++ ext, r)
    /\ Forall (linked_issue_event p w) ext
    /\ (r = Some tt -> existsb threw ext = false)
    /\ (r = None -> fail_stop ext = true).
Proof.
  revert t. induction matches as [|m matches IH]; intros t Hall.
  - exists [], (Some tt). unfold for_each, ret. rewrite app_nil_r.
    split; [reflexivity |]. split; [constructor |].
    split; [reflexivity | discriminate].
  - cbn [for_each]. unfold bind.
    destruct (@delete_linked_issue_events p m w t (Hall m (or_introl eq_refl)))
      as (e1 & r1 & -> & F1 & Hok1 & Hfail1).
    destruct r1 as [[]|].
    + destruct (IH (t ++ e1) (fun m' H => Hall m' (or_intror H)))
        as (e2 & r2 & -> & F2 & Hok2 & Hfail2).
      exists (e1 ++ e2), r2. rewrite app_assoc.
      split; [reflexivity |]. split; [apply Forall_app; auto |]. split.
      * intros Hr. rewrite existsb_app, (Hok1 eq_refl), (Hok2 Hr). reflexivity.
      * intros Hr. apply fail_stop_clean_app; auto.
    + exists e1, None. split; [reflexivity |]. split; [exact F1 |].
      split; [discriminate | exact Hfail1].
Qed.

(** The block never throws; its events are those of [linked_issue_event],
    among them no comment post and no queue add; and it stops at the
    first call that throws. *)
Lemma delete_linked_issues_events (p : PullRequestClosed) (w : World)
    (t : Trace) :
  exists ext,
    delete_linked_issues p w t = (t ++ ext, Some tt)
    /\ Forall (linked_issue_event p w) ext
    /\ fail_stop ext = true.
Proof.
  unfold delete_linked_issues.
  destruct (pr_head_repo (pc_pull_request p)).
  2:{ exists []. unfold ret. rewrite app_nil_r.
      split; [reflexivity |]. split; [constructor | reflexivity]. }
  unfold try_catch.
  destruct (pr_body (pc_pull_request p)) as [body|].
  2:{ exists []. unfold ret. rewrite app_nil_r.
      split; [reflexivity |]. split; [constructor | reflexivity]. }
  destruct (match_all re_linked_issue body) as [matches|] eqn:Hm.
  2:{ exists []. unfold ret. rewrite app_nil_r.
      split; [reflexivity |]. split; [constructor | reflexivity]. }
  destruct (@for_each_delete_events p matches w t
              (fun m H => @linked_issue_number body matches m Hm H))
    as (ext & r & -> & F & Hok & Hfail).
  destruct r as [[]|].
  - exists ext. split; [reflexivity |]. split; [exact F |].
    apply fail_stop_clean. auto.
  - exists (ext ++ [ELog Error (lit "Failed to delete issue after PR merge")]).
    unfold log_error. rewrite app_assoc. split; [reflexivity |]. split.
    + apply Forall_app. split; [exact F |].
      apply Forall_cons; [| apply Forall_nil].
      right; right; right. reflexivity.
    + apply fail_stop_app_log. auto.
Qed.

Lemma filter_none {A} (f : A -> bool) (l : list A) :
  Forall (fun x => f x = false) l -> filter f l = [].
Proof.
  induction 1 as [|x l Hx _ IH]; [reflexivity |].
  cbn [filter]. now rewrite Hx.
Qed.

Lemma linked_issue_event_kind (p : PullRequestClosed) (w : World) (e : Event) :
  linked_issue_event p w e ->
  is_post e = false /\ is_schedule e = false /\ is_mutating e = false
  /\ is_permission_lookup e = false /\ is_pull_fetch e = false.
Proof.
  intros [(z & ok & _ & ->) | [(log & ok & -> & _) | [(msg & ->) | ->]]];
    repeat split.
Qed.

Lemma linked_issue_events_filters (p : PullRequestClosed) (w : World)
    (ext : Trace) :
  Forall (linked_issue_event p w) ext ->
  filter is_post ext = [] /\ filter is_schedule ext = []
  /\ filter is_mutating ext = [] /\ filter is_permission_lookup ext = []
  /\ filter is_pull_fetch ext = [].
Proof.
  intros F.
  repeat split; apply filter_none; eapply Forall_impl; try exact F;
    intros e He; apply linked_issue_event_kind in He; tauto.
Qed.

(** Replaces the run of the block that deletes the linked issues by what
    is known of its events. *)
Ltac use_tail_events :=
  match goal with
  | Heq : delete_linked_issues ?p ?w ?t = (_, _) |- _ =>
      let ext := fresh "ext" in
      let H := fresh "H" in
      let F := fresh "F" in
      let S := fresh "S" in
      destruct (delete_linked_issues_events p w t) as [ext [H [F S]]];
      rewrite H in Heq; inversion Heq; subst; clear Heq
  end.

(** X2. The handlers of the three events never throw: whatever GitHub, the
    backend and the queue answer, the run of a delivery returns. *)
Theorem deliveries_never_throw (w : World) (d : Delivery) :
  snd (run w (deliver d)) = Some tt.
Proof.
  destruct d as [p | p | p]; cbn [deliver].
  - on_each_run (run w (issue_comment_created p)); reflexivity.
  - on_each_run (run w (issues_opened p)); reflexivity.
  - on_each_run (run w (pull_request_closed p)); try use_tail_events;
      reflexivity.
Qed.

(** X3. In the run of a delivery, once an external call has thrown, the
    handler makes no further external call: only lines of the process log
    follow. *)
Theorem deliveries_stop_at_first_failure (w : World) (d : Delivery) :
  fail_stop (trace_of w (deliver d)) = true.
Proof.
  destruct d as [p | p | p]; cbn [deliver].
  - on_each_run (trace_of w (issue_comment_created p)); reflexivity.
  - on_each_run (trace_of w (issues_opened p)); reflexivity.
  - on_each_run (trace_of w (pull_request_closed p)); try use_tail_events;
      try reflexivity.
    all: cbn [fail_stop threw negb isSome andb]; exact S.
Qed.

(** X4. One delivery leads to at most one posted comment, at most two
    scheduled cleanups, at most one classification or feedback request,
    and at most one lookup of a permission or of a pull request. *)
Theorem delivery_effects_are_bounded (w : World) (d : Delivery) :
  let t := trace_of w (deliver d) in
  (length (filter is_post t) <= 1)%nat
  /\ (length (filter is_schedule t) <= 2)%nat
  /\ (length (filter is_mutating t) <= 1)%nat
  /\ (length (filter is_permission_lookup t)
      + length (filter is_pull_fetch t) <= 1)%nat.
Proof.
  intros t. subst t. destruct d as [p | p | p]; cbn [deliver].
  - on_each_run (trace_of w (issue_comment_created p)); cbn; lia.
  - on_each_run (trace_of w (issues_opened p)); cbn; lia.
  - on_each_run (trace_of w (pull_request_closed p)); try use_tail_events.
    all: try (cbn; lia).
    all: destruct (linked_issue_events_filters F) as (F1 & F2 & F3 & F4 & F5).
    all: cbn [filter is_post is_schedule is_mutating is_permission_lookup
              is_pull_fetch]; rewrite F1, F2, F3, F4, F5; cbn; lia.
Qed.

(** ** Log entries, requests and cleanup jobs of deliveries *)

Lemma logged_app (a b : Trace) : logged (a ++ b) = logged a ++ logged b.
Proof. unfold logged. apply flat_map_app. Qed.

Lemma linked_issue_events_logged (p : PullRequestClosed) (w : World)
    (ext : Trace) (log : LogEntry) :
  Forall (linked_issue_event p w) ext -> In log (logged ext) ->
  actorType log = Bot /\ actorGithubId log = Null /\ actorUsername log = Null.
Proof.
  induction 1 as [|e ext He _ IH]; intros Hin; [destruct Hin |].
  change (e :: ext) with ([e] ++ ext) in Hin. rewrite logged_app in Hin.
  apply in_app_or in Hin. destruct Hin as [Hin | Hin]; [| auto].
  destruct He as [(z & ok & _ & ->) | [(l & ok & -> & Ha & Hb & Hc & _)
                 | [(msg & ->) | ->]]]; cbn in Hin; try tauto.
  destruct Hin as [<- | []]. auto.
Qed.

Lemma linked_issue_events_requests (p : PullRequestClosed) (w : World)
    (ext : Trace) (call : BackendCall) (req : FetchRequest) (ok : bool) :
  Forall (linked_issue_event p w) ext -> In (EFetch call req ok) ext ->
  req = request_of call w.
Proof.
  intros F Hin. rewrite Forall_forall in F. specialize (F _ Hin).
  destruct F as [(z & ok' & _ & H) | [(l & ok' & H & _) | [(msg & H) | H]]];
    try discriminate; injection H as -> -> _; reflexivity.
Qed.

(** X5. Every entry that the run of a delivery hands to the log of the
    backend has no GitHub id and no user name of an actor; its actor type
    is [contributor] for a comment and [bot] for an opened issue or a closed
    pull request. In particular the maintainer handler writes no entry. *)
Theorem delivery_log_entries_carry_no_identity
    (w : World) (d : Delivery) (log : LogEntry) :
  In log (logged (trace_of w (deliver d))) ->
  actorGithubId log = Null
  /\ actorUsername log = Null
  /\ actorType log = match d with
                     | IssueCommentCreatedEvent _ => Contributor
                     | _ => Bot
                     end.
Proof.
  destruct d as [p | p | p]; cbn [deliver].
  - on_each_run (trace_of w (issue_comment_created p)).
    all: intros H; cbn in H; split_In H; subst log; repeat split.
  - on_each_run (trace_of w (issues_opened p)).
    all: intros H; cbn in H; split_In H; subst log; repeat split.
  - on_each_run (trace_of w (pull_request_closed p)); try use_tail_events.
    all: intros Hin.
    all: try (cbn in Hin; split_In Hin; subst log; repeat split; fail).
    all: repeat match type of Hin with
           | In _ (logged (?e :: ?t)) =>
               change (e :: t) with ([e] ++ t) in Hin;
               rewrite logged_app in Hin;
               apply in_app_or in Hin; destruct Hin as [Hin | Hin];
               [cbn in Hin; split_In Hin; subst log; repeat split |]
           end.
    all: destruct (@linked_issue_events_logged _ _ _ _ F Hin) as (Ha & Hb & Hc);
      auto.
Qed.

Lemma delivery_log_entries_carry_no_identity_witness :
  let t := trace_of Samples.happy (deliver Deliveries.closed) in
  let log := nth 0 (logged t) Samples.maintainer_entry in
  In log (logged t)
  /\ actorGithubId log = Null
  /\ actorUsername log = Null
  /\ actorType log = Bot.
Proof.
  intros t log.
  assert (H : In log (logged t)) by find_in.
  split; [exact H |].
  exact (@delivery_log_entries_carry_no_identity Samples.happy
           Deliveries.closed log H).
Defined.

(** X6. Every request that the run of a delivery sends to the backend is
    the one the client builds for the call: it carries the bearer key and
    the JSON content type, its method is DELETE for the deletion of an issue
    and POST otherwise, and its address is under [/bot/] of the backend. *)
Theorem delivery_requests_are_well_formed
    (w : World) (d : Delivery) (call : BackendCall) (req : FetchRequest)
    (ok : bool) :
  In (EFetch call req ok) (trace_of w (deliver d)) ->
  req = request_of call w
  /\ In (lit "Authorization", lit "Bearer " ++ BOT_API_KEY w) (headers req)
  /\ In (lit "Content-Type", lit "application/json") (headers req)
  /\ method req = match call with
                  | DeleteIssue _ => lit "DELETE"
                  | _ => lit "POST"
                  end
  /\ exists path, url req = BACKEND_URL w ++ lit "/bot/" ++ path.
Proof.
  intros H.
  assert (Hreq : req = request_of call w).
  { revert H. destruct d as [p | p | p]; cbn [deliver].
    - on_each_run (trace_of w (issue_comment_created p)).
      all: intros H; split_In H; try discriminate;
        injection H as <- <- _; reflexivity.
    - on_each_run (trace_of w (issues_opened p)).
      all: intros H; split_In H; try discriminate;
        injection H as <- <- _; reflexivity.
    - on_each_run (trace_of w (pull_request_closed p)); try use_tail_events.
      all: intros Hin; split_In Hin; try discriminate.
      all: try (injection Hin as <- <- _; reflexivity).
      all: eapply linked_issue_events_requests; eassumption. }
  subst req. split; [reflexivity |].
  destruct call; cbn; repeat split; auto; eexists; reflexivity.
Qed.

Lemma delivery_requests_are_well_formed_witness :
  let w := Samples.happy in
  let call := DeleteIssue Deliveries.issue_3 in
  let req := backendAPI.deleteIssue_request Deliveries.issue_3 w in
  In (EFetch call req true) (trace_of w (deliver Deliveries.closed))
  /\ method req = lit "DELETE"
  /\ exists path, url req = BACKEND_URL w ++ lit "/bot/" ++ path.
Proof.
  intros w call req.
  assert (H : In (EFetch call req true)
                (trace_of w (deliver Deliveries.closed))) by find_in.
  split; [exact H |].
  destruct (@delivery_requests_are_well_formed w Deliveries.closed call req
              true H) as (_ & _ & _ & Hm & Hu).
  split; [exact Hm | exact Hu].
Defined.

Lemma linked_issue_events_no_job (p : PullRequestClosed) (w : World)
    (ext : Trace) (q name : jsstring) (job : CleanupJob) (opts : JobsOptions)
    (ok : bool) :
  Forall (linked_issue_event p w) ext -> ~ In (EQueueAdd q name job opts ok) ext.
Proof.
  intros F Hin. rewrite Forall_forall in F. specialize (F _ Hin).
  destruct F as [(z & ok' & _ & H) | [(l & ok' & H & _) | [(msg & H) | H]]];
    discriminate.
Qed.

(** X7. Every cleanup that the run of a delivery schedules goes to the
    queue [reposignal-cleanup] as a job [delete-comment] with three attempts
    and an exponential backoff of 5000 ms; its delay is 60000 ms for a
    comment, 300000 ms for an opened issue and 3600000 ms for a closed pull
    request; the job names the owner, the repository, the thread and the
    installation of the delivery. *)
Theorem delivery_cleanup_jobs_are_well_formed
    (w : World) (d : Delivery) (q name : jsstring) (job : CleanupJob)
    (opts : JobsOptions) (ok : bool) :
  In (EQueueAdd q name job opts ok) (trace_of w (deliver d)) ->
  q = lit "reposignal-cleanup"
  /\ name = lit "delete-comment"
  /\ attempts opts = 3%Z
  /\ backoff opts = {| backoff_type := lit "exponential"; backoff_delay := 5000 |}
  /\ delay opts = match d with
                  | IssueCommentCreatedEvent _ => 60000%Z
                  | IssuesOpenedEvent _ => 300000%Z
                  | PullRequestClosedEvent _ => 3600000%Z
                  end
  /\ owner job = repository_owner_login (delivery_repository d)
  /\ repo job = repository_name (delivery_repository d)
  /\ issueNumber job = Val (delivery_thread d)
  /\ delivery_installation d = Some (installationId job).
Proof.
  destruct d as [p | p | p]; cbn [deliver delivery_repository delivery_thread
                                   delivery_installation].
  - on_each_run (trace_of w (issue_comment_created p)).
    all: intros Hin; split_In Hin; try discriminate.
    all: injection Hin as <- <- <- <- _; repeat split.
  - on_each_run (trace_of w (issues_opened p)).
    all: intros Hin; split_In Hin; try discriminate.
    all: injection Hin as <- <- <- <- _; repeat split.
  - on_each_run (trace_of w (pull_request_closed p)); try use_tail_events.
    all: intros Hin; split_In Hin; try discriminate.
    all: try (injection Hin as <- <- <- <- _; repeat split; fail).
    all: exfalso; eapply linked_issue_events_no_job; eassumption.
Qed.

Lemma delivery_cleanup_jobs_are_well_formed_witness :
  let w := Samples.happy in
  let opts := cleanup_options 300000 in
  In (EQueueAdd cleanupQueue_name (lit "delete-comment") (Samples.job_of 555)
        opts true)
     (trace_of w (deliver Deliveries.opened))
  /\ attempts opts = 3%Z
  /\ delay opts = 300000%Z.
Proof.
  intros w opts.
  assert (H : In (EQueueAdd cleanupQueue_name (lit "delete-comment")
                    (Samples.job_of 555) opts true)
                (trace_of w (deliver Deliveries.opened))) by find_in.
  split; [exact H |].
  destruct (@delivery_cleanup_jobs_are_well_formed w Deliveries.opened _ _ _ _
              _ H) as (_ & _ & Ha & _ & Hd & _).
  split; [exact Ha | exact Hd].
Defined.

(** X8. Every classification request that the run of a comment delivery
    sends is for the repository and the issue of the comment and names the
    sender as the acting user; its difficulty is absent or from 1 to 5, its
    type is absent or one of the six issue types, [hidden] is absent or
    true, and at least one of the three is present. *)
Theorem classification_call_is_well_formed
    (w : World) (p : IssueCommentCreated) (data : ClassifyData)
    (req : FetchRequest) (ok : bool) :
  In (EFetch (ClassifyIssue data) req ok)
     (trace_of w (issue_comment_created p)) ->
  cl_githubRepoId data = repository_id (ic_repository p)
  /\ cl_githubIssueId data = issue_id (ic_issue p)
  /\ cl_actor data = {| actor_type := lit "user";
                        actor_githubId := Val (user_id (ic_sender p));
                        actor_username := Val (user_login (ic_sender p)) |}
  /\ (cl_difficulty data = Undefined
      \/ exists n, cl_difficulty data = Val (Num n) /\ (1 <= n <= 5)%Z)
  /\ (cl_issueType data = Undefined
      \/ exists t, cl_issueType data = Val t /\ In t issue_types)
  /\ (cl_hidden data = Undefined \/ cl_hidden data = Val true)
  /\ changes_sent data <> [].
Proof.
  on_each_run (trace_of w (issue_comment_created p)).
  all: intros Hin; split_In Hin; try discriminate.
  all: injection Hin as <- _ _.
  all: cbn [cl_githubRepoId cl_githubIssueId cl_actor cl_difficulty
            cl_issueType cl_hidden].
  all: repeat match goal with
         | |- context [or_undefined (parseDifficultyCommand ?b)] =>
             destruct (parseDifficultyCommand b) eqn:?
         | |- context [or_undefined (parseTypeCommand ?b)] =>
             destruct (parseTypeCommand b) eqn:?
         | |- context [if isHideCommand ?b then _ else _] =>
             destruct (isHideCommand b) eqn:?
         end.
  all: try discriminate.
  all: repeat match goal with
         | H : parseDifficultyCommand _ = Some ?n |- _ =>
             destruct (@parsed_number_in_range _ n (or_introl H))
               as (? & -> & ?); clear H
         | H : parseTypeCommand _ = Some _ |- _ =>
             apply parsed_type_is_known in H
         end.
  all: unfold changes_sent; cbn [or_undefined cl_difficulty cl_issueType
                                 cl_hidden app].
  all: repeat split; try discriminate; eauto.
Qed.

Lemma classification_call_is_well_formed_witness :
  let w := Samples.happy in
  let p := Samples.payload "/reposignal hide" in
  let data := Deliveries.hidden in
  In (EFetch (ClassifyIssue data) (backendAPI.classifyIssue_request data w)
        true)
     (trace_of w (issue_comment_created p))
  /\ cl_actor data = Deliveries.sender
  /\ changes_sent data <> [].
Proof.
  intros w p data.
  assert (H : In (EFetch (ClassifyIssue data)
                    (backendAPI.classifyIssue_request data w) true)
                (trace_of w (issue_comment_created p))) by find_in.
  split; [exact H |].
  destruct (@classification_call_is_well_formed w p data _ true H)
    as (_ & _ & Ha & _ & _ & _ & Hc).
  split; [exact Ha | exact Hc].
Defined.

(** X9. Every feedback request that the run of a comment delivery sends is
    for the repository of the comment and a pull request id other than 0;
    each rating is null or from 1 to 5, and they are not both null. *)
Theorem feedback_call_is_well_formed
    (w : World) (p : IssueCommentCreated) (data : FeedbackData)
    (req : FetchRequest) (ok : bool) :
  In (EFetch (SubmitFeedback data) req ok)
     (trace_of w (issue_comment_created p)) ->
  fb_githubRepoId data = repository_id (ic_repository p)
  /\ fb_githubPrId data <> 0%Z
  /\ (fb_difficultyRating data = Null
      \/ exists n, fb_difficultyRating data = Val (Num n) /\ (1 <= n <= 5)%Z)
  /\ (fb_responsivenessRating data = Null
      \/ exists n, fb_responsivenessRating data = Val (Num n) /\ (1 <= n <= 5)%Z)
  /\ ~ (fb_difficultyRating data = Null /\ fb_responsivenessRating data = Null).
Proof.
  on_each_run (trace_of w (issue_comment_created p)).
  all: intros Hin; split_In Hin; try discriminate.
  all: injection Hin as <- _ _.
  all: cbn [fb_githubRepoId fb_githubPrId fb_difficultyRating
            fb_responsivenessRating].
  all: repeat match goal with
         | |- context [or_null (parseDifficultyRating ?b)] =>
             destruct (parseDifficultyRating b) eqn:?
         | |- context [or_null (parseResponsivenessRating ?b)] =>
             destruct (parseResponsivenessRating b) eqn:?
         end.
  all: try discriminate.
  all: repeat match goal with
         | H : parseDifficultyRating _ = Some ?n |- _ =>
             destruct (@parsed_number_in_range _ n (or_intror (or_introl H)))
               as (? & -> & ?); clear H
         | H : parseResponsivenessRating _ = Some ?n |- _ =>
             destruct (@parsed_number_in_range _ n (or_intror (or_intror H)))
               as (? & -> & ?); clear H
         | H : Z.eqb _ 0 = false |- _ => apply Z.eqb_neq in H
         end.
  all: cbn [or_null].
  all: repeat split; eauto; try (intros [? ?]; discriminate).
Qed.

Lemma feedback_call_is_well_formed_witness :
  let w := Samples.happy in
  let p := Samples.payload "/reposignal rate difficulty 4" in
  let data := Deliveries.rated in
  In (EFetch (SubmitFeedback data) (backendAPI.submitFeedback_request data w)
        true)
     (trace_of w (issue_comment_created p))
  /\ fb_githubPrId data <> 0%Z
  /\ ~ (fb_difficultyRating data = Null /\ fb_responsivenessRating data = Null).
Proof.
  intros w p data.
  assert (H : In (EFetch (SubmitFeedback data)
                    (backendAPI.submitFeedback_request data w) true)
                (trace_of w (issue_comment_created p))) by find_in.
  split; [exact H |].
  destruct (@feedback_call_is_well_formed w p data _ true H)
    as (_ & Hp & _ & _ & Hn).
  split; [exact Hp | exact Hn].
Defined.

(** X10. Every comment that the maintainer handler posts is on the issue of
    the command, and the run has a classification request that the backend
    accepted, whose changes the text lists: the check mark, then
    [Issue updated: ] and the changes joined by commas. *)
Theorem confirmation_reports_the_classification
    (w : World) (p : IssueCommentCreated) (o r : jsstring) (n : Z)
    (text : jsstring) (id : option Z) :
  In (ECreateComment o r n text id) (trace_of w (handleMaintainerCommand p)) ->
  o = repository_owner_login (ic_repository p)
  /\ r = repository_name (ic_repository p)
  /\ n = issue_number (ic_issue p)
  /\ exists data req,
       In (EFetch (ClassifyIssue data) req true)
          (trace_of w (handleMaintainerCommand p))
       /\ text = confirmation_mark ++ lit " Issue updated: "
                 ++ join (lit ", ") (changes_sent data).
Proof.
  on_each_run (trace_of w (handleMaintainerCommand p)).
  all: intros Hin; split_In Hin; try discriminate.
  all: injection Hin as <- <- <- <- _.
  all: repeat split.
  all: eexists; eexists; split; [cbn [In]; eauto |].
  all: unfold changes_sent, maintainer_changes;
    cbn [cl_difficulty cl_issueType cl_hidden or_undefined].
  all: repeat match goal with
         | |- context [parseDifficultyCommand ?b] =>
             destruct (parseDifficultyCommand b)
         | |- context [parseTypeCommand ?b] =>
             destruct (parseTypeCommand b)
         | |- context [isHideCommand ?b] =>
             destruct (isHideCommand b)
         end.
  all: reflexivity.
Qed.

Lemma confirmation_reports_the_classification_witness :
  let w := Samples.happy in
  let p := Samples.payload "/reposignal hide" in
  let text := confirmation_mark ++ lit " Issue updated: hidden from discovery" in
  In (ECreateComment (lit "acme") (lit "app") 12%Z text (Some 555%Z))
     (trace_of w (handleMaintainerCommand p))
  /\ exists data req,
       In (EFetch (ClassifyIssue data) req true)
          (trace_of w (handleMaintainerCommand p))
       /\ text = confirmation_mark ++ lit " Issue updated: "
                 ++ join (lit ", ") (changes_sent data).
Proof.
  intros w p text.
  assert (H : In (ECreateComment (lit "acme") (lit "app") 12%Z text (Some 555%Z))
                (trace_of w (handleMaintainerCommand p))) by find_in.
  split; [exact H |].
  exact (proj2 (proj2 (proj2
           (@confirmation_reports_the_classification w p _ _ _ _ _ H)))).
Defined.

(** X11. A comment delivery has an effect only if the body contains
    [/reposignal]. A classification request or a permission lookup occurs
    only if the body does not contain [/reposignal rate], a classification
    only if one of the three maintainer commands is read from the body; a
    feedback request, a fetch of the pull request or a write to the log of
    the backend occurs only if the body contains [/reposignal rate], a
    feedback request only if a rating is read from the body. *)
Theorem comment_dispatch_conditions
    (w : World) (p : IssueCommentCreated) (e : Event) :
  let body := comment_body (ic_comment p) in
  In e (trace_of w (issue_comment_created p)) ->
  includes body (lit "/reposignal") = true
  /\ (is_classification e = true \/ is_permission_lookup e = true ->
      includes body (lit "/reposignal rate") = false)
  /\ (is_classification e = true ->
      parseDifficultyCommand body <> None
      \/ parseTypeCommand body <> None
      \/ isHideCommand body = true)
  /\ (is_feedback e = true \/ is_pull_fetch e = true \/ is_log_write e = true ->
      includes body (lit "/reposignal rate") = true)
  /\ (is_feedback e = true ->
      parseDifficultyRating body <> None
      \/ parseResponsivenessRating body <> None).
Proof.
  intros body. subst body.
  on_each_run (trace_of w (issue_comment_created p)).
  all: intros Hin; split_In Hin; subst e.
  all: cbn [is_classification is_permission_lookup is_feedback is_pull_fetch
            is_log_write].
  all: repeat split; try assumption; try reflexivity.
  all: try (intros [? | ?]; discriminate).
  all: try (intros [? | [? | ?]]; discriminate).
  all: try (intros ?; discriminate).
  all: intros _;
    repeat match goal with
      | H : ?x = Some _ |- context [?x] => rewrite H
      | H : ?x = true |- context [?x] => rewrite H
      end; auto; try (left; discriminate); try (right; discriminate);
    try (right; left; discriminate).
Qed.

Lemma comment_dispatch_conditions_witness :
  let w := Samples.happy in
  let p := Samples.payload "/reposignal hide" in
  let e := nth 2 (trace_of w (issue_comment_created p)) (ELog Info []) in
  In e (trace_of w (issue_comment_created p))
  /\ is_classification e = true
  /\ includes (comment_body (ic_comment p)) (lit "/reposignal rate") = false.
Proof.
  intros w p e.
  assert (H : In e (trace_of w (issue_comment_created p))) by find_in.
  assert (K : is_classification e = true) by (vm_compute; reflexivity).
  split; [exact H |]. split; [exact K |].
  destruct (@comment_dispatch_conditions w p e H) as (_ & Hc & _).
  exact (Hc (or_introl K)).
Defined.

(** ** The cleanup worker, and the deletion of linked issues *)

(** X12. One attempt of the cleanup worker on a job: it returns exactly
    when no external call threw and throws again exactly when it logged
    [Failed to delete comment:]; it asks for at most one deletion, that of
    the comment of the job and only after the authentication for the
    installation of the job succeeded; it writes the entry
    [comment_cleaned_up] only after the deletion succeeded; and after a
    call that threw it makes no further call. *)
Theorem cleanup_attempt_outcome (w : World) (job : CleanupJob) (t : Trace) :
  exists ext,
    fst (initCleanupWorker.processor job w t) = t ++ ext
    /\ (snd (initCleanupWorker.processor job w t) = Some tt
        <-> existsb threw ext = false)
    /\ (snd (initCleanupWorker.processor job w t) = None
        <-> In (ELog Error (lit "Failed to delete comment:")) ext)
    /\ (forall e, In e ext -> is_deletion e = true ->
          exists ok,
            e = EDeleteComment (owner job) (repo job) (commentId job) ok
            /\ In (EAuth (installationId job) true) ext)
    /\ (forall log req ok, In (EFetch (WriteLog log) req ok) ext ->
          log = cleaned_up_entry job
          /\ In (EDeleteComment (owner job) (repo job) (commentId job) true) ext)
    /\ (length (filter is_deletion ext) <= 1)%nat
    /\ fail_stop ext = true.
Proof.
  unfold initCleanupWorker.processor, try_catch, bind, app_auth,
    octokit.deleteComment, logger.logSystem, backendAPI.writeLog,
    backendAPI.fetch_ok, log_info, log_error, throw.
  fold (cleaned_up_entry job).
  destruct (w_auth w t (installationId job)) eqn:Ha; cbn [unit_of fst snd];
    [destruct (w_deleteComment w _ (owner job) (repo job) (commentId job))
       eqn:Hd; cbn [unit_of fst snd];
     [destruct (w_fetch w _
                  (backendAPI.writeLog_request (cleaned_up_entry job) w))
        eqn:Hl; cbn [unit_of fst snd] | ] | ].
  all: rewrite <- ?app_assoc; cbn [app]; eexists; (split; [reflexivity |]).
  all: cbn [existsb threw negb orb filter is_deletion length fail_stop
            forallb is_log andb isSome].
  all: repeat match goal with
         | |- _ /\ _ => split
         | |- _ <-> _ => split
         | |- forall _, _ => intro
         | H : In _ (_ :: _) |- _ => cbn [In] in H
         | H : _ \/ _ |- _ => destruct H
         | H : False |- _ => destruct H
         | H : EFetch _ _ _ = EFetch _ _ _ |- _ => injection H as <- <- <-
         end; subst; try discriminate; try reflexivity; try lia.
  all: try (cbn [In]; eauto 10; fail).
  all: eexists; split; [reflexivity | cbn [In]; auto].
Qed.

Lemma cleanup_attempt_outcome_witness :
  let w := Samples.deletion_refused in
  let job := Samples.job_of 555 in
  snd (initCleanupWorker.processor job w []) = None
  /\ exists ext,
       fst (initCleanupWorker.processor job w []) = ext
       /\ In (ELog Error (lit "Failed to delete comment:")) ext
       /\ fail_stop ext = true.
Proof.
  intros w job.
  assert (H : snd (initCleanupWorker.processor job w []) = None)
    by (vm_compute; reflexivity).
  split; [exact H |].
  destruct (@cleanup_attempt_outcome w job []) as (ext & He & _ & Hn & _ & _ & _ & Hs).
  exists ext. split; [exact He |]. split; [| exact Hs].
  apply Hn. exact H.
Defined.

Lemma delete_linked_issues_without_head (p : PullRequestClosed) (w : World)
    (t : Trace) :
  pr_head_repo (pc_pull_request p) = false ->
  delete_linked_issues p w t = (t, Some tt).
Proof. unfold delete_linked_issues. intros ->. reflexivity. Qed.

Lemma linked_issue_events_deletions (p : PullRequestClosed) (w : World)
    (ext : Trace) (data : DeleteIssueData) (req : FetchRequest) (ok : bool) :
  Forall (linked_issue_event p w) ext ->
  In (EFetch (DeleteIssue data) req ok) ext ->
  exists z,
    (0 <= z)%Z
    /\ data = {| di_githubRepoId := repository_id (pc_repository p);
                 di_githubIssueId := to_double z;
                 di_actor := {| actor_type := lit "bot";
                                actor_githubId := Undefined;
                                actor_username := Undefined |} |}.
Proof.
  intros F Hin. rewrite Forall_forall in F. specialize (F _ Hin).
  destruct F as [(z & ok' & Hz & H) | [(l & ok' & H & _) | [(msg & H) | H]]];
    try discriminate.
  injection H as -> _ _. eauto.
Qed.

Lemma linked_issue_events_no_handler_failure (p : PullRequestClosed)
    (w : World) (ext : Trace) :
  Forall (linked_issue_event p w) ext ->
  ~ In (ELog Error (lit "Failed to handle pull_request.closed")) ext.
Proof.
  intros F Hin. rewrite Forall_forall in F. specialize (F _ Hin).
  destruct F as [(z & ok' & Hz & H) | [(l & ok' & H & _) | [(msg & H) | H]]];
    discriminate.
Qed.

(** X13. A request to delete an issue occurs in the run of the handler of
    closed pull requests only if the pull request is merged and has a head
    repository; it is for the repository of the pull request, the double
    nearest to an integer that is not negative (the infinity beyond the
    range of doubles) and the bot as actor; the cleanup of the nudge has
    then been scheduled, and the failure of a deletion is never caught as a
    failure of the handler. *)
Theorem linked_issue_deletion_is_isolated
    (w : World) (p : PullRequestClosed) (data : DeleteIssueData)
    (req : FetchRequest) (ok : bool) :
  let t := trace_of w (pull_request_closed p) in
  In (EFetch (DeleteIssue data) req ok) t ->
  pr_merged (pc_pull_request p) = true
  /\ pr_head_repo (pc_pull_request p) = true
  /\ (exists z,
        (0 <= z)%Z
        /\ data = {| di_githubRepoId := repository_id (pc_repository p);
                     di_githubIssueId := to_double z;
                     di_actor := {| actor_type := lit "bot";
                                    actor_githubId := Undefined;
                                    actor_username := Undefined |} |})
  /\ (exists job,
        filter is_schedule t
        = [EQueueAdd cleanupQueue_name (lit "delete-comment") job
             (cleanup_options 3600000) true])
  /\ ~ In (ELog Error (lit "Failed to handle pull_request.closed")) t.
Proof.
  intros t. subst t.
  destruct (pr_head_repo (pc_pull_request p)) eqn:Hhead.
  - on_each_run (trace_of w (pull_request_closed p)); try use_tail_events.
    all: intros Hin; split_In Hin; try discriminate.
    all: destruct (linked_issue_events_filters F) as (_ & Fs & _).
    all: split; [reflexivity |]. all: split; [reflexivity |].
    all: split; [eapply linked_issue_events_deletions; eassumption |].
    all: split; [cbn [filter is_schedule]; rewrite Fs; eexists; reflexivity |].
    all: intros Hbad; split_In Hbad; try discriminate.
    all: revert Hbad; eapply linked_issue_events_no_handler_failure; eassumption.
  - on_each_run (trace_of w (pull_request_closed p)).
    all: try match goal with
           | Heq : delete_linked_issues _ _ _ = (_, _) |- _ =>
               rewrite (delete_linked_issues_without_head _ _ _ Hhead) in Heq;
               inversion Heq; subst; clear Heq
           end.
    all: intros Hin; split_In Hin; discriminate.
Qed.

Lemma linked_issue_deletion_is_isolated_witness :
  let w := Samples.happy in
  let t := trace_of w (pull_request_closed Samples.closed) in
  In (EFetch (DeleteIssue Deliveries.issue_3)
        (backendAPI.deleteIssue_request Deliveries.issue_3 w) true) t
  /\ (exists job,
        filter is_schedule t
        = [EQueueAdd cleanupQueue_name (lit "delete-comment") job
             (cleanup_options 3600000) true])
  /\ ~ In (ELog Error (lit "Failed to handle pull_request.closed")) t.
Proof.
  intros w t.
  assert (H : In (EFetch (DeleteIssue Deliveries.issue_3)
                    (backendAPI.deleteIssue_request Deliveries.issue_3 w)
                    true) t) by find_in.
  split; [exact H |].
  exact (proj2 (proj2 (proj2
           (@linked_issue_deletion_is_isolated w Samples.closed _ _ _ H)))).
Defined.

Lemma deleted_ids_app (a b : Trace) :
  deleted_ids (a ++ b) = deleted_ids a ++ deleted_ids b.
Proof. apply flat_map_app. Qed.

Lemma delete_linked_issue_ids (repository : Repository) (prNumber : Z)
    (matched : jsstring) (w : World) (t : Trace) :
  (exists mr, str_match re_issue_ref matched = Some mr) ->
  exists ext r,
    delete_linked_issue repository prNumber matched w t = (t ++ ext, r)
    /\ deleted_ids ext = [issue_number_of matched]
    /\ existsb is_failure ext = false.
Proof.
  intros (mr & Hm).
  unfold delete_linked_issue, issue_number_of. rewrite Hm.
  unfold bind, backendAPI.deleteIssue, logger.logBot, backendAPI.writeLog,
    backendAPI.fetch_ok, log_info.
  destruct (w_fetch w t _); cbn [unit_of];
    [destruct (w_fetch w _ _); cbn [unit_of] |];
    rewrite <- ?app_assoc; cbn [app]; eexists; eexists;
    (split; [reflexivity | split; reflexivity]).
Qed.

Lemma for_each_delete_ids (repository : Repository) (prNumber : Z)
    (matches : list jsstring) (w : World) (t : Trace) :
  (forall m, In m matches -> exists mr, str_match re_issue_ref m = Some mr) ->
  exists ext r rest,
    for_each matches (delete_linked_issue repository prNumber) w t
    = (t ++ ext, r)
    /\ map issue_number_of matches = deleted_ids ext ++ rest
    /\ (r = Some tt -> rest = [])
    /\ existsb is_failure ext = false.
Proof.
  revert t. induction matches as [|m matches IH]; intros t Hall.
  - exists [], (Some tt), []. unfold for_each, ret. rewrite app_nil_r.
    split; [reflexivity |]. split; [reflexivity |]. split; reflexivity.
  - cbn [for_each]. unfold bind.
    destruct (@delete_linked_issue_ids repository prNumber m w t
                (Hall m (or_introl eq_refl)))
      as (e1 & r1 & -> & D1 & Q1).
    destruct r1 as [[]|].
    + destruct (IH (t ++ e1) (fun m' H => Hall m' (or_intror H)))
        as (e2 & r2 & rest & -> & D2 & R2 & Q2).
      exists (e1 ++ e2), r2, rest. rewrite app_assoc.
      split; [reflexivity |].
      split; [cbn [map]; rewrite deleted_ids_app, D1, D2; reflexivity |].
      split; [exact R2 |].
      rewrite existsb_app, Q1, Q2. reflexivity.
    + exists e1, None, (map issue_number_of matches).
      split; [reflexivity |].
      split; [cbn [map]; rewrite D1; reflexivity |].
      split; [discriminate | exact Q1].
Qed.

Lemma delete_linked_issues_ids (p : PullRequestClosed) (w : World)
    (t : Trace) :
  exists ext rest,
    delete_linked_issues p w t = (t ++ ext, Some tt)
    /\ linked_issue_numbers (pr_body (pc_pull_request p))
       = deleted_ids ext ++ rest
    /\ (pr_head_repo (pc_pull_request p) = true ->
        existsb is_failure ext = false -> rest = []).
Proof.
  unfold delete_linked_issues, linked_issue_numbers.
  destruct (pr_head_repo (pc_pull_request p)).
  - unfold try_catch.
    destruct (pr_body (pc_pull_request p)) as [body|].
    + destruct (match_all re_linked_issue body) as [matches|] eqn:Hm.
      * destruct (@for_each_delete_ids (pc_repository p)
                    (pr_number (pc_pull_request p)) matches w t)
          as (ext & r & rest & -> & D & R & Q).
        { intros m Hin.
          destruct (@linked_issue_number body matches m Hm Hin)
            as (mr & _ & H & _). eauto. }
        destruct r as [[]|].
        -- exists ext, rest. split; [reflexivity |]. split; [exact D |].
           intros _ _. apply R. reflexivity.
        -- unfold log_error. rewrite <- app_assoc.
           exists (ext ++ [ELog Error (lit "Failed to delete issue after PR merge")]),
             rest.
           split; [reflexivity |].
           split; [rewrite deleted_ids_app; cbn [deleted_ids flat_map];
                   rewrite app_nil_r; exact D |].
           intros _ H. rewrite existsb_app in H. cbn in H.
           rewrite orb_true_r in H. discriminate.
      * exists [], []. unfold ret. rewrite app_nil_r.
        split; [reflexivity |]. split; reflexivity.
    + exists [], []. unfold ret. rewrite app_nil_r.
      split; [reflexivity |]. split; reflexivity.
  - eexists [], _. unfold ret. rewrite app_nil_r.
    split; [reflexivity |]. split; [reflexivity | discriminate].
Qed.

Ltac use_tail_ids :=
  match goal with
  | Heq : delete_linked_issues ?p ?w ?t = (_, _) |- _ =>
      let ext := fresh "ext" in
      let rest := fresh "rest" in
      let H := fresh "H" in
      let D := fresh "D" in
      let R := fresh "R" in
      destruct (delete_linked_issues_ids p w t) as [ext [rest [H [D R]]]];
      rewrite H in Heq; inversion Heq; subst; clear Heq
  end.

Lemma str_match_rest_length (r : regex) (s : jsstring) (m : MatchResult) :
  str_match r s = Some m ->
  (length (m_full m) + length (m_rest m) <= length s)%nat.
Proof.
  intros H. apply str_match_derives in H. destruct H as [_ (pre & ->)].
  rewrite !length_app. lia.
Qed.

(** The fuel of [match_all] is enough: more of it finds the same
    matches. *)
Lemma match_all_from_fuel (r : regex) (n m : nat) (s : jsstring) :
  (length s < n)%nat -> (length s < m)%nat ->
  match_all_from n r s = match_all_from m r s.
Proof.
  revert m s. induction n as [|n IH]; intros [|m] s Hn Hm; try lia.
  cbn [match_all_from].
  destruct (str_match r s) as [mt|] eqn:E; [| reflexivity].
  apply str_match_rest_length in E.
  destruct (m_full mt) as [|c full]; destruct (m_rest mt) as [|d rest];
    cbn [length] in E; try reflexivity; f_equal; apply IH; cbn [length]; lia.
Qed.

(** With a continuation that accepts every rest, [class+] takes the
    longest run. *)
Lemma plus_k_greedy {R} (p : N -> bool) (s : jsstring)
    (k : jsstring -> option R) (x : R) :
  (forall s', k s' <> None) ->
  plus_k p s k = Some x ->
  exists run rest,
    s = run ++ rest /\ run <> [] /\ forallb p run = true
    /\ match rest with c :: _ => p c = false | [] => True end
    /\ k rest = Some x.
Proof.
  intros Hk. induction s as [|c s IH]; cbn [plus_k]; [discriminate |].
  destruct (p c) eqn:Hc; [| discriminate].
  destruct (plus_k p s k) as [y|] eqn:Hp.
  - intros [= ->]. destruct (IH eq_refl) as (run & rest & -> & _ & Hall & Hr & Hx).
    exists (c :: run), rest. cbn [app forallb]. rewrite Hc, Hall.
    repeat split; auto. discriminate.
  - intros Hx. exists [c], s. cbn [app forallb]. rewrite Hc.
    repeat split; auto; [discriminate |].
    destruct s as [|d s]; [exact I |].
    destruct (p d) eqn:Hd; [| reflexivity].
    exfalso. revert Hp. now apply plus_k_total.
Qed.

Lemma exec_k_seq {R} (r1 r2 : regex) (s : jsstring) (caps : captures)
    (k : jsstring -> captures -> option R) (x : R) :
  exec_k (RSeq r1 r2) s caps k = Some x ->
  exists txt s1 caps1,
    s = txt ++ s1 /\ derives r1 txt caps caps1
    /\ exec_k r2 s1 caps1 k = Some x.
Proof. cbn [exec_k]. apply exec_k_derives. Qed.

Lemma str_match_exec_at (r : regex) (s : jsstring) (m : MatchResult) :
  str_match r s = Some m ->
  exists pre s1, s = pre ++ s1 /\ exec_at r s1 = Some m.
Proof.
  induction s as [|c s IH]; cbn [str_match]; intros H.
  - destruct (exec_at r []) eqn:He; [| discriminate].
    injection H as ->. now exists [], [].
  - destruct (exec_at r (c :: s)) eqn:He.
    + injection H as ->. now exists [], (c :: s).
    + destruct (IH H) as (pre & s1 & -> & H1). now exists (c :: pre), s1.
Qed.

Lemma match_all_from_suffix (fuel : nat) (r : regex) (s m : jsstring) :
  In m (match_all_from fuel r s) ->
  exists pre s0 mr, s = pre ++ s0 /\ str_match r s0 = Some mr /\ m = m_full mr.
Proof.
  revert s. induction fuel as [|fuel IH]; intros s H; [destruct H |].
  cbn [match_all_from] in H.
  destruct (str_match r s) as [mr|] eqn:Hm; [| destruct H].
  destruct H as [<- | H]; [exists [], s, mr; auto |].
  destruct (str_match_derives _ _ Hm) as [_ (pre & Hs)].
  destruct (m_full mr) as [|f full] eqn:Hf; destruct (m_rest mr) as [|d rest] eqn:Hr;
    try destruct H.
  - apply IH in H. destruct H as (pre' & s0 & mr' & E & H1 & H2).
    exists (pre ++ d :: pre'), s0, mr'.
    rewrite Hs, E, <- !app_assoc. cbn [app]. auto.
  - apply IH in H. destruct H as (pre' & s0 & mr' & E & H1 & H2).
    exists (pre ++ (f :: full) ++ pre'), s0, mr'.
    rewrite Hs, E, <- !app_assoc. auto.
  - apply IH in H. destruct H as (pre' & s0 & mr' & E & H1 & H2).
    exists (pre ++ (f :: full) ++ pre'), s0, mr'.
    rewrite Hs, E, <- !app_assoc. auto.
Qed.

Lemma toLowerCase_app (a b : jsstring) :
  toLowerCase (a ++ b) = toLowerCase a ++ toLowerCase b.
Proof. apply map_app. Qed.

(** A code unit of the class [[sd]] under the flag [i]. *)
Lemma sd_lowered (c : N) :
  one_of_ci "sd" c = true ->
  toLowerCase [c] = lit "s" \/ toLowerCase [c] = lit "d".
Proof.
  unfold one_of_ci. cbn [list_ascii_of_string existsb].
  intros H. apply orb_true_iff in H. destruct H as [H | H].
  - left. apply lower_of_ci in H; [| reflexivity].
    unfold toLowerCase. cbn [map]. rewrite H. reflexivity.
  - apply orb_true_iff in H. destruct H as [H | H]; [| discriminate].
    right. apply lower_of_ci in H; [| reflexivity].
    unfold toLowerCase. cbn [map]. rewrite H. reflexivity.
Qed.

(** What the first group of the pattern of linked issues matches. *)
Lemma closing_keyword_text (txt : jsstring) (caps caps' : captures) :
  derives
    (RGroup 1
       (alt (seq [re_lit "close"; opt (RClass (one_of_ci "sd"))])
          [ seq [re_lit "fix";
                 opt (RGroup 2 (seq [re_lit "e"; RClass (one_of_ci "sd")]))];
            seq [re_lit "resolve"; opt (RClass (one_of_ci "sd"))] ]))
    txt caps caps' ->
  In (toLowerCase txt) closing_keywords.
Proof.
  cbn [derives alt seq fold_right opt].
  intros (caps1 & [D | [D | D]] & _);
    destruct D as (t1 & t2 & c1 & -> & D1 & t3 & t4 & c2 & -> & D2 & -> & _);
    apply re_lit_lowered in D1; try reflexivity;
    rewrite app_nil_r, toLowerCase_app, D1.
  - destruct D2 as [(c & -> & Hc & _) | [-> _]].
    + apply sd_lowered in Hc. destruct Hc as [-> | ->]; cbn; auto.
    + cbn; auto.
  - destruct D2 as [(c3 & (u1 & u2 & c4 & -> & De & u3 & u4 & c5 & -> & (c & -> & Hc & _) & -> & _) & _) | [-> _]].
    + apply re_lit_lowered in De; try reflexivity.
      rewrite app_nil_r, toLowerCase_app, De.
      apply sd_lowered in Hc. destruct Hc as [-> | ->]; cbn; auto 7.
    + cbn; auto 7.
  - destruct D2 as [(c & -> & Hc & _) | [-> _]].
    + apply sd_lowered in Hc. destruct Hc as [-> | ->]; cbn; auto 10.
    + cbn; auto 10.
Qed.

(** A match of the pattern of linked issues at the start of [s]: keyword,
    white space, [#] and the whole run of digits. *)
Lemma linked_issue_match_shape (s : jsstring) (mr : MatchResult) :
  exec_at re_linked_issue s = Some mr ->
  exists kw ws ds,
    m_full mr = kw ++ ws ++ 35%N :: ds
    /\ s = m_full mr ++ m_rest mr
    /\ In (toLowerCase kw) closing_keywords
    /\ ws <> [] /\ forallb is_space ws = true
    /\ ds <> [] /\ forallb is_digit ds = true
    /\ starts_with_digit (m_rest mr) = false.
Proof.
  unfold exec_at, re_linked_issue. cbn [seq fold_right]. intros H.
  apply exec_k_seq in H. destruct H as (kw & s1 & c1 & E1 & Dk & H).
  apply exec_k_seq in H. destruct H as (ws & s2 & c2 & E2 & Dw & H).
  apply exec_k_seq in H. destruct H as (h & s3 & c3 & E3 & Dh & H).
  cbn [exec_k] in H. apply plus_k_greedy in H; [| discriminate].
  destruct H as (ds & rest & E4 & Hne & Hall & Hrest & Hk).
  injection Hk as <-. cbn [m_full m_rest].
  apply closing_keyword_text in Dk.
  cbn [derives] in Dw. destruct Dw as (Hwne & Hwall & _).
  unfold re_lit in Dh. cbn [list_ascii_of_string map seq fold_right derives] in Dh.
  destruct Dh as (u1 & u2 & c5 & -> & (c & -> & Hc & _) & -> & _).
  change (N_of_ascii "#") with 35%N in Hc. apply hash_of_ci in Hc. subst c.
  subst s3 s2 s1 s.
  assert (Ec : consumed (kw ++ ws ++ ([35%N] ++ []) ++ ds ++ rest) rest
               = kw ++ ws ++ 35%N :: ds).
  { replace (kw ++ ws ++ ([35%N] ++ []) ++ ds ++ rest)
      with ((kw ++ ws ++ 35%N :: ds) ++ rest)
      by (rewrite <- !app_assoc; reflexivity).
    apply consumed_app. }
  rewrite Ec. exists kw, ws, ds.
  split; [reflexivity |].
  split; [rewrite <- !app_assoc; reflexivity |].
  repeat (split; [assumption |]).
  destruct rest as [|d rest]; [reflexivity | exact Hrest].
Qed.

Lemma consumed_all (s : jsstring) : consumed s [] = s.
Proof. rewrite <- (app_nil_r s) at 1. apply consumed_app. Qed.

Lemma issue_ref_not_here (c : N) (s : jsstring) :
  c <> 35%N -> exec_at re_issue_ref (c :: s) = None.
Proof.
  intros Hc. unfold exec_at, re_issue_ref, re_lit.
  cbn [list_ascii_of_string map seq fold_right exec_k].
  change (N_of_ascii "#") with 35%N.
  destruct (ci 35 c) eqn:E; [| reflexivity].
  apply hash_of_ci in E. contradiction.
Qed.

Lemma issue_ref_skips (pre s : jsstring) :
  ~ In 35%N pre -> str_match re_issue_ref (pre ++ s) = str_match re_issue_ref s.
Proof.
  induction pre as [|c pre IH]; intros Hpre; [reflexivity |].
  cbn [app str_match]. rewrite issue_ref_not_here.
  - apply IH. intros H. apply Hpre. now right.
  - intros ->. apply Hpre. now left.
Qed.

Lemma digits_to_the_end (run rest : jsstring) :
  forallb is_digit (run ++ rest) = true ->
  match rest with c :: _ => is_digit c = false | [] => True end ->
  rest = [].
Proof.
  rewrite forallb_app. intros H Hr. apply andb_true_iff in H.
  destruct H as [_ H]. destruct rest as [|c rest]; [reflexivity |].
  cbn [forallb] in H. apply andb_true_iff in H. destruct H as [H _]. congruence.
Qed.

(** [/#(\d+)/] on [#] and digits: the group is the digits. *)
Lemma issue_ref_at_hash (ds : jsstring) :
  ds <> [] -> forallb is_digit ds = true ->
  str_match re_issue_ref (35%N :: ds)
  = Some {| m_full := 35%N :: ds; m_groups := [(1%nat, ds)]; m_rest := [] |}.
Proof.
  intros Hne Hall.
  assert (E : exec_at re_issue_ref (35%N :: ds)
              = Some {| m_full := 35%N :: ds; m_groups := [(1%nat, ds)];
                        m_rest := [] |}).
  { unfold exec_at, re_issue_ref, re_lit.
    cbn [list_ascii_of_string map seq fold_right exec_k].
    change (N_of_ascii "#") with 35%N. change (ci 35 35) with true. cbv iota.
    match goal with |- ?l = _ => destruct l as [x|] eqn:Hp end.
    - apply plus_k_greedy in Hp; [| discriminate].
      destruct Hp as (run & rest & E & _ & _ & Hrest & Hk).
      subst ds. apply (digits_to_the_end _ _ Hall) in Hrest. subst rest.
      rewrite <- Hk, !consumed_all. reflexivity.
    - exfalso. destruct ds as [|d ds]; [contradiction |].
      cbn [forallb] in Hall. apply andb_true_iff in Hall.
      revert Hp. apply plus_k_total; [apply Hall | discriminate]. }
  cbn [str_match]. rewrite E. reflexivity.
Qed.

Lemma keyword_has_no_hash (kw : jsstring) :
  In (toLowerCase kw) closing_keywords -> ~ In 35%N kw.
Proof.
  intros Hk Hin.
  assert (H : In 35%N (toLowerCase kw)).
  { unfold toLowerCase. apply in_map_iff. exists 35%N. split; [reflexivity | exact Hin]. }
  unfold closing_keywords in Hk. cbn [In] in Hk.
  repeat (destruct Hk as [Hk | Hk];
          [rewrite <- Hk in H; cbn in H;
           repeat (destruct H as [H | H]; [discriminate |]); exact H |]).
  exact Hk.
Qed.

Lemma space_has_no_hash (ws : jsstring) :
  forallb is_space ws = true -> ~ In 35%N ws.
Proof.
  intros Hall Hin. rewrite forallb_forall in Hall. apply Hall in Hin.
  discriminate.
Qed.

(** The number that the loop reads from a match of the pattern of linked
    issues is the number of the whole run of digits. *)
Lemma issue_number_of_reference (kw ws ds : jsstring) :
  In (toLowerCase kw) closing_keywords ->
  forallb is_space ws = true ->
  ds <> [] -> forallb is_digit ds = true ->
  issue_number_of (kw ++ ws ++ 35%N :: ds) = to_double (digits_value 0 ds).
Proof.
  intros Hk Hw Hne Hall. unfold issue_number_of.
  rewrite issue_ref_skips by now apply keyword_has_no_hash.
  rewrite issue_ref_skips by now apply space_has_no_hash.
  rewrite issue_ref_at_hash by assumption.
  cbn [m_groups group Nat.eqb].
  apply parseInt_number_text. split; assumption.
Qed.

(** Every number that the loop reads is written in the body after a
    closing keyword. *)
Lemma linked_issue_numbers_referenced (b : option jsstring) (n : number) :
  In n (linked_issue_numbers b) ->
  exists body ds,
    b = Some body /\ closing_reference body ds
    /\ n = to_double (digits_value 0 ds).
Proof.
  unfold linked_issue_numbers, match_all.
  destruct b as [body|]; [| intros []].
  destruct (match_all_from (S (length body)) re_linked_issue body)
    as [|m0 ms] eqn:Hm; [intros [] |].
  intros Hin. apply in_map_iff in Hin. destruct Hin as (m & <- & Hin).
  rewrite <- Hm in Hin. apply match_all_from_suffix in Hin.
  destruct Hin as (pre & s0 & mr & -> & Hs & ->).
  apply str_match_exec_at in Hs. destruct Hs as (pre1 & s1 & -> & He).
  apply linked_issue_match_shape in He.
  destruct He as (kw & ws & ds & Ef & Es & Hk & Hwne & Hw & Hne & Hall & Hrest).
  exists (pre ++ pre1 ++ s1), ds. split; [reflexivity |]. split.
  - exists (pre ++ pre1), kw, ws, (m_rest mr).
    split; [| repeat (split; [assumption |]); exact Hrest].
    rewrite Es, Ef, <- !app_assoc. cbn [app]. reflexivity.
  - rewrite Ef. now apply issue_number_of_reference.
Qed.

Lemma deleted_ids_In (t : Trace) (data : DeleteIssueData) (req : FetchRequest)
    (ok : bool) :
  In (EFetch (DeleteIssue data) req ok) t ->
  In (di_githubIssueId data) (deleted_ids t).
Proof.
  intros H. unfold deleted_ids. apply in_flat_map.
  exists (EFetch (DeleteIssue data) req ok). split; [exact H | now left].
Qed.

(** X14. Every issue that the handler of closed pull requests asks the
    backend to delete is written in the body of the pull request: the body
    holds one of the words close, closes, closed, fix, fixes, fixed,
    resolve, resolves, resolved in any letter case (also as the end of a
    longer word), then white space, [#] and a run of digits that no digit
    follows, and the id of the request is the double nearest to the number
    of these digits. *)
Theorem deleted_issues_are_referenced
    (w : World) (p : PullRequestClosed) (data : DeleteIssueData)
    (req : FetchRequest) (ok : bool) :
  In (EFetch (DeleteIssue data) req ok) (trace_of w (pull_request_closed p)) ->
  exists body ds,
    pr_body (pc_pull_request p) = Some body
    /\ closing_reference body ds
    /\ di_githubIssueId data = to_double (digits_value 0 ds).
Proof.
  intros Hin. apply deleted_ids_In in Hin. revert Hin.
  on_each_run (trace_of w (pull_request_closed p)); try use_tail_ids.
  all: rewrite ?deleted_ids_app; cbn [deleted_ids flat_map app].
  all: try (intros []).
  all: intros Hin; apply linked_issue_numbers_referenced.
  all: rewrite D; apply in_or_app; left; exact Hin.
Qed.

Lemma deleted_issues_are_referenced_witness :
  let w := Samples.happy in
  let t := trace_of w (pull_request_closed Samples.closed) in
  In (EFetch (DeleteIssue Deliveries.issue_3)
        (backendAPI.deleteIssue_request Deliveries.issue_3 w) true) t
  /\ exists ds, closing_reference (lit "Fixes #3") ds
                /\ Num 3 = to_double (digits_value 0 ds).
Proof.
  intros w t.
  assert (H : In (EFetch (DeleteIssue Deliveries.issue_3)
                    (backendAPI.deleteIssue_request Deliveries.issue_3 w)
                    true) t) by find_in.
  split; [exact H |].
  destruct (@deleted_issues_are_referenced w Samples.closed _ _ _ H)
    as (body & ds & Hb & Hr & Hn).
  injection Hb as <-. exists ds. split; [exact Hr | exact Hn].
Defined.

(** ** Repository metadata *)

Lemma str_eqb_refl (a : jsstring) : str_eqb a a = true.
Proof.
  induction a as [|c a IH]; cbn [str_eqb]; [reflexivity |].
  rewrite N.eqb_refl. exact IH.
Qed.

Lemma in_non_null {A} (l : list (option A)) (a : A) :
  In a (non_null l) <-> In (Some a) l.
Proof.
  induction l as [|[x|] l IH]; cbn [non_null In].
  - tauto.
  - rewrite IH. split; (intros [H | H]; [left; congruence | right; exact H]).
  - rewrite IH. split; [auto | intros [H | H]; [discriminate | exact H]].
Qed.

Lemma if_non_empty_val {A} (arr l : list A) :
  if_non_empty arr = Val l -> l = arr /\ arr <> [].
Proof.
  unfold if_non_empty. destruct arr; cbn; [discriminate |].
  intros H. injection H as <-. split; [reflexivity | discriminate].
Qed.

Lemma normalizeForMatching_no_space (lower : jsstring -> jsstring)
    (str : jsstring) :
  existsb is_space (installation.normalizeForMatching lower str) = false.
Proof.
  unfold installation.normalizeForMatching.
  induction (lower str) as [|u s IH]; cbn [filter existsb]; [reflexivity |].
  destruct (is_space u) eqn:E; cbn [negb existsb]; [exact IH |].
  rewrite E, IH. reflexivity.
Qed.

Lemma languagesFromAPI_In (lower : jsstring -> jsstring)
    (languagesData : list (jsstring * Z))
    (allLanguages : list CanonicalLanguage) (e : LanguageEntry) :
  In e (installation.languagesFromAPI lower languagesData allLanguages) <->
  exists lang,
    In (lang, le_bytes e) languagesData
    /\ normal_form_of lower (le_matchingName e) lang
    /\ In (le_matchingName e) (map lang_matchingName allLanguages).
Proof.
  unfold installation.languagesFromAPI, normal_form_of.
  rewrite in_non_null, in_map_iff. split.
  - intros ([lang bytes] & H & Hin).
    destruct (find _ allLanguages) as [c|] eqn:F; [| discriminate].
    injection H as <-. apply find_some in F. destruct F as [Hc Heq].
    apply str_eqb_eq in Heq. cbn [le_bytes le_matchingName].
    exists lang. split; [exact Hin |]. split; [exact Heq |].
    apply in_map. exact Hc.
  - intros (lang & Hin & Hn & Hc). exists (lang, le_bytes e).
    split; [| exact Hin].
    destruct (find _ allLanguages) as [c|] eqn:F.
    + apply find_some in F. destruct F as [_ Heq]. apply str_eqb_eq in Heq.
      destruct e as [n b]. cbn [le_matchingName le_bytes] in *.
      congruence.
    + exfalso. apply in_map_iff in Hc. destruct Hc as (c & Hc & Hin').
      apply (find_none _ _ F) in Hin'. rewrite Hc, Hn in Hin'.
      rewrite str_eqb_refl in Hin'. discriminate.
Qed.

Lemma find_by_name {A} (name : A -> jsstring) (all : list A) (n : jsstring) :
  (exists c, find (fun x => str_eqb (name x) n) all = Some c
             /\ name c = n /\ In c all)
  \/ (find (fun x => str_eqb (name x) n) all = None
      /\ ~ In n (map name all)).
Proof.
  destruct (find _ all) as [c|] eqn:F.
  - left. apply find_some in F. destruct F as [Hin Heq].
    apply str_eqb_eq in Heq. eauto.
  - right. split; [reflexivity |]. intros Hin. apply in_map_iff in Hin.
    destruct Hin as (c & Hc & Hin). apply (find_none _ _ F) in Hin.
    rewrite Hc, str_eqb_refl in Hin. discriminate.
Qed.

Lemma languagesFromTopics_In (lower : jsstring -> jsstring)
    (topics : list jsstring) (allLanguages : list CanonicalLanguage)
    (fromAPI : list LanguageEntry) (e : LanguageEntry) :
  In e (installation.languagesFromTopics lower topics allLanguages fromAPI) <->
  le_bytes e = 0%Z
  /\ (exists topic,
        In topic topics /\ normal_form_of lower (le_matchingName e) topic)
  /\ In (le_matchingName e) (map lang_matchingName allLanguages)
  /\ ~ In (le_matchingName e) (map le_matchingName fromAPI).
Proof.
  unfold installation.languagesFromTopics, normal_form_of.
  rewrite in_non_null, in_map_iff. split.
  - intros (topic & H & Hin). cbv beta zeta in H. revert H.
    destruct (find_by_name lang_matchingName allLanguages
                (installation.normalizeForMatching lower topic))
      as [(c & -> & Hc & Hall) | [-> _]]; [| discriminate].
    destruct (find_by_name le_matchingName fromAPI (lang_matchingName c))
      as [(x & -> & _) | [-> Hnot]]; [discriminate |].
    intros H. injection H as <-. cbn [le_bytes le_matchingName].
    split; [reflexivity |]. split; [exists topic; auto |].
    split; [apply in_map; exact Hall | exact Hnot].
  - intros (Hb & (topic & Hin & Hn) & Hc & Hnot). exists topic.
    split; [| exact Hin]. cbv beta zeta.
    destruct (find_by_name lang_matchingName allLanguages
                (installation.normalizeForMatching lower topic))
      as [(c & -> & Hc' & _) | [_ Habs]];
      [| exfalso; apply Habs; rewrite <- Hn; exact Hc].
    destruct (find_by_name le_matchingName fromAPI (lang_matchingName c))
      as [(x & _ & Hx & Hin') | [-> _]].
    + exfalso. apply Hnot. rewrite Hn, <- Hc', <- Hx. apply in_map.
      exact Hin'.
    + destruct e as [n b]. cbn [le_matchingName le_bytes] in *. congruence.
Qed.

Lemma frameworks_of_In (lower : jsstring -> jsstring)
    (topics : list jsstring) (allFrameworks : list CanonicalFramework)
    (f : FrameworkEntry) :
  In f (installation.frameworks_of lower topics allFrameworks) <->
  fe_source f = lit "inferred"
  /\ (exists topic,
        In topic topics /\ normal_form_of lower (fe_matchingName f) topic)
  /\ In (fe_matchingName f) (map fw_matchingName allFrameworks).
Proof.
  unfold installation.frameworks_of, normal_form_of.
  rewrite in_non_null, in_map_iff. split.
  - intros (topic & H & Hin). cbv beta zeta in H. revert H.
    destruct (find_by_name fw_matchingName allFrameworks
                (installation.normalizeForMatching lower topic))
      as [(c & -> & Hc & Hall) | [-> _]]; [| discriminate].
    intros H. injection H as <-. cbn [fe_source fe_matchingName].
    split; [reflexivity |]. split; [exists topic; auto |].
    apply in_map. exact Hall.
  - intros (Hs & (topic & Hin & Hn) & Hc). exists topic.
    split; [| exact Hin]. cbv beta zeta.
    destruct (find_by_name fw_matchingName allFrameworks
                (installation.normalizeForMatching lower topic))
      as [(c & -> & Hc' & _) | [_ Habs]];
      [| exfalso; apply Habs; rewrite <- Hn; exact Hc].
    destruct f as [n s]. cbn [fe_matchingName fe_source] in *. congruence.
Qed.

Lemma domains_of_In (lower : jsstring -> jsstring)
    (topics : list jsstring) (allDomains : list CanonicalDomain)
    (n : jsstring) :
  In n (installation.domains_of lower topics allDomains) <->
  (exists topic, In topic topics /\ normal_form_of lower n topic)
  /\ In n (map dom_matchingName allDomains).
Proof.
  unfold installation.domains_of, normal_form_of.
  rewrite in_non_null, in_map_iff. split.
  - intros (topic & H & Hin). cbv beta zeta in H. revert H.
    destruct (find_by_name dom_matchingName allDomains
                (installation.normalizeForMatching lower topic))
      as [(c & -> & Hc & Hall) | [-> _]]; [| discriminate].
    intros H. injection H as <-.
    split; [exists topic; auto |]. apply in_map. exact Hall.
  - intros ((topic & Hin & Hn) & Hc). exists topic.
    split; [| exact Hin]. cbv beta zeta.
    destruct (find_by_name dom_matchingName allDomains
                (installation.normalizeForMatching lower topic))
      as [(c & -> & Hc' & _) | [_ Habs]];
      [| exfalso; apply Habs; rewrite <- Hn; exact Hc].
    congruence.
Qed.

Lemma if_non_empty_In {A} (arr : list A) (a : A) :
  In a arr -> if_non_empty arr = Val arr.
Proof. destruct arr; [intros [] | reflexivity]. Qed.

Lemma metadata_update_some (lower : jsstring -> jsstring) (repo_id : Z)
    (repoData : RepoData) (languagesData : list (jsstring * Z))
    (allLanguages : list CanonicalLanguage)
    (allFrameworks : list CanonicalFramework)
    (allDomains : list CanonicalDomain) (d : MetadataData) :
  installation.metadata_update lower repo_id repoData languagesData
    allLanguages allFrameworks allDomains = Some d ->
  let fromAPI := installation.languagesFromAPI lower languagesData allLanguages in
  md_languages d
  = if_non_empty
      (fromAPI ++ installation.languagesFromTopics lower (topics_of repoData)
                    allLanguages fromAPI)
  /\ md_frameworks d
     = if_non_empty (installation.frameworks_of lower (topics_of repoData)
                       allFrameworks)
  /\ md_domains d
     = if_non_empty (installation.domains_of lower (topics_of repoData)
                       allDomains)
  /\ md_tags d = if_non_empty (topics_of repoData).
Proof.
  unfold installation.metadata_update. fold (topics_of repoData).
  destruct (_ || _); [| discriminate]. intros H. injection H as <-.
  cbn. auto.
Qed.

Lemma metadata_update_none (lower : jsstring -> jsstring) (repo_id : Z)
    (repoData : RepoData) (languagesData : list (jsstring * Z))
    (allLanguages : list CanonicalLanguage)
    (allFrameworks : list CanonicalFramework)
    (allDomains : list CanonicalDomain) :
  installation.metadata_update lower repo_id repoData languagesData
    allLanguages allFrameworks allDomains = None <->
  topics_of repoData = []
  /\ installation.languagesFromAPI lower languagesData allLanguages = [].
Proof.
  unfold installation.metadata_update. fold (topics_of repoData).
  destruct (topics_of repoData) as [|topic topics] eqn:T.
  - cbn [installation.languagesFromTopics installation.frameworks_of
         installation.domains_of map non_null length Nat.ltb Nat.leb orb].
    rewrite app_nil_r, !orb_false_r.
    destruct (installation.languagesFromAPI lower languagesData allLanguages);
      cbn; split; intros H; try discriminate; auto.
    destruct H; discriminate.
  - cbn [length Nat.ltb Nat.leb]. rewrite orb_true_r.
    split; [discriminate | intros [H _]; discriminate].
Qed.

(** X15. In the metadata sent for a repository, the name of every language,
    framework and domain is a matching name of the canonical list of its
    kind, holds no white space, and is the normal form (lower case, white
    space removed) of a language GitHub reports, with its byte count, or of
    a topic of the repository, with 0 bytes for a language; every framework
    has the source [inferred]. *)
Theorem metadata_names_are_canonical (lower : jsstring -> jsstring)
    (repo_id : Z) (repoData : RepoData) (languagesData : list (jsstring * Z))
    (allLanguages : list CanonicalLanguage)
    (allFrameworks : list CanonicalFramework)
    (allDomains : list CanonicalDomain) (d : MetadataData) :
  installation.metadata_update lower repo_id repoData languagesData
    allLanguages allFrameworks allDomains = Some d ->
  (forall ls e, md_languages d = Val ls -> In e ls ->
     In (le_matchingName e) (map lang_matchingName allLanguages)
     /\ existsb is_space (le_matchingName e) = false
     /\ ((exists lang, In (lang, le_bytes e) languagesData
                       /\ normal_form_of lower (le_matchingName e) lang)
         \/ (le_bytes e = 0%Z
             /\ exists topic, In topic (topics_of repoData)
                  /\ normal_form_of lower (le_matchingName e) topic)))
  /\ (forall fs f, md_frameworks d = Val fs -> In f fs ->
        In (fe_matchingName f) (map fw_matchingName allFrameworks)
        /\ existsb is_space (fe_matchingName f) = false
        /\ fe_source f = lit "inferred"
        /\ exists topic, In topic (topics_of repoData)
             /\ normal_form_of lower (fe_matchingName f) topic)
  /\ (forall ds n, md_domains d = Val ds -> In n ds ->
        In n (map dom_matchingName allDomains)
        /\ existsb is_space n = false
        /\ exists topic, In topic (topics_of repoData)
             /\ normal_form_of lower n topic).
Proof.
  intros H. apply metadata_update_some in H.
  destruct H as (Hl & Hf & Hd & _).
  split; [| split].
  - intros ls e Hls Hin. rewrite Hl in Hls.
    apply if_non_empty_val in Hls. destruct Hls as [-> _].
    apply in_app_or in Hin. destruct Hin as [Hin | Hin].
    + apply languagesFromAPI_In in Hin. destruct Hin as (lang & Hin & Hn & Hc).
      split; [exact Hc |]. split; [| left; eauto].
      rewrite Hn. apply normalizeForMatching_no_space.
    + apply languagesFromTopics_In in Hin.
      destruct Hin as (Hb & (topic & Hin & Hn) & Hc & _).
      split; [exact Hc |]. split; [| right; eauto].
      rewrite Hn. apply normalizeForMatching_no_space.
  - intros fs f Hfs Hin. rewrite Hf in Hfs.
    apply if_non_empty_val in Hfs. destruct Hfs as [-> _].
    apply frameworks_of_In in Hin. destruct Hin as (Hs & (topic & Hin & Hn) & Hc).
    split; [exact Hc |]. split; [| eauto].
    rewrite Hn. apply normalizeForMatching_no_space.
  - intros ds n Hds Hin. rewrite Hd in Hds.
    apply if_non_empty_val in Hds. destruct Hds as [-> _].
    apply domains_of_In in Hin. destruct Hin as ((topic & Hin & Hn) & Hc).
    split; [exact Hc |]. split; [| eauto].
    rewrite Hn. apply normalizeForMatching_no_space.
Qed.

Lemma metadata_names_are_canonical_witness :
  exists d ls,
    Deliveries.update = Some d
    /\ md_languages d = Val ls
    /\ forall e, In e ls ->
         In (le_matchingName e)
            (map lang_matchingName Deliveries.allLanguages).
Proof.
  assert (H : exists d, Deliveries.update = Some d
                        /\ exists ls, md_languages d = Val ls)
    by (vm_compute; eexists; split; [reflexivity | eexists; reflexivity]).
  destruct H as (d & Hd & ls & Hls).
  exists d, ls. split; [exact Hd |]. split; [exact Hls |].
  intros e Hin.
  exact (proj1 (proj1 (@metadata_names_are_canonical toLowerCase 31
                         Deliveries.repoData Deliveries.languagesData
                         Deliveries.allLanguages Deliveries.allFrameworks
                         Deliveries.allDomains d Hd) ls e Hls Hin)).
Defined.

(** What the metadata computed from the answers holds: nothing that
    matches is dropped. *)
Lemma metadata_update_reports_matches (lower : jsstring -> jsstring)
    (repo_id : Z) (repoData : RepoData) (languagesData : list (jsstring * Z))
    (allLanguages : list CanonicalLanguage)
    (allFrameworks : list CanonicalFramework)
    (allDomains : list CanonicalDomain) :
  let normalized := installation.normalizeForMatching lower in
  let update :=
    installation.metadata_update lower repo_id repoData languagesData
      allLanguages allFrameworks allDomains in
  (forall lang bytes,
     In (lang, bytes) languagesData ->
     In (normalized lang) (map lang_matchingName allLanguages) ->
     exists d ls,
       update = Some d /\ md_languages d = Val ls
       /\ In {| le_matchingName := normalized lang; le_bytes := bytes |} ls)
  /\ (forall topic,
        In topic (topics_of repoData) ->
        exists d,
          update = Some d
          /\ md_tags d = Val (topics_of repoData)
          /\ (In (normalized topic) (map lang_matchingName allLanguages) ->
              exists ls bytes,
                md_languages d = Val ls
                /\ In {| le_matchingName := normalized topic;
                         le_bytes := bytes |} ls)
          /\ (In (normalized topic) (map fw_matchingName allFrameworks) ->
              exists fs,
                md_frameworks d = Val fs
                /\ In {| fe_matchingName := normalized topic;
                         fe_source := lit "inferred" |} fs)
          /\ (In (normalized topic) (map dom_matchingName allDomains) ->
              exists ds, md_domains d = Val ds /\ In (normalized topic) ds)).
Proof.
  intros normalized update. subst normalized update.
  set (norm := installation.normalizeForMatching lower).
  set (fromAPI := installation.languagesFromAPI lower languagesData allLanguages).
  assert (Hsome : forall d,
            installation.metadata_update lower repo_id repoData languagesData
              allLanguages allFrameworks allDomains = Some d ->
            md_languages d
            = if_non_empty
                (fromAPI ++ installation.languagesFromTopics lower
                              (topics_of repoData) allLanguages fromAPI)
            /\ md_frameworks d
               = if_non_empty (installation.frameworks_of lower
                                 (topics_of repoData) allFrameworks)
            /\ md_domains d
               = if_non_empty (installation.domains_of lower
                                 (topics_of repoData) allDomains)
            /\ md_tags d = if_non_empty (topics_of repoData))
    by (intros d Hd; exact (metadata_update_some _ _ _ _ _ _ _ Hd)).
  split.
  - intros lang bytes Hin Hc.
    assert (HinA : In {| le_matchingName := norm lang; le_bytes := bytes |}
                     fromAPI).
    { apply languagesFromAPI_In. exists lang. cbn [le_bytes le_matchingName].
      split; [exact Hin |]. split; [reflexivity | exact Hc]. }
    destruct (installation.metadata_update lower repo_id repoData languagesData
                allLanguages allFrameworks allDomains) as [d|] eqn:U.
    + destruct (Hsome d eq_refl) as (Hl & _).
      exists d. eexists. split; [reflexivity |].
      split; [rewrite Hl; eapply if_non_empty_In; apply in_or_app; left;
              exact HinA |].
      apply in_or_app. left. exact HinA.
    + apply metadata_update_none in U. destruct U as [_ U].
      fold fromAPI in U. rewrite U in HinA. destruct HinA.
  - intros topic Hin.
    destruct (installation.metadata_update lower repo_id repoData languagesData
                allLanguages allFrameworks allDomains) as [d|] eqn:U.
    + destruct (Hsome d eq_refl) as (Hl & Hf & Hd & Ht).
      exists d. split; [reflexivity |].
      split; [rewrite Ht; eapply if_non_empty_In; exact Hin |].
      split; [| split].
      * intros Hc.
        destruct (in_dec (list_eq_dec N.eq_dec) (norm topic)
                    (map le_matchingName fromAPI)) as [Hapi | Hnew].
        -- apply in_map_iff in Hapi. destruct Hapi as ([n b] & Hn & Hapi).
           cbn [le_matchingName] in Hn. subst n.
           eexists. exists b.
           split; [rewrite Hl; eapply if_non_empty_In; apply in_or_app; left;
                   exact Hapi |].
           apply in_or_app. left. exact Hapi.
        -- assert (HinT : In {| le_matchingName := norm topic; le_bytes := 0 |}
                            (installation.languagesFromTopics lower
                               (topics_of repoData) allLanguages fromAPI)).
           { apply languagesFromTopics_In. cbn [le_bytes le_matchingName].
             split; [reflexivity |]. split; [exists topic; split; auto; reflexivity |].
             split; assumption. }
           eexists. exists 0%Z.
           split; [rewrite Hl; eapply if_non_empty_In; apply in_or_app; right;
                   exact HinT |].
           apply in_or_app. right. exact HinT.
      * intros Hc.
        assert (HinF : In {| fe_matchingName := norm topic;
                             fe_source := lit "inferred" |}
                         (installation.frameworks_of lower (topics_of repoData)
                            allFrameworks)).
        { apply frameworks_of_In. cbn [fe_source fe_matchingName].
          split; [reflexivity |]. split; [exists topic; split; auto; reflexivity |].
          exact Hc. }
        eexists. split; [rewrite Hf; eapply if_non_empty_In; exact HinF |].
        exact HinF.
      * intros Hc.
        assert (HinD : In (norm topic)
                         (installation.domains_of lower (topics_of repoData)
                            allDomains)).
        { apply domains_of_In. split; [exists topic; split; auto; reflexivity |].
          exact Hc. }
        eexists. split; [rewrite Hd; eapply if_non_empty_In; exact HinD |].
        exact HinD.
    + apply metadata_update_none in U. destruct U as [U _].
      rewrite U in Hin. destruct Hin.
Qed.

(** X17. The languages sent for a repository are those matched from the
    answer of GitHub, followed by those found in the topics; the latter have
    0 bytes and none of them is the normal form of a language that GitHub
    reports. *)
Theorem topic_languages_do_not_repeat_api_languages
    (lower : jsstring -> jsstring)
    (repo_id : Z) (repoData : RepoData) (languagesData : list (jsstring * Z))
    (allLanguages : list CanonicalLanguage)
    (allFrameworks : list CanonicalFramework)
    (allDomains : list CanonicalDomain) (d : MetadataData)
    (ls : list LanguageEntry) :
  installation.metadata_update lower repo_id repoData languagesData
    allLanguages allFrameworks allDomains = Some d ->
  md_languages d = Val ls ->
  exists fromTopics,
    ls = installation.languagesFromAPI lower languagesData allLanguages
         ++ fromTopics
    /\ forall e, In e fromTopics ->
         le_bytes e = 0%Z
         /\ forall lang bytes, In (lang, bytes) languagesData ->
              installation.normalizeForMatching lower lang <> le_matchingName e.
Proof.
  intros H Hls. apply metadata_update_some in H. destruct H as (Hl & _).
  rewrite Hl in Hls. apply if_non_empty_val in Hls. destruct Hls as [-> _].
  eexists. split; [reflexivity |].
  intros e Hin. apply languagesFromTopics_In in Hin.
  destruct Hin as (Hb & _ & Hc & Hnot). split; [exact Hb |].
  intros lang bytes Hin Heq. apply Hnot.
  change (le_matchingName e)
    with (le_matchingName {| le_matchingName := le_matchingName e;
                             le_bytes := bytes |}).
  apply in_map. apply languagesFromAPI_In. exists lang.
  cbn [le_bytes le_matchingName]. split; [exact Hin |].
  split; [symmetry; exact Heq | exact Hc].
Qed.

Lemma topic_languages_do_not_repeat_api_languages_witness :
  exists d ls fromTopics,
    Deliveries.update = Some d
    /\ md_languages d = Val ls
    /\ ls = installation.languagesFromAPI toLowerCase Deliveries.languagesData
              Deliveries.allLanguages ++ fromTopics
    /\ forall e, In e fromTopics -> le_bytes e = 0%Z.
Proof.
  assert (H : exists d, Deliveries.update = Some d
                        /\ exists ls, md_languages d = Val ls)
    by (vm_compute; eexists; split; [reflexivity | eexists; reflexivity]).
  destruct H as (d & Hd & ls & Hls).
  destruct (@topic_languages_do_not_repeat_api_languages toLowerCase 31
              Deliveries.repoData Deliveries.languagesData
              Deliveries.allLanguages Deliveries.allFrameworks
              Deliveries.allDomains d ls Hd Hls) as (fromTopics & Heq & Hnew).
  exists d, ls, fromTopics. split; [exact Hd |]. split; [exact Hls |].
  split; [exact Heq |]. intros e Hin. exact (proj1 (Hnew e Hin)).
Defined.

(** No metadata is computed exactly when the repository has no topic and
    no language that GitHub reports has a canonical matching name as its
    normal form. *)
Lemma metadata_update_none_iff
    (lower : jsstring -> jsstring)
    (repo_id : Z) (repoData : RepoData) (languagesData : list (jsstring * Z))
    (allLanguages : list CanonicalLanguage)
    (allFrameworks : list CanonicalFramework)
    (allDomains : list CanonicalDomain) :
  installation.metadata_update lower repo_id repoData languagesData
    allLanguages allFrameworks allDomains = None <->
  topics_of repoData = []
  /\ forall lang bytes,
       In (lang, bytes) languagesData ->
       ~ In (installation.normalizeForMatching lower lang)
            (map lang_matchingName allLanguages).
Proof.
  rewrite metadata_update_none. split; intros [T H]; (split; [exact T |]).
  - intros lang bytes Hin Hc.
    assert (HinA : In {| le_matchingName :=
                           installation.normalizeForMatching lower lang;
                         le_bytes := bytes |}
                     (installation.languagesFromAPI lower languagesData
                        allLanguages)).
    { apply languagesFromAPI_In. exists lang. cbn [le_bytes le_matchingName].
      split; [exact Hin |]. split; [reflexivity | exact Hc]. }
    rewrite H in HinA. destruct HinA.
  - destruct (installation.languagesFromAPI lower languagesData allLanguages)
      as [|e l] eqn:E; [reflexivity |].
    exfalso.
    assert (Hin : In e (installation.languagesFromAPI lower languagesData
                          allLanguages)) by (rewrite E; left; reflexivity).
    apply languagesFromAPI_In in Hin. destruct Hin as (lang & Hin & Hn & Hc).
    apply (H _ _ Hin). rewrite <- Hn. exact Hc.
Qed.

(** ** The run of [addRepositoryWithMetadata] *)

(** The update of the metadata is requested exactly when every call
    before it returned and the metadata computed from the answers is not
    empty; the request carries that metadata. *)
Lemma update_call_iff (lower : jsstring -> jsstring) (a : installation_run.Answers)
    (installationId : Z) (repo : InstallationRepo) (d : MetadataData)
    (ok : bool) :
  In (installation_run.UpdateRepositoryMetadata d ok) (installation_run.calls lower a installationId repo) <->
  exists repoData languagesData allLanguages data allDomains,
    installation_run.answers_arrive a installationId repo repoData languagesData allLanguages
      data allDomains
    /\ installation.metadata_update lower (ir_id repo) repoData languagesData
         allLanguages (flatten_categories data) allDomains = Some d
    /\ ok = installation_run.updateRepositoryMetadata a d.
Proof.
  unfold installation_run.calls, installation_run.answers_arrive,
    installation_run.addRepositoryWithMetadata, installation_run.try_catch,
    installation_run.bind, installation_run.await, installation_run.await_ok,
    installation_run.canonical_metadata, installation_run.context_log,
    installation_run.ret.
  set (owner := or_undefined (nth_error (split 47 (ir_full_name repo)) 0)).
  set (name := or_undefined (nth_error (split 47 (ir_full_name repo)) 1)).
  destruct (installation_run.repos_get a owner name) as [repoData|];
    [| split; [intros H; cbn in H; intuition discriminate
              | intros (? & ? & ? & ? & ? & (? & _) & _); discriminate]].
  destruct (installation_run.addRepository a _) eqn:Ha;
    [| split; [intros H; cbn in H; intuition discriminate
              | intros (? & ? & ? & ? & ? & (E & Ha' & _) & _);
                injection E as <-; congruence]].
  destruct (installation_run.listLanguages a owner name) as [languagesData|];
    [| split; [intros H; cbn in H; intuition discriminate
              | intros (? & ? & ? & ? & ? & (_ & _ & ? & _) & _); discriminate]].
  destruct (installation_run.getLanguages a) as [allLanguages|];
    [| split; [intros H; cbn in H; intuition discriminate
              | intros (? & ? & ? & ? & ? & (_ & _ & _ & ? & _) & _);
                discriminate]].
  destruct (installation_run.getFrameworks a) as [data|];
    [| split; [intros H; cbn in H; intuition discriminate
              | intros (? & ? & ? & ? & ? & (_ & _ & _ & _ & ? & _) & _);
                discriminate]].
  destruct (installation_run.getDomains a) as [allDomains|];
    [| split; [intros H; cbn in H; intuition discriminate
              | intros (? & ? & ? & ? & ? & (_ & _ & _ & _ & _ & ?) & _);
                discriminate]].
  destruct (installation.metadata_update lower (ir_id repo) repoData
              languagesData allLanguages (flatten_categories data) allDomains)
    as [update|] eqn:Hu.
  - split.
    + intros H.
      assert (E : installation_run.UpdateRepositoryMetadata update
                    (installation_run.updateRepositoryMetadata a update)
                  = installation_run.UpdateRepositoryMetadata d ok).
      { destruct (installation_run.updateRepositoryMetadata a update); cbn in H;
          intuition discriminate. }
      injection E as <- <-.
      exists repoData, languagesData, allLanguages, data, allDomains.
      repeat split; auto.
    + intros (r & l & al & da & ad & (Er & _ & El & Eal & Eda & Ead) & Hm & ->).
      injection Er as <-. injection El as <-. injection Eal as <-.
      injection Eda as <-. injection Ead as <-.
      rewrite Hu in Hm. injection Hm as <-.
      destruct (installation_run.updateRepositoryMetadata a update); cbn; auto 10.
  - split.
    + intros H. cbn in H. intuition discriminate.
    + intros (r & l & al & da & ad & (Er & _ & El & Eal & Eda & Ead) & Hm & _).
      injection Er as <-. injection El as <-. injection Eal as <-.
      injection Eda as <-. injection Ead as <-. congruence.
Qed.

(** X16. When every call that [addRepositoryWithMetadata] awaits before the
    update of the metadata returns, nothing that matches is dropped: the
    update is requested, a language that GitHub reports and whose normal
    form is a canonical matching name is sent with its byte count, and for
    a repository with a topic the topics are sent as tags and a topic whose
    normal form is a canonical language, framework or domain is sent as
    such. *)
Theorem canonical_matches_are_sent (lower : jsstring -> jsstring)
    (a : installation_run.Answers) (installationId : Z)
    (repo : InstallationRepo) (repoData : RepoData)
    (languagesData : list (jsstring * Z))
    (allLanguages : list CanonicalLanguage) (data : FrameworkCategories)
    (allDomains : list CanonicalDomain) :
  installation_run.answers_arrive a installationId repo repoData languagesData
    allLanguages data allDomains ->
  let normalized := installation.normalizeForMatching lower in
  let sent d :=
    In (installation_run.UpdateRepositoryMetadata d
          (installation_run.updateRepositoryMetadata a d))
       (installation_run.calls lower a installationId repo) in
  (forall lang bytes,
     In (lang, bytes) languagesData ->
     In (normalized lang) (map lang_matchingName allLanguages) ->
     exists d ls,
       sent d /\ md_languages d = Val ls
       /\ In {| le_matchingName := normalized lang; le_bytes := bytes |} ls)
  /\ (forall topic,
        In topic (topics_of repoData) ->
        exists d,
          sent d
          /\ md_tags d = Val (topics_of repoData)
          /\ (In (normalized topic) (map lang_matchingName allLanguages) ->
              exists ls bytes,
                md_languages d = Val ls
                /\ In {| le_matchingName := normalized topic;
                         le_bytes := bytes |} ls)
          /\ (In (normalized topic)
                 (map fw_matchingName (flatten_categories data)) ->
              exists fs,
                md_frameworks d = Val fs
                /\ In {| fe_matchingName := normalized topic;
                         fe_source := lit "inferred" |} fs)
          /\ (In (normalized topic) (map dom_matchingName allDomains) ->
              exists ds, md_domains d = Val ds /\ In (normalized topic) ds)).
Proof.
  intros Harr normalized sent. subst normalized sent. cbv beta.
  destruct (@metadata_update_reports_matches lower (ir_id repo) repoData
              languagesData allLanguages (flatten_categories data) allDomains)
    as [HL HT].
  split.
  - intros lang bytes Hin Hc.
    destruct (HL lang bytes Hin Hc) as (d & ls & Hu & Hls & Hl).
    exists d, ls. split; [| split; assumption].
    apply update_call_iff. exists repoData, languagesData, allLanguages, data,
      allDomains. auto.
  - intros topic Hin.
    destruct (HT topic Hin) as (d & Hu & Ht & H1 & H2 & H3).
    exists d. split; [| repeat split; assumption].
    apply update_call_iff. exists repoData, languagesData, allLanguages, data,
      allDomains. auto.
Qed.

Lemma canonical_matches_are_sent_witness :
  installation_run.answers_arrive Deliveries.answers 77 Deliveries.repo
    Deliveries.repoData Deliveries.languagesData Deliveries.allLanguages
    Deliveries.categories Deliveries.allDomains
  /\ exists d ls,
       In (installation_run.UpdateRepositoryMetadata d true)
          (installation_run.calls toLowerCase Deliveries.answers 77
             Deliveries.repo)
       /\ md_languages d = Val ls
       /\ In {| le_matchingName := lit "typescript"; le_bytes := 1200 |} ls.
Proof.
  assert (H : installation_run.answers_arrive Deliveries.answers 77
                Deliveries.repo Deliveries.repoData Deliveries.languagesData
                Deliveries.allLanguages Deliveries.categories
                Deliveries.allDomains)
    by (repeat split; reflexivity).
  split; [exact H |].
  destruct (proj1 (@canonical_matches_are_sent toLowerCase Deliveries.answers
                     77 Deliveries.repo Deliveries.repoData
                     Deliveries.languagesData Deliveries.allLanguages
                     Deliveries.categories Deliveries.allDomains H)
              (lit "TypeScript") 1200%Z (or_introl eq_refl)
              (or_introl eq_refl))
    as (d & ls & Hs & Hl & Hin).
  exists d, ls. split; [exact Hs |]. split; [exact Hl | exact Hin].
Defined.

(** With a topic and a language that match, and [GET /meta/domains]
    failing: the three canonical lists are requested, the failure is
    caught, and no update of the metadata is requested. *)
Example no_update_without_domains :
  installation_run.calls toLowerCase Deliveries.answers_without_domains 77
    Deliveries.repo
  = [ installation_run.ReposGet (Val (lit "acme")) (Val (lit "app"))
        (Some Deliveries.repoData);
      installation_run.AddRepository
        (installation_run.addRepository_data 77 Deliveries.repo
           (Val (lit "acme")) (Val (lit "app")) Deliveries.repoData) true;
      installation_run.ListLanguages (Val (lit "acme")) (Val (lit "app"))
        (Some Deliveries.languagesData);
      installation_run.GetLanguages (Some Deliveries.allLanguages);
      installation_run.GetFrameworks (Some Deliveries.categories);
      installation_run.GetDomains None;
      installation_run.ContextLog Error
        (lit "Failed to add repository acme/app with metadata") ].
Proof. reflexivity. Qed.

(** X18. [addRepositoryWithMetadata] requests the update of the metadata
    exactly when every call it awaits before (the repository, its
    registration with the backend, its languages and the three canonical
    lists) returned, and the repository has a topic or GitHub reports a
    language whose normal form is a canonical matching name. *)
Theorem metadata_update_is_sent_iff (lower : jsstring -> jsstring)
    (a : installation_run.Answers) (installationId : Z)
    (repo : InstallationRepo) :
  (exists d ok,
     In (installation_run.UpdateRepositoryMetadata d ok)
        (installation_run.calls lower a installationId repo)) <->
  (exists repoData languagesData allLanguages data allDomains,
     installation_run.answers_arrive a installationId repo repoData
       languagesData allLanguages data allDomains
     /\ (topics_of repoData <> []
         \/ exists lang bytes,
              In (lang, bytes) languagesData
              /\ In (installation.normalizeForMatching lower lang)
                    (map lang_matchingName allLanguages))).
Proof.
  split.
  - intros (d & ok & H). apply update_call_iff in H.
    destruct H as (repoData & languagesData & allLanguages & data & allDomains
                   & Harr & Hu & _).
    exists repoData, languagesData, allLanguages, data, allDomains.
    split; [exact Harr |].
    destruct (topics_of repoData) as [|topic topics] eqn:T;
      [| left; discriminate].
    right.
    destruct (installation.languagesFromAPI lower languagesData allLanguages)
      as [|e l] eqn:E.
    + assert (N : installation.metadata_update lower (ir_id repo) repoData
                    languagesData allLanguages (flatten_categories data)
                    allDomains = None)
        by (apply metadata_update_none; auto).
      congruence.
    + assert (Hin : In e (installation.languagesFromAPI lower languagesData
                            allLanguages)) by (rewrite E; left; reflexivity).
      apply languagesFromAPI_In in Hin. destruct Hin as (lang & Hin & Hn & Hc).
      exists lang, (le_bytes e). split; [exact Hin |].
      unfold normal_form_of in Hn. rewrite <- Hn. exact Hc.
  - intros (repoData & languagesData & allLanguages & data & allDomains
            & Harr & Hfound).
    destruct (installation.metadata_update lower (ir_id repo) repoData
                languagesData allLanguages (flatten_categories data)
                allDomains) as [d|] eqn:Hu.
    + exists d, (installation_run.updateRepositoryMetadata a d).
      apply update_call_iff.
      exists repoData, languagesData, allLanguages, data, allDomains. auto.
    + exfalso.
      apply metadata_update_none_iff in Hu.
      destruct Hu as [T Hno].
      destruct Hfound as [Ht | (lang & bytes & Hin & Hc)];
        [contradiction | exact (Hno _ _ Hin Hc)].
Qed.
